(** * The incremental re-analysis pipeline of the IDE front end

    A shallow embedding of the algorithmic core of [App.tsx] and
    [AIPanel.tsx]: the line diff that drives the preview refresh, the
    Python function extractor, the batching loop of an analysis run, the
    voice-session transcript handler and the vibe-edit applier.

    JavaScript strings are modelled by [string]; a character is one code
    unit in the range 0..255.  Numbers that the code only counts with are
    [Z] (indices that may step below zero) or [nat]. *)

From Stdlib Require Import Ascii ZArith Lia.
From Stdlib Require String DecimalString.
From stdpp Require Import base list strings gmap.

Local Open Scope Z_scope.

(* ===================================================================== *)
(** * Part I: definitions *)
(* ===================================================================== *)

(** ** JavaScript string primitives used by the code *)

Module JsString.

(** The code units that [\s] and [String.prototype.trim] treat as white
    space, restricted to 0..255: TAB, LF, VT, FF, CR, SP and NBSP. *)
Definition is_space (c : ascii) : bool :=
  match c with
  | "009" | "010" | "011" | "012" | "013" | " " | "160" => true
  | _ => false
  end%char.

(** [\w] is [[A-Za-z0-9_]]. *)
Definition is_word (c : ascii) : bool :=
  let n := nat_of_ascii c in
  ((65 <=? n) && (n <=? 90) || (97 <=? n) && (n <=? 122)
   || (48 <=? n) && (n <=? 57) || (n =? 95))%nat.

(** [[A-Za-z_]]. *)
Definition is_ident_start (c : ascii) : bool :=
  let n := nat_of_ascii c in
  ((65 <=? n) && (n <=? 90) || (97 <=? n) && (n <=? 122) || (n =? 95))%nat.

(** [s.trimStart()]. *)
Fixpoint trimStart (s : string) : string :=
  match s with
  | String c s' => if is_space c then trimStart s' else s
  | EmptyString => EmptyString
  end.

(** [s.trimEnd()]. *)
Fixpoint trimEnd (s : string) : string :=
  match s with
  | EmptyString => EmptyString
  | String c s' =>
      let t := trimEnd s' in
      if is_space c && String.eqb t "" then "" else String c t
  end.

(** [s.trim()]. *)
Definition trim (s : string) : string := trimEnd (trimStart s).

(** Truthiness of a string: the empty string is the only falsy one. *)
Definition truthy (s : string) : bool := negb (String.eqb s "").

(** [s.split("\n")]: never empty, [""] splits into [[""]]. *)
Fixpoint split_nl (s : string) : list string :=
  match s with
  | EmptyString => [""]
  | String c s' =>
      if Ascii.eqb c "010" then "" :: split_nl s'
      else match split_nl s' with
           | l :: ls => String c l :: ls
           | [] => [String c ""]
           end
  end.

(** [lines.join("\n")]. *)
Fixpoint join_nl (lines : list string) : string :=
  match lines with
  | [] => ""
  | [l] => l
  | l :: ls => l +:+ String "010" (join_nl ls)
  end.

(** [s.includes(p)]. *)
Fixpoint includes (s p : string) : bool :=
  String.prefix p s
  || match s with
     | EmptyString => false
     | String _ s' => includes s' p
     end.

(** [s.toLowerCase()] on code units 0..255: A-Z and the Latin-1 capitals
    (192..222 without the multiplication sign 215) move up by 32. *)
Definition lower_char (c : ascii) : ascii :=
  let n := nat_of_ascii c in
  if ((65 <=? n) && (n <=? 90)
      || (192 <=? n) && (n <=? 222) && negb (n =? 215))%nat
  then ascii_of_nat (n + 32) else c.

Fixpoint toLowerCase (s : string) : string :=
  match s with
  | EmptyString => EmptyString
  | String c s' => String (lower_char c) (toLowerCase s')
  end.

(** [arr.slice(lo, hi)] for [0 <= lo]; [hi] beyond the end is clamped. *)
Definition slice {A} (lo hi : nat) (l : list A) : list A :=
  take (hi - lo) (drop lo l).

End JsString.

Import JsString.

(** ** The line diff of [App.tsx] *)

Module EditDiff.

(** [lines[k]]: [None] stands for [undefined]. *)
Definition line_at (lines : list string) (k : Z) : option string :=
  if k <? 0 then None else lines !! Z.to_nat k.

(** [===] on two array reads. *)
Definition same_line (x y : option string) : bool :=
  match x, y with
  | Some a, Some b => String.eqb a b
  | None, None => true
  | _, _ => false
  end.

Definition len (lines : list string) : Z := Z.of_nat (length lines).

(** The first [while]: advance [start] over equal leading lines. *)
Fixpoint prefixLoop (fuel : nat) (beforeLines afterLines : list string)
    (start : Z) : Z :=
  match fuel with
  | O => start
  | S fuel' =>
      if (start <? len beforeLines) && (start <? len afterLines)
         && same_line (line_at beforeLines start) (line_at afterLines start)
      then prefixLoop fuel' beforeLines afterLines (start + 1)
      else start
  end.

(** The second [while]: step both end indices back over equal trailing
    lines, never below [start]. *)
Fixpoint suffixLoop (fuel : nat) (beforeLines afterLines : list string)
    (start beforeEnd afterEnd : Z) : Z * Z :=
  match fuel with
  | O => (beforeEnd, afterEnd)
  | S fuel' =>
      if (beforeEnd >=? start) && (afterEnd >=? start)
         && same_line (line_at beforeLines beforeEnd)
                      (line_at afterLines afterEnd)
      then suffixLoop fuel' beforeLines afterLines start
             (beforeEnd - 1) (afterEnd - 1)
      else (beforeEnd, afterEnd)
  end.

(** [countChangedLines(before, after)].  Each loop runs at most
    [beforeLines.length] times, which is the fuel given. *)
Definition countChangedLines (before after : string) : Z :=
  if String.eqb before after then 0
  else
    let beforeLines := split_nl before in
    let afterLines := split_nl after in
    let start :=
      prefixLoop (length beforeLines) beforeLines afterLines 0 in
    let '(beforeEnd, afterEnd) :=
      suffixLoop (length beforeLines) beforeLines afterLines start
        (len beforeLines - 1) (len afterLines - 1) in
    let removedLines := Z.max 0 (beforeEnd - start + 1) in
    let addedLines := Z.max 0 (afterEnd - start + 1) in
    Z.max removedLines addedLines.

(** The diff as the design document words it: drop the longest common
    prefix of lines, then the longest common suffix of what remains, and
    take the larger of the two remaining line counts. *)
Fixpoint commonPrefixLength (b a : list string) : nat :=
  match b, a with
  | x :: b', y :: a' =>
      if String.eqb x y then S (commonPrefixLength b' a') else O
  | _, _ => O
  end.

Definition commonSuffixLength (b a : list string) : nat :=
  commonPrefixLength (reverse b) (reverse a).

Definition magnitude_spec (before after : string) : Z :=
  let b := split_nl before in
  let a := split_nl after in
  let p := commonPrefixLength b a in
  let b1 := drop p b in
  let a1 := drop p a in
  let s := commonSuffixLength b1 a1 in
  let b2 := take (length b1 - s) b1 in
  let a2 := take (length a1 - s) a1 in
  Z.of_nat (Nat.max (length b2) (length a2)).

End EditDiff.

Import EditDiff.

(** ** The function extractor of [AIPanel.tsx] *)

Module UnitExtractor.

(** [type PythonFunctionBlock = { functionName: string; source: string }] *)
Record PythonFunctionBlock := {
  functionName : string;
  source : string
}.

(** [line.replace(/\t/g, "    ")]. *)
Fixpoint replace_tabs (line : string) : string :=
  match line with
  | EmptyString => EmptyString
  | String c s' =>
      if Ascii.eqb c "009" then "    " +:+ replace_tabs s'
      else String c (replace_tabs s')
  end.

(** Length of the leading white space, the match of the indent
    pattern. *)
Fixpoint leading_space_count (s : string) : nat :=
  match s with
  | String c s' => if is_space c then S (leading_space_count s') else O
  | EmptyString => O
  end.

(** [normalizeIndent]: tabs count as four columns. *)
Definition normalizeIndent (line : string) : nat :=
  leading_space_count (replace_tabs line).

(** The longest run of characters satisfying [p], and the rest. *)
Fixpoint span_while (p : ascii -> bool) (s : string) : string * string :=
  match s with
  | String c s' =>
      if p c then let '(w, r) := span_while p s' in (String c w, r)
      else (EmptyString, s)
  | EmptyString => (EmptyString, EmptyString)
  end.

(** Remove the literal prefix [p] from [s], if it is there. *)
Fixpoint eat (p s : string) : option string :=
  match p, s with
  | EmptyString, _ => Some s
  | String a p', String b s' => if Ascii.eqb a b then eat p' s' else None
  | String _ _, EmptyString => None
  end.

(** [line.match(defPattern)], giving capture group 2, where the pattern
    reads: start of line, any white space, [def], at least one white
    space, a name (a letter or underscore, then word characters), any
    white space, an opening parenthesis.  The character classes that
    meet in the pattern are disjoint, so the greedy match is the only
    candidate and the matcher never backtracks. *)
Definition defMatch (line : string) : option string :=
  match eat "def" (trimStart line) with
  | None => None
  | Some s2 =>
      match span_while is_space s2 with
      | (EmptyString, _) => None
      | (_, String c s3) =>
          if is_ident_start c then
            let '(w, s4) := span_while is_word s3 in
            match trimStart s4 with
            | String "(" _ => Some (String c w)
            | _ => None
            end
          else None
      | (_, EmptyString) => None
      end
  end.

(** [prevLine.match(decoratorPattern)] as a truth value: any white
    space from the start of the line, then an at sign. *)
Definition decoratorMatch (line : string) : bool :=
  match trimStart line with
  | String "@" _ => true
  | _ => false
  end.

(** [!line.trim()]. *)
Definition blank (line : string) : bool := negb (truthy (trim line)).

(** [lines[k]] for an index the loops keep in range. *)
Definition line (lines : list string) (k : nat) : string :=
  nth k lines "".

(** The upward [while (start > 0)] loop: extend the unit over the
    decorator lines right above the [def], at the same indentation. *)
Fixpoint extendStart (lines : list string) (defIndent : nat)
    (start : nat) : nat :=
  match start with
  | O => O
  | S p =>
      let prevLine := line lines p in
      if blank prevLine then start
      else if negb (decoratorMatch prevLine)
              || negb (normalizeIndent prevLine =? defIndent)%nat
      then start
      else extendStart lines defIndent p
  end.

(** The downward [while (end < lines.length)] loop, run over the lines
    from index [end_] on: blank lines are stepped over, the first
    non-blank line indented no deeper than the [def] stops it. *)
Fixpoint extendEnd (defIndent : nat) (rest : list string)
    (end_ : nat) : nat :=
  match rest with
  | [] => end_
  | currentLine :: rest' =>
      if blank currentLine then extendEnd defIndent rest' (S end_)
      else if (normalizeIndent currentLine <=? defIndent)%nat then end_
      else extendEnd defIndent rest' (S end_)
  end.

(** One unit with the line span [start, end) it was cut from. *)
Record Span := {
  span_start : nat;
  span_end : nat;
  span_name : string
}.

(** The outer [while (i < lines.length)] loop.  [i] grows in every
    round, so [lines.length] rounds of fuel are enough. *)
Fixpoint scanFrom (fuel : nat) (lines : list string) (i : nat)
    : list Span :=
  match fuel with
  | O => []
  | S fuel' =>
      if (i <? length lines)%nat then
        match defMatch (line lines i) with
        | None => scanFrom fuel' lines (i + 1)
        | Some name =>
            let defIndent := normalizeIndent (line lines i) in
            let start := extendStart lines defIndent i in
            let end_ := extendEnd defIndent (drop (i + 1) lines) (i + 1) in
            {| span_start := start; span_end := end_; span_name := name |}
            :: scanFrom fuel' lines end_
        end
      else []
  end.

Definition extractSpans (codeContent : string) : list Span :=
  let lines := split_nl codeContent in
  scanFrom (length lines) lines 0.

(** [{ functionName: defMatch[2],
       source: lines.slice(start, end).join("\n") }] *)
Definition blockOf (lines : list string) (sp : Span)
    : PythonFunctionBlock :=
  {| functionName := span_name sp;
     source := join_nl (slice (span_start sp) (span_end sp) lines) |}.

Definition extractPythonFunctions (codeContent : string)
    : list PythonFunctionBlock :=
  blockOf (split_nl codeContent) <$> extractSpans codeContent.

(** [chained lo spans]: the spans follow one another from line [lo]
    on, each non-empty and within the file, none starting before the
    previous one has ended. *)
Fixpoint chained (n lo : nat) (spans : list Span) : Prop :=
  match spans with
  | [] => True
  | sp :: rest =>
      (lo <= span_start sp)%nat /\ (span_start sp < span_end sp)%nat
      /\ (span_end sp <= n)%nat /\ chained n (span_end sp) rest
  end.

(** [barrier lines lo]: an upward scan for decorators that starts at or
    below line [lo] cannot step above it. *)
Definition barrier (lines : list string) (lo : nat) : Prop :=
  lo = O
  \/ exists D : nat,
       (blank (line lines (lo - 1)) = true
        \/ decoratorMatch (line lines (lo - 1)) = false
        \/ (D < normalizeIndent (line lines (lo - 1)))%nat)
       /\ ((lo < length lines)%nat ->
           (normalizeIndent (line lines lo) <= D)%nat).

End UnitExtractor.

Import UnitExtractor.

(** ** The edit trigger of [App.tsx] *)

Module EditTrigger.

Definition AI_REFRESH_LINE_THRESHOLD : Z := 5.

(** The pieces of [App]'s state the edit handler reads and writes:
    React state ([filesContent], [currentFile], [aiPanelCode]) and the
    ref [pendingAiLineChangesRef]. *)
Record AppState := {
  filesContent : gmap string string;
  currentFile : string;
  aiPanelCode : string;
  pendingAiLineChanges : gmap string Z
}.

(** What one call of the handler did to the AI panel's snapshot. *)
Inductive Refresh :=
| NoRefresh
| RefreshTo (newCode : string).   (* [setAiPanelCode(newCode)] *)

(** [handleCodeChange(newCode)]: the next state (after the state setters
    have taken effect) and whether the preview was refreshed. *)
Definition handleCodeChange (st : AppState) (newCode : string)
    : AppState * Refresh :=
  let previousCode := default "" (filesContent st !! currentFile st) in
  let changedLines := countChangedLines previousCode newCode in
  let '(pendingRef, panelCode, refresh) :=
    if changedLines >? 0 then
      let pending :=
        default 0 (pendingAiLineChanges st !! currentFile st) in
      let nextPending := pending + changedLines in
      let ref1 := <[currentFile st := nextPending]> (pendingAiLineChanges st) in
      if nextPending >=? AI_REFRESH_LINE_THRESHOLD then
        (<[currentFile st := 0]> ref1, newCode, RefreshTo newCode)
      else (ref1, aiPanelCode st, NoRefresh)
    else (pendingAiLineChanges st, aiPanelCode st, NoRefresh) in
  ({| filesContent := <[currentFile st := newCode]> (filesContent st);
      currentFile := currentFile st;
      aiPanelCode := panelCode;
      pendingAiLineChanges := pendingRef |},
   refresh).

(** A sequence of edits of the active file, each handled after the
    previous one was rendered; the refresh decisions are collected. *)
Fixpoint editSequence (st : AppState) (edits : list string)
    : AppState * list Refresh :=
  match edits with
  | [] => (st, [])
  | newCode :: rest =>
      let '(st1, r) := handleCodeChange st newCode in
      let '(st2, rs) := editSequence st1 rest in
      (st2, r :: rs)
  end.

Definition is_refresh (r : Refresh) : bool :=
  match r with RefreshTo _ => true | NoRefresh => false end.

(** The accumulated count the handler sees for the active file:
    [pendingAiLineChangesRef.current[currentFile] || 0]. *)
Definition pendingOf (st : AppState) : Z :=
  default 0 (pendingAiLineChanges st !! currentFile st).

(** The content the handler diffs against:
    [filesContent[currentFile] || ""]. *)
Definition contentOf (st : AppState) : string :=
  default "" (filesContent st !! currentFile st).

End EditTrigger.

Import EditTrigger.

(** ** JSON values as the code inspects them *)

Module Json.

#[local] Set Warnings "-register-all".

(** A value produced by [JSON.parse] or [response.json()].  An object is
    its list of fields; the first binding of a key is the one read. *)
Inductive json :=
| JNull
| JBool (b : bool)
| JNum (n : Z)
| JStr (s : string)
| JArr (items : list json)
| JObj (fields : list (string * json)).

(** [!v]. *)
Definition falsy (v : json) : bool :=
  match v with
  | JNull | JBool false | JNum 0 | JStr EmptyString => true
  | _ => false
  end.

Fixpoint assoc (k : string) (fields : list (string * json)) : option json :=
  match fields with
  | [] => None
  | (k', v) :: rest => if String.eqb k k' then Some v else assoc k rest
  end.

(** [v.k] for the field names the code reads ([functionName],
    [explanation], [choices], [message], [content], [updatedContent],
    [summary]); [None] is [undefined].  Only objects carry such a
    field; [v] is not [null] where this is used. *)
Definition prop (v : json) (k : string) : option json :=
  match v with
  | JObj fields => assoc k fields
  | _ => None
  end.

(** [v[0]] on a value that is neither [null] nor [undefined]. *)
Definition first (v : json) : option json :=
  match v with
  | JArr (x :: _) => Some x
  | JStr (String c _) => Some (JStr (String c ""))
  | JObj fields => assoc "0" fields
  | _ => None
  end.

(** [typeof v === "string"], with the string. *)
Definition as_string (v : option json) : option string :=
  match v with
  | Some (JStr s) => Some s
  | _ => None
  end.

(** [x?.k]: [undefined] when [x] is [null] or [undefined]. *)
Definition opt_chain (x : option json) (f : json -> option json)
    : option json :=
  match x with
  | None | Some JNull => None
  | Some v => f v
  end.

End Json.

Import Json.

(** ** The analysis run of [AIPanel.tsx] *)

Module AnalysisRun.

Inductive AIPanelMode := reviewer | teacher | vibe | voice.

Definition batchSize : nat := 5.

Definition FALLBACK : string := "Unable to analyze this function.".

(** The batches the [for (i = 0; i < n; i += batchSize)] loop slices,
    from index [i] on. *)
Fixpoint batchesFrom (fuel : nat) (units : list PythonFunctionBlock)
    (i : nat) : list (list PythonFunctionBlock) :=
  match fuel with
  | O => []
  | S fuel' =>
      if (i <? length units)%nat then
        slice i (i + batchSize) units
        :: batchesFrom fuel' units (i + batchSize)
      else []
  end.

Definition batches (units : list PythonFunctionBlock)
    : list (list PythonFunctionBlock) :=
  batchesFrom (length units) units 0.

(** Does [s] start with [p], ignoring case (the [i] flag)? *)
Fixpoint eat_ci (p s : string) : option string :=
  match p, s with
  | EmptyString, _ => Some s
  | String a p', String b s' =>
      if Ascii.eqb a (lower_char b) then eat_ci p' s' else None
  | String _ _, EmptyString => None
  end.

(** Removing the first match of the opening fence pattern (three
    backquotes, [json] in any case, then any white space). *)
Fixpoint dropFirstJsonFence (s : string) : string :=
  match eat_ci "```json" s with
  | Some rest => trimStart rest
  | None =>
      match s with
      | EmptyString => EmptyString
      | String c s' => String c (dropFirstJsonFence s')
      end
  end.

(** Removing three backquotes that end the text. *)
Fixpoint dropFinalFence (s : string) : string :=
  if String.eqb s "```" then ""
  else match s with
       | EmptyString => EmptyString
       | String c s' => String c (dropFinalFence s')
       end.

Definition cleanModelText (text : string) : string :=
  trim (dropFinalFence (dropFirstJsonFence text)).

(** The check of the [forEach]: an item passes when it is truthy and
    both fields are strings. *)
Definition validItem (item : json) : option (string * string) :=
  if falsy item then None
  else match as_string (prop item "functionName"),
             as_string (prop item "explanation") with
       | Some f, Some e => Some (f, e)
       | _, _ => None
       end.

Fixpoint validItems (items : list json) : option (list (string * string)) :=
  match items with
  | [] => Some []
  | item :: rest =>
      match validItem item, validItems rest with
      | Some fe, Some fes => Some (fe :: fes)
      | _, _ => None
      end
  end.

(** [new Map(parsed.map(item => [item.functionName, item.explanation]))]:
    a later entry replaces an earlier one with the same name. *)
Definition mapOfEntries (entries : list (string * string))
    : gmap string string :=
  foldl (fun m fe => <[fe.1 := fe.2]> m) ∅ entries.

(** [parsedByName.get(fn.functionName) || FALLBACK]. *)
Definition explanationText (parsedByName : gmap string string)
    (fn : PythonFunctionBlock) : string :=
  match parsedByName !! functionName fn with
  | Some e => if truthy e then e else FALLBACK
  | None => FALLBACK
  end.

Definition entryLine (fn : PythonFunctionBlock) (text : string) : string :=
  "<b>" +:+ functionName fn +:+ ":</b> " +:+ text.

(** The updater of the [try] branch. *)
Definition mergeParsed (parsed : list (string * string))
    (batch : list PythonFunctionBlock) (prev : string) : string :=
  let parsedByName := mapOfEntries parsed in
  let batchLines :=
    (fun fn => entryLine fn (explanationText parsedByName fn)) <$> batch in
  prev +:+ String "010" (join_nl batchLines).

(** The updater of the [catch] branch. *)
Definition mergeFallback (batch : list PythonFunctionBlock)
    (prev : string) : string :=
  let batchLines := (fun fn => entryLine fn FALLBACK) <$> batch in
  prev +:+ String "010" (join_nl batchLines).

Definition concatStrings (l : list string) : string :=
  foldr String.append "" l.

(** The panel state an analysis run touches. *)
Record PanelState := {
  analysisRunRef : nat;
  explanation : string;
  isAnalyzing : bool;
  lastGeminiResponse : string
}.

(** The locals of one call of [analyzeCode] while it is suspended at
    [await model.generateContent(prompt)] for the batch at [run_i]. *)
Record Run := {
  runId : nat;
  run_mode : AIPanelMode;
  run_name : string;
  extractedFunctions : list PythonFunctionBlock;
  run_i : nat
}.

(** How the awaited request ends: the call is rejected, or a response
    arrives with its text. *)
Inductive Reply :=
| CallFails
| ReplyText (text : string).

Definition currentBatch (r : Run) : list PythonFunctionBlock :=
  slice (run_i r) (run_i r + batchSize) (extractedFunctions r).

Definition setExplanation (st : PanelState) (f : string -> string)
    : PanelState :=
  {| analysisRunRef := analysisRunRef st;
     explanation := f (explanation st);
     isAnalyzing := isAnalyzing st;
     lastGeminiResponse := lastGeminiResponse st |}.

Definition setIsAnalyzing (st : PanelState) (b : bool) : PanelState :=
  {| analysisRunRef := analysisRunRef st;
     explanation := explanation st;
     isAnalyzing := b;
     lastGeminiResponse := lastGeminiResponse st |}.

Definition setLastGeminiResponse (st : PanelState) (f : string -> string)
    : PanelState :=
  {| analysisRunRef := analysisRunRef st;
     explanation := explanation st;
     isAnalyzing := isAnalyzing st;
     lastGeminiResponse := f (lastGeminiResponse st) |}.

Definition withRunRef (st : PanelState) (n : nat) : PanelState :=
  {| analysisRunRef := n;
     explanation := explanation st;
     isAnalyzing := isAnalyzing st;
     lastGeminiResponse := lastGeminiResponse st |}.

(** The head of the [for] loop with the code after it: with a batch
    left, a superseded run returns and a current one sends the batch
    and suspends; with none left, a current run clears the busy flag. *)
Definition loopHead (st : PanelState) (r : Run) : PanelState * option Run :=
  if (run_i r <? length (extractedFunctions r))%nat then
    if negb (analysisRunRef st =? runId r)%nat then (st, None)
    else (st, Some r)
  else if (analysisRunRef st =? runId r)%nat then
    (setIsAnalyzing st false, None)
  else (st, None).

Section WithRuntime.

(** [JSON.parse] of the JavaScript runtime; [None] when it throws. *)
Variable JSON_parse : string -> option json.

(** [parseJsonFromModelText]; [None] when it throws. *)
Definition parseJsonFromModelText (text : string)
    : option (list (string * string)) :=
  match JSON_parse (cleanModelText text) with
  | None => None
  | Some parsed =>
      let asArray :=
        match parsed with JArr items => items | _ => [parsed] end in
      validItems asArray
  end.

(** The body of the [try]/[catch] once the awaited request is over. *)
Definition mergeReply (st : PanelState) (batch : list PythonFunctionBlock)
    (reply : Reply) : PanelState :=
  match reply with
  | CallFails => setExplanation st (mergeFallback batch)
  | ReplyText text =>
      let st1 :=
        setLastGeminiResponse st (fun prev =>
          if truthy prev
          then prev +:+ String "010" (String "010" (trim text))
          else trim text) in
      match parseJsonFromModelText text with
      | Some parsed => setExplanation st1 (mergeParsed parsed batch)
      | None => setExplanation st1 (mergeFallback batch)
      end
  end.

(** [analyzeCode] from the point where the awaited request of run [r]
    is over, up to its next suspension or its end. *)
Definition resumeRun (st : PanelState) (r : Run) (reply : Reply)
    : PanelState * option Run :=
  let st1 := mergeReply st (currentBatch r) reply in
  loopHead st1
    {| runId := runId r; run_mode := run_mode r; run_name := run_name r;
       extractedFunctions := extractedFunctions r;
       run_i := run_i r + batchSize |}.

(** [analyzeCode(codeContent, name)] up to its first suspension.
    [hasKey] tells whether [VITE_GEMINI_API_KEY] is set; without it
    [getModel] throws and the call ends there. *)
Definition analyzeCode (hasKey : bool) (mode : AIPanelMode)
    (st : PanelState) (codeContent name : string)
    : PanelState * option Run :=
  let runId_ := (analysisRunRef st + 1)%nat in
  let st1 :=
    {| analysisRunRef := runId_; explanation := "";
       isAnalyzing := true; lastGeminiResponse := "" |} in
  let extracted := extractPythonFunctions codeContent in
  if (length extracted =? 0)%nat then
    (setIsAnalyzing
       (setExplanation st1
          (fun _ => "No Python functions found for analysis.")) false,
     None)
  else
    let st2 :=
      setExplanation st1 (fun _ =>
        "Analyzing function(s) in batch(es) using "
        +:+ match mode with teacher => "Code Buddy" | _ => "Reviewer" end
        +:+ " mode...") in
    if hasKey then
      loopHead st2
        {| runId := runId_; run_mode := mode; run_name := name;
           extractedFunctions := extracted; run_i := 0 |}
    else (st2, None).

(** The text shown for unit [fn] of a batch whose request ended
    with [reply]. *)
Definition entryText (reply : Reply) (fn : PythonFunctionBlock)
    : string :=
  match reply with
  | CallFails => FALLBACK
  | ReplyText text =>
      match parseJsonFromModelText text with
      | Some parsed => explanationText (mapOfEntries parsed) fn
      | None => FALLBACK
      end
  end.

(** One line per unit of the batch, each after a line feed. *)
Definition unitLines (batch : list PythonFunctionBlock) (reply : Reply)
    : string :=
  concatStrings
    ((fun fn => String "010" (entryLine fn (entryText reply fn)))
       <$> batch).

(** What can happen to the panel between two renders. *)
Inductive Event :=
| TimerFires (codeContent name : string)
    (* the debounce timer calls [analyzeCode(code, fileName)] *)
| EffectCleanup
    (* the effect's cleanup: [analysisRunRef.current += 1] *)
| RequestEnds (id : nat) (reply : Reply).
    (* the outstanding request of run [id] is over *)

(** The panel with the calls of [analyzeCode] that are suspended. *)
Record System := {
  panel : PanelState;
  suspended : list Run
}.

Fixpoint takeRun (id : nat) (rs : list Run) : option (Run * list Run) :=
  match rs with
  | [] => None
  | r :: rest =>
      if (runId r =? id)%nat then Some (r, rest)
      else match takeRun id rest with
           | Some (r', rest') => Some (r', r :: rest')
           | None => None
           end
  end.

Definition step (hasKey : bool) (mode : AIPanelMode) (sys : System)
    (ev : Event) : System :=
  match ev with
  | TimerFires codeContent name =>
      let '(st, r) := analyzeCode hasKey mode (panel sys) codeContent name in
      {| panel := st; suspended := suspended sys ++ option_list r |}
  | EffectCleanup =>
      {| panel := withRunRef (panel sys) (analysisRunRef (panel sys) + 1);
         suspended := suspended sys |}
  | RequestEnds id reply =>
      match takeRun id (suspended sys) with
      | None => sys
      | Some (r, rest) =>
          let '(st, r') := resumeRun (panel sys) r reply in
          {| panel := st; suspended := rest ++ option_list r' |}
      end
  end.

Definition steps (hasKey : bool) (mode : AIPanelMode) (sys : System)
    (evs : list Event) : System :=
  foldl (step hasKey mode) sys evs.

(** One run fed the replies to its batches, with nothing else
    happening in between. *)
Fixpoint feedReplies (st : PanelState) (r : option Run)
    (replies : list Reply) : PanelState * option Run :=
  match r, replies with
  | Some run, reply :: rest =>
      let '(st1, r1) := resumeRun st run reply in
      feedReplies st1 r1 rest
  | _, _ => (st, r)
  end.

End WithRuntime.

End AnalysisRun.

Import AnalysisRun.

(** ** The voice session of the panel *)

Module VoiceSession.

Inductive RubberDuckyStatus := idle | listening | processing | speaking.

Inductive Role := role_user | role_model.

Record ConversationMessage := {
  role : Role;
  content : string
}.

Definition RUBBER_DUCKY_EXIT_PHRASES : list string :=
  ["stop"; "done"; "end session"; "that's all"; "we're done"].

Definition MISSING_KEY_REPLY : string :=
  "Set VITE_GEMINI_API_KEY to use Rubber Ducky.".

(** The state and refs of the panel that the voice session uses. *)
Record VoiceState := {
  sessionActive : bool;
  conversationHistory : list ConversationMessage;
  rubberDuckyStatus : RubberDuckyStatus;
  voiceTranscript : string;
  rubberDuckyContext : option (string * string);
  pendingTranscriptProcess : bool
}.

(** The model turn [processRubberDuckyTranscript] asks for:
    [model.startChat({ history })] and [chat.sendMessage(trimmed)]. *)
Record ModelTurn := {
  turn_history : list ConversationMessage;
  turn_message : string
}.

(** [endRubberDuckySession()]. *)
Definition endRubberDuckySession (st : VoiceState) : VoiceState :=
  {| sessionActive := false;
     conversationHistory := [];
     rubberDuckyStatus := idle;
     voiceTranscript := "";
     rubberDuckyContext := None;
     pendingTranscriptProcess := false |}.

Definition setRubberDuckyStatus (st : VoiceState) (s : RubberDuckyStatus)
    : VoiceState :=
  {| sessionActive := sessionActive st;
     conversationHistory := conversationHistory st;
     rubberDuckyStatus := s;
     voiceTranscript := voiceTranscript st;
     rubberDuckyContext := rubberDuckyContext st;
     pendingTranscriptProcess := pendingTranscriptProcess st |}.

Definition appendMessage (st : VoiceState) (m : ConversationMessage)
    : VoiceState :=
  {| sessionActive := sessionActive st;
     conversationHistory := conversationHistory st ++ [m];
     rubberDuckyStatus := rubberDuckyStatus st;
     voiceTranscript := voiceTranscript st;
     rubberDuckyContext := rubberDuckyContext st;
     pendingTranscriptProcess := pendingTranscriptProcess st |}.

Definition clearPending (st : VoiceState) : VoiceState :=
  {| sessionActive := sessionActive st;
     conversationHistory := conversationHistory st;
     rubberDuckyStatus := rubberDuckyStatus st;
     voiceTranscript := voiceTranscript st;
     rubberDuckyContext := rubberDuckyContext st;
     pendingTranscriptProcess := false |}.

(** [RUBBER_DUCKY_EXIT_PHRASES.some(p => trimmed.toLowerCase().includes(p))] *)
Definition shouldExit (trimmed : string) : bool :=
  existsb (fun p => includes (toLowerCase trimmed) p)
    RUBBER_DUCKY_EXIT_PHRASES.

(** [processRubberDuckyTranscript(userText)] up to the point where it
    awaits the model: the next state, and the model turn it asks for if
    it gets that far.  [hasKey] tells whether [VITE_GEMINI_API_KEY] is
    set. *)
Definition processRubberDuckyTranscript (hasKey : bool) (st : VoiceState)
    (userText : string) : VoiceState * option ModelTurn :=
  let trimmed := trim userText in
  if negb (truthy trimmed) then (st, None)
  else if shouldExit trimmed then (endRubberDuckySession st, None)
  else
    let st1 :=
      setRubberDuckyStatus
        (appendMessage st {| role := role_user; content := trimmed |})
        processing in
    if negb hasKey then
      (setRubberDuckyStatus
         (appendMessage st1
            {| role := role_model; content := MISSING_KEY_REPLY |})
         idle,
       None)
    else
      (st1,
       Some {| turn_history := conversationHistory st;
               turn_message := trimmed |}).

(** The finalized transcript:
    [transcript.trim() || voiceTranscript.trim()]. *)
Definition textToProcess (transcript : string) (st : VoiceState) : string :=
  if truthy (trim transcript) then trim transcript
  else trim (voiceTranscript st).

(** The effect that runs when capture has stopped: it hands the
    finalized transcript to [processRubberDuckyTranscript], or returns
    to idle when there is none.  [voiceMode] is [mode === "voice"]. *)
Definition transcriptEffect (hasKey : bool) (isListening voiceMode : bool)
    (transcript : string) (st : VoiceState)
    : VoiceState * option ModelTurn :=
  if negb isListening && pendingTranscriptProcess st
     && sessionActive st && voiceMode
  then
    let st1 := clearPending st in
    if truthy (textToProcess transcript st)
    then processRubberDuckyTranscript hasKey st1 (textToProcess transcript st)
    else (setRubberDuckyStatus st1 idle, None)
  else (st, None).

End VoiceSession.

Import VoiceSession.

(** ** The vibe-edit applier of the panel *)

Module VibeEdit.

(** What [JSON.parse] or [response.json()] ends with. *)
Inductive Parsed :=
| ParseOk (v : json)
| ParseThrows (message : string).

(** How the awaited [fetch] ends: rejected with an error, or resolved
    with a response, of which the code reads [ok], [status] and
    [json()]. *)
Inductive FetchOutcome :=
| FetchRejects (message : string)
| FetchResolves (ok : bool) (status : Z) (body : Parsed).

(** The calls the task makes on the panel and on its owner. *)
Inductive Call :=
| SetIsAnalyzing (b : bool)
| SetStatusMessage (s : string)
| ApplyActiveFileChange (newCode : string).

(** How a block of statements ends. *)
Inductive Completion :=
| Normal
| Return
| Throw (message : string).

Definition MISSING_KEY_STATUS : string :=
  "Set VITE_OPENAI_API_KEY to use Vibe Coder.".
Definition GENERIC_FAILURE_STATUS : string :=
  "Failed to apply edits. Try refining the prompt.".
Definition NO_EDIT_STATUS : string :=
  "Agent returned no applicable edit.".

(** How the [try] block can end without having applied an edit: by a
    throw, or by the early return after the no-edit status. *)
Definition ends_without_edit (res : list Call * Completion) : Prop :=
  (exists message, res = ([], Throw message))
  \/ res = ([SetStatusMessage NO_EDIT_STATUS], Return).

(** Removing every match of the opening fence pattern (three
    backquotes, [json], then any white space); the search goes on
    right after each match. *)
Fixpoint dropJsonFences (s : string) {struct s} : string :=
  let fix afterFence (t : string) {struct t} : string :=
    match t with
    | String c t' => if is_space c then afterFence t' else dropJsonFences t
    | EmptyString => EmptyString
    end in
  match s with
  | String "`" (String "`" (String "`"
      (String "j" (String "s" (String "o" (String "n" rest)))))) =>
      afterFence rest
  | String c s' => String c (dropJsonFences s')
  | EmptyString => EmptyString
  end.

(** Removing every run of three backquotes. *)
Fixpoint dropFences (s : string) : string :=
  match s with
  | String "`" (String "`" (String "`" rest)) => dropFences rest
  | String c s' => String c (dropFences s')
  | EmptyString => EmptyString
  end.

Definition cleanVibeText (raw : string) : string :=
  trim (dropFences (dropJsonFences raw)).

(** The decimal digits of an HTTP status. *)
Definition decimal (n : Z) : string :=
  DecimalString.NilZero.string_of_int (Z.to_int n).

(** [completionJson.choices?.[0]?.message?.content], when it is a
    string. *)
Definition rawContent (completionJson : json) : option string :=
  as_string
    (opt_chain
       (opt_chain
          (opt_chain (prop completionJson "choices") first)
          (fun v => prop v "message"))
       (fun v => prop v "content")).

Section WithRuntime.

(** [JSON.parse] of the runtime. *)
Variable JSON_parse : string -> Parsed.
(** The message of the [TypeError] for reading a field of [null]. *)
Variable nullReadMessage : string -> string.
(** The string a value turns into inside a template literal. *)
Variable toDisplay : json -> string.

(** The statements of the [try] block after the response has its
    JSON body. *)
Definition applyCompletion (fileName : string) (completionJson : json)
    : list Call * Completion :=
  match completionJson with
  | JNull => ([], Throw (nullReadMessage "choices"))
  | _ =>
      match rawContent completionJson with
      | None => ([], Throw "OpenAI returned an empty response.")
      | Some rawText =>
          if negb (truthy (trim rawText)) then
            ([], Throw "OpenAI returned an empty response.")
          else
            match JSON_parse (cleanVibeText rawText) with
            | ParseThrows message => ([], Throw message)
            | ParseOk JNull =>
                ([], Throw (nullReadMessage "updatedContent"))
            | ParseOk parsed =>
                match prop parsed "updatedContent" with
                | Some (JStr updatedContent) =>
                    if truthy updatedContent then
                      ([ApplyActiveFileChange updatedContent;
                        SetStatusMessage
                          match prop parsed "summary" with
                          | Some summary =>
                              if falsy summary
                              then "Applied update to " +:+ fileName +:+ "."
                              else toDisplay summary +:+ " (updated "
                                   +:+ fileName +:+ ")"
                          | None =>
                              "Applied update to " +:+ fileName +:+ "."
                          end],
                       Normal)
                    else ([SetStatusMessage NO_EDIT_STATUS], Return)
                | _ => ([SetStatusMessage NO_EDIT_STATUS], Return)
                end
            end
      end
  end.

(** The [try] block. *)
Definition tryBlock (apiKey : option string) (fileName : string)
    (net : FetchOutcome) : list Call * Completion :=
  if negb (truthy (default "" apiKey)) then
    ([], Throw "Missing VITE_OPENAI_API_KEY in environment.")
  else
    match net with
    | FetchRejects message => ([], Throw message)
    | FetchResolves ok status body =>
        if negb ok then
          ([], Throw ("OpenAI request failed with status "
                      +:+ decimal status))
        else
          match body with
          | ParseThrows message => ([], Throw message)
          | ParseOk completionJson =>
              applyCompletion fileName completionJson
          end
    end.

(** The [catch] block. *)
Definition catchBlock (message : string) : list Call :=
  if includes message "VITE_OPENAI_API_KEY"
  then [SetStatusMessage MISSING_KEY_STATUS]
  else [SetStatusMessage GENERIC_FAILURE_STATUS].

(** [runVibeTask(promptOverride)]: the calls it makes, in order.
    [apiKey] is [import.meta.env.VITE_OPENAI_API_KEY]; [net] is the
    outcome of the request, read only if the request is sent. *)
Definition runVibeTask (apiKey : option string)
    (fileName code vibePrompt : string) (promptOverride : option string)
    (net : FetchOutcome) : list Call :=
  if negb (truthy fileName) || negb (truthy code) then
    [SetStatusMessage "No active file content available."]
  else
    let taskPrompt := trim (default vibePrompt promptOverride) in
    if negb (truthy taskPrompt) then
      [SetStatusMessage "Enter a task prompt first."]
    else
      let '(calls, completion) := tryBlock apiKey fileName net in
      [SetIsAnalyzing true; SetStatusMessage "Generating edits..."]
      ++ calls
      ++ match completion with
         | Throw message => catchBlock message
         | _ => []
         end
      ++ [SetIsAnalyzing false].

(** The ways a vibe-edit request fails. *)
Inductive VibeFailure (apiKey : option string) : FetchOutcome -> Prop :=
| MissingCredential net :
    truthy (default "" apiKey) = false -> VibeFailure apiKey net
| TransportError message :
    VibeFailure apiKey (FetchRejects message)
| HttpNotOk status body :
    VibeFailure apiKey (FetchResolves false status body)
| BodyNotJson status message :
    VibeFailure apiKey (FetchResolves true status (ParseThrows message))
| EmptyResponse status completionJson :
    (rawContent completionJson = None
     \/ exists raw, rawContent completionJson = Some raw
                    /\ truthy (trim raw) = false) ->
    VibeFailure apiKey (FetchResolves true status (ParseOk completionJson))
| MalformedJson status completionJson raw message :
    rawContent completionJson = Some raw ->
    JSON_parse (cleanVibeText raw) = ParseThrows message ->
    VibeFailure apiKey (FetchResolves true status (ParseOk completionJson))
| MissingField status completionJson raw parsed :
    rawContent completionJson = Some raw ->
    JSON_parse (cleanVibeText raw) = ParseOk parsed ->
    (forall c, prop parsed "updatedContent" = Some (JStr c) -> c = "") ->
    VibeFailure apiKey (FetchResolves true status (ParseOk completionJson)).

End WithRuntime.



End VibeEdit.

Import VibeEdit.

(** ** Sample inputs *)

Module Samples.

(** [s] between double quotes. *)
Definition quoted (s : string) : string :=
  String "034" (s +:+ String "034" "").

(** The response text [[{"functionName":"f","explanation":""}]]: one
    entry, for [f], whose explanation is the empty string. *)
Definition emptyExplanationResponse : string :=
  "[{" +:+ quoted "functionName" +:+ ":" +:+ quoted "f" +:+ ","
  +:+ quoted "explanation" +:+ ":" +:+ quoted "" +:+ "}]".

(** [JSON.parse] on that text; any other text is taken as malformed. *)
Definition parseEmptyExplanation (s : string) : option json :=
  if String.eqb s emptyExplanationResponse then
    Some (JArr [JObj [("functionName", JStr "f");
                      ("explanation", JStr "")]])
  else None.

(** Two one-function files. *)
Definition codeF : string := "def f():
  pass".
Definition codeG : string := "def g():
  pass".

Definition unitF : PythonFunctionBlock :=
  {| functionName := "f"; source := codeF |}.
Definition unitG : PythonFunctionBlock :=
  {| functionName := "g"; source := codeG |}.

(** The panel before any analysis. *)
Definition initialPanel : PanelState :=
  {| analysisRunRef := 0; explanation := "";
     isAnalyzing := false; lastGeminiResponse := "" |}.

Definition HEADER : string :=
  "Analyzing function(s) in batch(es) using Code Buddy mode...".

(** A second analysis starts while the request of the first is out. *)
Definition overlappingRuns : list Event :=
  [TimerFires codeF "a.py"; EffectCleanup; TimerFires codeG "a.py"].

End Samples.

Import Samples.

(** ** Line edits, for stating what the diff counts *)

Module LineEdits.

(** The text has no line feed, so it is a single line. *)
Fixpoint lf_free (s : string) : bool :=
  match s with
  | EmptyString => true
  | String c s' => negb (Ascii.eqb c "010") && lf_free s'
  end.

(** The worded diff on two lists of lines. *)
Definition magnitude_lines (b a : list string) : nat :=
  let p := commonPrefixLength b a in
  let b1 := drop p b in
  let a1 := drop p a in
  let s := commonSuffixLength b1 a1 in
  Nat.max (length (take (length b1 - s) b1))
          (length (take (length a1 - s) a1)).

End LineEdits.

Import LineEdits.

(** ** The rest of the edit trigger: file switches and applied edits *)

Module Workspace.

(** [App]'s state around the edit trigger: the state of [EditTrigger]
    with the ref [previousAiFileRef] and the state [selectedCode]. *)
Record Workspace := {
  app : AppState;
  previousAiFile : string;
  selectedCode : string
}.

(** The member names a plain object inherits from [Object.prototype]. *)
Definition OBJECT_PROTOTYPE_NAMES : list string :=
  ["constructor"; "hasOwnProperty"; "isPrototypeOf";
   "propertyIsEnumerable"; "toLocaleString"; "toString"; "valueOf";
   "__proto__"; "__defineGetter__"; "__defineSetter__";
   "__lookupGetter__"; "__lookupSetter__"].

Definition inherited (k : string) : bool :=
  existsb (String.eqb k) OBJECT_PROTOTYPE_NAMES.

(** [filesContent[k] || ""] where it is a string: the entry of [k] if
    the object has one of its own, the empty text if the lookup gives
    [undefined].  For a name without an entry that the object inherits
    from [Object.prototype] the lookup gives a function or an object,
    not a string: [None]. *)
Definition contentOrEmpty (filesContent : gmap string string) (k : string)
    : option string :=
  match filesContent !! k with
  | Some s => Some s
  | None => if inherited k then None else Some ""
  end.

(** [ref[k] = v] on a plain object, for a number [v]: an own entry is
    created or replaced, except for [__proto__], whose setter ignores a
    value that is not an object. *)
Definition refWrite (ref : gmap string Z) (k : string) (v : Z)
    : gmap string Z :=
  if String.eqb k "__proto__" then ref else <[k := v]> ref.

(** The effect on [[currentFile, filesContent]]: when the active file is
    not the one the panel was seeded from, seed the panel from it.
    [None] when the snapshot it sets is not a string. *)
Definition fileSwitchEffect (w : Workspace) : option Workspace :=
  let st := app w in
  if negb (String.eqb (previousAiFile w) (currentFile st)) then
    match contentOrEmpty (filesContent st) (currentFile st) with
    | Some snapshot =>
        Some
          {| app :=
               {| filesContent := filesContent st;
                  currentFile := currentFile st;
                  aiPanelCode := snapshot;
                  pendingAiLineChanges :=
                    refWrite (pendingAiLineChanges st) (currentFile st) 0 |};
             previousAiFile := currentFile st;
             selectedCode := "" |}
    | None => None
    end
  else Some w.

(** [setCurrentFile(name)], as the sidebar calls it, and the effect that
    the next render runs. *)
Definition selectFile (w : Workspace) (name : string) : option Workspace :=
  fileSwitchEffect
    {| app :=
         {| filesContent := filesContent (app w);
            currentFile := name;
            aiPanelCode := aiPanelCode (app w);
            pendingAiLineChanges := pendingAiLineChanges (app w) |};
       previousAiFile := previousAiFile w;
       selectedCode := selectedCode w |}.

(** [handleApplyAIChangeToActiveFile(newCode)] of [App.tsx]: the update
    is dropped when there is no active file or the active file has no
    entry in [filesContent]. *)
Definition handleApplyAIChangeToActiveFile (st : AppState)
    (newCode : string) : AppState :=
  if negb (truthy (currentFile st))
     || negb (bool_decide (is_Some (filesContent st !! currentFile st)))
  then st
  else
    {| filesContent := <[currentFile st := newCode]> (filesContent st);
       currentFile := currentFile st;
       aiPanelCode := aiPanelCode st;
       pendingAiLineChanges := pendingAiLineChanges st |}.

(** The later version of the same handler, which first sets the panel
    snapshot and clears the pending count of the active file. *)
Definition handleApplyAIChangeToActiveFile_synced (st : AppState)
    (newCode : string) : AppState :=
  let st1 :=
    {| filesContent := filesContent st;
       currentFile := currentFile st;
       aiPanelCode := newCode;
       pendingAiLineChanges :=
         refWrite (pendingAiLineChanges st) (currentFile st) 0 |} in
  if negb (truthy (currentFile st1))
     || negb (bool_decide (is_Some (filesContent st1 !! currentFile st1)))
  then st1
  else
    {| filesContent := <[currentFile st1 := newCode]> (filesContent st1);
       currentFile := currentFile st1;
       aiPanelCode := aiPanelCode st1;
       pendingAiLineChanges := pendingAiLineChanges st1 |}.

(** Every pending count is at least 0 and below the threshold. *)
Definition pendingBounded (st : AppState) : Prop :=
  forall f n, pendingAiLineChanges st !! f = Some n ->
              0 <= n < AI_REFRESH_LINE_THRESHOLD.

End Workspace.

Import Workspace.

(** ** Character tests on whole strings *)

Module StringTests.

(** Every character of [s] passes [p]. *)
Fixpoint all_chars (p : ascii -> bool) (s : string) : bool :=
  match s with
  | EmptyString => true
  | String c s' => p c && all_chars p s'
  end.

(** A name as the [def] pattern captures it: a letter or underscore,
    then letters, digits and underscores. *)
Definition is_identifier (s : string) : bool :=
  match s with
  | EmptyString => false
  | String c w => is_ident_start c && all_chars is_word w
  end.

End StringTests.

Import StringTests.

(** ** Invariants of the analysis runs *)

Module RunInvariants.

(** The suspended runs have pairwise different ids, none above the
    counter, and each waits for a batch that exists. *)
Definition wellFormed (sys : System) : Prop :=
  NoDup (runId <$> suspended sys)
  /\ Forall (fun r =>
       (runId r <= analysisRunRef (panel sys))%nat
       /\ (run_i r < length (extractedFunctions r))%nat)
     (suspended sys).

(** The batches whose requests a run sends while it is fed [replies],
    nothing else happening in between: the batch it waits for, then the
    batch it sends after each reply that lets it go on. *)
Fixpoint sentBatches (JSON_parse : string -> option json)
    (st : PanelState) (r : option Run) (replies : list Reply)
    : list (list PythonFunctionBlock) :=
  match r with
  | None => []
  | Some run =>
      currentBatch run
      :: match replies with
         | [] => []
         | reply :: rest =>
             let '(st1, r1) := resumeRun JSON_parse st run reply in
             sentBatches JSON_parse st1 r1 rest
         end
  end.


End RunInvariants.

Import RunInvariants.

(** ** Sample responses for the shape check *)

Module ShapeSamples.

(** A runtime whose [JSON.parse] yields [v]. *)
Definition answering (v : json) : string -> option json :=
  fun _ => Some v.

(** A response whose second item has no [explanation]. *)
Definition itemWithoutExplanation : json :=
  JArr [JObj [("functionName", JStr "f");
              ("explanation", JStr "adds two numbers")];
        JObj [("functionName", JStr "g")]].

(** A response with two entries for [f]. *)
Definition twoEntriesForF : json :=
  JArr [JObj [("functionName", JStr "f"); ("explanation", JStr "first")];
        JObj [("functionName", JStr "f"); ("explanation", JStr "second")]].

End ShapeSamples.

Import ShapeSamples.

(** ** Sample responses for the vibe task *)

Module VibeSamples.

(** The body of a successful chat completion whose message content is
    [raw]. *)
Definition completionWith (raw : string) : json :=
  JObj [("choices",
         JArr [JObj [("message", JObj [("content", JStr raw)])]])].

(** A runtime whose [JSON.parse] yields an object with the given
    [updatedContent] and no [summary]. *)
Definition parsesToUpdate (updatedContent : string) : string -> Parsed :=
  fun _ => ParseOk (JObj [("updatedContent", JStr updatedContent)]).

End VibeSamples.

Import VibeSamples.

(** ** Running the reviewer's response as a vibe task *)

Module ReviewerVibe.

(** The rest of [t] after its first [>], if it has one. *)
Fixpoint afterClose (t : string) : option string :=
  match t with
  | String c t' => if Ascii.eqb c ">" then Some t' else afterClose t'
  | EmptyString => None
  end.

(** Removing every match of the tag pattern: a [<], then characters
    other than [>], then a [>].  A [<] with no [>] after it stays. *)
Fixpoint stripTags (s : string) {struct s} : string :=
  let fix closeTag (t : string) {struct t} : option string :=
    match t with
    | String c t' =>
        if Ascii.eqb c ">" then Some (stripTags t') else closeTag t'
    | EmptyString => None
    end in
  match s with
  | String c s' =>
      if Ascii.eqb c "<" then
        match closeTag s' with
        | Some r => r
        | None => String c (stripTags s')
        end
      else String c (stripTags s')
  | EmptyString => EmptyString
  end.

(** [promptFromReviewer]: the cleaned last response or, when that is
    empty, the cleaned panel text without its markup. *)
Definition promptFromReviewer (lastGeminiResponse explanation : string)
    : string :=
  if truthy (cleanVibeText lastGeminiResponse)
  then cleanVibeText lastGeminiResponse
  else trim (stripTags (dropFences (dropJsonFences explanation))).

(** The calls of [handleReviewerVibe]: its own, and those of the task
    it starts. *)
Inductive PanelCall :=
| SetVibePrompt (p : string)
| SetMode (m : AIPanelMode)
| TaskCall (c : Call).

Definition NO_REVIEW_STATUS : string :=
  "No reviewer response available to run as a Vibe task.".

Section WithRuntime.

Variable JSON_parse : string -> Parsed.
Variable nullReadMessage : string -> string.
Variable toDisplay : json -> string.

(** [handleReviewerVibe()]. *)
Definition handleReviewerVibe (apiKey : option string)
    (fileName code vibePrompt lastGeminiResponse explanation : string)
    (net : FetchOutcome) : list PanelCall :=
  let p := promptFromReviewer lastGeminiResponse explanation in
  if negb (truthy p) then [TaskCall (SetStatusMessage NO_REVIEW_STATUS)]
  else
    SetVibePrompt p :: SetMode vibe
    :: (TaskCall
          <$> runVibeTask JSON_parse nullReadMessage toDisplay
                apiKey fileName code vibePrompt (Some p) net).

End WithRuntime.

End ReviewerVibe.

Import ReviewerVibe.

(** ** The file tree of [App.tsx] *)

Module FileTree.

#[local] Set Warnings "-register-all".

Inductive NodeType := file | folder.

(** A [FileNode] as [App.tsx] builds and reads it: [children] and
    [isOpen] may be missing.  The fields [id], [name] and [type] are
    [node_id], [node_name] and [node_type] here. *)
Inductive FileNode :=
| Node (node_id node_name : string) (node_type : NodeType)
    (children : option (list FileNode)) (isOpen : option bool).

Definition node_id (n : FileNode) : string :=
  match n with Node i _ _ _ _ => i end.
Definition node_name (n : FileNode) : string :=
  match n with Node _ m _ _ _ => m end.
Definition node_type (n : FileNode) : NodeType :=
  match n with Node _ _ t _ _ => t end.
Definition children (n : FileNode) : option (list FileNode) :=
  match n with Node _ _ _ cs _ => cs end.
Definition isOpen (n : FileNode) : option bool :=
  match n with Node _ _ _ _ o => o end.

Definition NodeType_eqb (a b : NodeType) : bool :=
  match a, b with
  | file, file | folder, folder => true
  | _, _ => false
  end.

(** The callback of [toggle]'s [map]: a node with the id gets
    [isOpen: !node.isOpen]; any other node with children has them
    mapped. *)
Fixpoint toggleNode (id : string) (node : FileNode) : FileNode :=
  match node with
  | Node i m t cs o =>
      if String.eqb i id then Node i m t cs (Some (negb (default false o)))
      else match cs with
           | Some l => Node i m t (Some (map (toggleNode id) l)) o
           | None => node
           end
  end.

(** [handleToggleFolder(id)] on the tree. *)
Definition handleToggleFolder (id : string) (filesTree : list FileNode)
    : list FileNode :=
  map (toggleNode id) filesTree.



(** The callback of [insertNode]'s [map]: a node with the parent id
    gets the new node as its last child and is opened; any other node
    with children has them mapped. *)
Fixpoint insertInto (parentId : string) (newNode : FileNode)
    (node : FileNode) : FileNode :=
  match node with
  | Node i m t cs o =>
      if String.eqb i parentId
      then Node i m t (Some (default [] cs ++ [newNode])) (Some true)
      else match cs with
           | Some l => Node i m t (Some (map (insertInto parentId newNode) l)) o
           | None => node
           end
  end.

Definition NEW_FILE_CONTENT : string := "// New file created".

(** The tree, the file contents and the active file. *)
Record Explorer := {
  filesTree : list FileNode;
  contents : gmap string string;
  activeFile : string
}.

(** [handleCreateNode(type, parentId, name)]; [newId] is what
    [generateId()] returns, [parentId = None] is [undefined]. *)
Definition handleCreateNode (newId : string) (type : NodeType)
    (parentId : option string) (name : string) (e : Explorer) : Explorer :=
  if negb (truthy name) then e
  else
    let newNode :=
      Node newId name type
        match type with folder => Some [] | file => None end
        (Some true) in
    let contents' :=
      match type with
      | file => <[name := NEW_FILE_CONTENT]> (contents e)
      | folder => contents e
      end in
    let activeFile' :=
      match type with file => name | folder => activeFile e end in
    let atRoot :=
      match parentId with
      | Some p => String.eqb p "root-folder" || negb (truthy p)
      | None => true
      end in
    let filesTree' :=
      if atRoot then
        match filesTree e with
        | Node i m t (Some l) o :: rest =>
            Node i m t (Some (l ++ [newNode])) o :: rest
        | tree => tree
        end
      else map (insertInto (default "" parentId) newNode) (filesTree e) in
    {| filesTree := filesTree';
       contents := contents';
       activeFile := activeFile' |}.

(** The [open_file] action of [handleMenuAction], for a payload with a
    name and a string content. *)
Definition openFile (newId : string) (fileName content : string)
    (e : Explorer) : Explorer :=
  if negb (truthy fileName) then e
  else
    let filesTree' :=
      match filesTree e with
      | [] => []
      | Node i m t cs o :: rest =>
          let alreadyExists :=
            existsb (fun node =>
                       NodeType_eqb (node_type node) file
                       && String.eqb (node_name node) fileName)
              (default [] cs) in
          if alreadyExists then filesTree e
          else
            Node i m t
              (Some (default [] cs ++ [Node newId fileName file None None]))
              (Some true)
            :: rest
      end in
    {| filesTree := filesTree';
       contents := <[fileName := content]> (contents e);
       activeFile := fileName |}.

(** The first result of [f] along a list: a [for] loop that returns
    from inside its body. *)
Fixpoint firstSome {A B} (f : A -> option B) (l : list A) : option B :=
  match l with
  | [] => None
  | x :: l' =>
      match f x with
      | Some r => Some r
      | None => firstSome f l'
      end
  end.

(** One turn of the loop of [findFirstFileName]: what it returns, or
    [None] when the loop goes on. *)
Fixpoint firstFileIn (node : FileNode) : option string :=
  match node with
  | Node i m t cs o =>
      match t with
      | file => Some m
      | folder =>
          match cs with
          | Some l =>
              if (0 <? length l)%nat then
                match firstSome firstFileIn l with
                | Some nested => if truthy nested then Some nested else None
                | None => None
                end
              else None
          | None => None
          end
      end
  end.

(** [findFirstFileName(nodes)]; [None] is [null]. *)
Definition findFirstFileName (nodes : list FileNode) : option string :=
  firstSome firstFileIn nodes.

(** The [open_folder] action, for a payload with a folder name and an
    array of children; [fileContents = None] when the payload has
    none. *)
Definition openFolder (folderName : string) (payloadChildren : list FileNode)
    (fileContents : option (gmap string string)) : Explorer :=
  {| filesTree :=
       [Node "root-folder" folderName folder (Some payloadChildren)
          (Some true)];
     contents := default ∅ fileContents;
     activeFile := default "" (findFirstFileName payloadChildren) |}.

(** The ids of a node and of all nodes below it, the node first. *)
Fixpoint nodeIds (node : FileNode) : list string :=
  match node with
  | Node i _ _ cs _ =>
      i :: match cs with
           | Some l => flat_map nodeIds l
           | None => []
           end
  end.

Definition treeIds (nodes : list FileNode) : list string :=
  flat_map nodeIds nodes.

(** The nodes of a tree, each before the nodes below it. *)
Fixpoint nodesOf (node : FileNode) : list FileNode :=
  match node with
  | Node _ _ _ cs _ =>
      node :: match cs with
              | Some l => flat_map nodesOf l
              | None => []
              end
  end.

Definition treeNodes (nodes : list FileNode) : list FileNode :=
  flat_map nodesOf nodes.

(** Whether each node shows as open, by id, in tree order. *)
Fixpoint nodeOpen (node : FileNode) : list (string * bool) :=
  match node with
  | Node i _ _ cs o =>
      (i, default false o)
      :: match cs with
         | Some l => flat_map nodeOpen l
         | None => []
         end
  end.

Definition treeOpen (nodes : list FileNode) : list (string * bool) :=
  flat_map nodeOpen nodes.

End FileTree.

Import FileTree.

(** ** Reading a tree for the statements about it *)

Module FileTreeViews.

(** The open flag of the entries with the id, flipped. *)
Definition flipOpen (id : string) (p : string * bool) : string * bool :=
  (p.1, if String.eqb p.1 id then negb p.2 else p.2).

(** The file nodes of a tree, in tree order. *)
Definition fileNodes (nodes : list FileNode) : list FileNode :=
  List.filter (fun n => NodeType_eqb (node_type n) file) (treeNodes nodes).

(** Every file node of the tree has a name. *)
Definition filesNamed (nodes : list FileNode) : Prop :=
  Forall (fun n => node_name n <> "") (fileNodes nodes).

(** The file nodes right below the first node of the tree that carry
    the name. *)
Definition rootFilesNamed (fileName : string) (nodes : list FileNode)
    : list FileNode :=
  match nodes with
  | [] => []
  | root :: _ =>
      List.filter
        (fun n => NodeType_eqb (node_type n) file
                  && String.eqb (node_name n) fileName)
        (default [] (children root))
  end.

End FileTreeViews.

Import FileTreeViews.

(** ** The tree [App] starts with *)

Module FileTreeSamples.

Definition fileNode (name : string) : FileNode :=
  Node name name file None None.

(** The children of the root of [initialFilesTree]. *)
Definition initialChildren : list FileNode :=
  [ Node "app" "app" folder
      (Some [ fileNode "__init__.py"; fileNode "main.py";
              fileNode "utils.py";
              Node "services" "services" folder
                (Some [fileNode "data_service.py"]) (Some false) ])
      (Some true);
    Node "tests" "tests" folder (Some [fileNode "test_main.py"])
      (Some false);
    fileNode "requirements.txt";
    fileNode ".gitignore";
    Node "readme.md" "README.md" file None None ].

(** [initialFilesTree]. *)
Definition initialFilesTree : list FileNode :=
  [ Node "root-folder" "python-project" folder (Some initialChildren)
      (Some true) ].

(** The explorer at start, with the content of one file. *)
Definition initialExplorer : Explorer :=
  {| filesTree := initialFilesTree;
     contents := {[ "utils.py" := "def greet(name): pass" ]};
     activeFile := "main.py" |}.

End FileTreeSamples.

Import FileTreeSamples.

(** ** Analysing the selected code *)

Module SnippetAnalysis.

Definition SELECT_HINT : string :=
  "Select some code in the editor, then click the icon to analyze it.".

Definition SNIPPET_HEADER : string :=
  "Analyzing selected code in Code Buddy mode...".

(** A call of [analyzeSelectedSnippet] that is suspended: in the batch
    loop, which is the loop of [analyzeCode] in teacher mode, or at the
    single request for a snippet without functions. *)
Inductive SnippetRun :=
| UnitRun (r : Run)
| PlainRun (runId : nat).

(** [analyzeSelectedSnippet(snippet, name)] up to its first
    suspension. *)
Definition analyzeSelectedSnippet (st : PanelState) (snippet name : string)
    : PanelState * option SnippetRun :=
  if negb (truthy (trim snippet)) then
    (setExplanation st (fun _ => SELECT_HINT), None)
  else
    let runId_ := (analysisRunRef st + 1)%nat in
    let st1 :=
      {| analysisRunRef := runId_; explanation := SNIPPET_HEADER;
         isAnalyzing := true; lastGeminiResponse := "" |} in
    let extracted := extractPythonFunctions snippet in
    if (0 <? length extracted)%nat then
      let '(st2, r) :=
        loopHead st1
          {| runId := runId_; run_mode := teacher;
             run_name := name +:+ " (selected)";
             extractedFunctions := extracted; run_i := 0 |} in
      (st2, UnitRun <$> r)
    else (st1, Some (PlainRun runId_)).

(** The single request of a snippet without functions is over. *)
Definition resumePlain (st : PanelState) (runId_ : nat) (reply : Reply)
    : PanelState :=
  let st1 :=
    match reply with
    | ReplyText text =>
        setExplanation
          (setLastGeminiResponse st (fun _ => trim text))
          (fun _ => "### Selected Code Insight" +:+ String "010" (trim text))
    | CallFails =>
        setExplanation st (fun _ => "Unable to analyze selected code.")
    end in
  if (analysisRunRef st1 =? runId_)%nat then setIsAnalyzing st1 false
  else st1.

End SnippetAnalysis.

Import SnippetAnalysis.

(** ** What the events of a run leave on the panel *)

Module RunOutput.





End RunOutput.

Import RunOutput.

(* ===================================================================== *)
(** * Part II: theorems *)
(* ===================================================================== *)

(** ** Strings and lines *)

Section JsStringFacts.

Lemma append_cons c s t : String c s +:+ t = String c (s +:+ t).
Proof. reflexivity. Qed.

Lemma append_empty_l s : "" +:+ s = s.
Proof. reflexivity. Qed.

Lemma split_nl_nonempty s : split_nl s <> [].
Proof.
  destruct s as [|c s]; simpl; [discriminate|].
  destruct (Ascii.eqb c "010"); [discriminate|].
  destruct (split_nl s); discriminate.
Qed.

Lemma join_nl_cons_char c l ls :
  join_nl (String c l :: ls) = String c (join_nl (l :: ls)).
Proof. destruct ls; reflexivity. Qed.

(** Splitting at line feeds loses nothing: joining gives the text back. *)
Lemma join_split_nl s : join_nl (split_nl s) = s.
Proof.
  induction s as [|c s IH]; simpl; [reflexivity|].
  destruct (Ascii.eqb c "010") eqn:E.
  - apply Ascii.eqb_eq in E. subst c.
    destruct (split_nl s) as [|l ls] eqn:Es.
    + exfalso. exact (split_nl_nonempty s Es).
    + change (join_nl ("" :: l :: ls)) with ("" +:+ String "010" (join_nl (l :: ls))).
      rewrite append_empty_l. now rewrite IH.
  - destruct (split_nl s) as [|l ls] eqn:Es.
    + exfalso. exact (split_nl_nonempty s Es).
    + rewrite join_nl_cons_char. now rewrite IH.
Qed.

Lemma split_nl_inj s t : split_nl s = split_nl t -> s = t.
Proof.
  intros H. rewrite <- (join_split_nl s), <- (join_split_nl t).
  now rewrite H.
Qed.

Lemma append_empty_r s : s +:+ "" = s.
Proof.
  induction s as [|c s IH]; [reflexivity|].
  now rewrite append_cons, IH.
Qed.

Lemma append_assoc s t u : (s +:+ t) +:+ u = s +:+ (t +:+ u).
Proof.
  induction s as [|c s IH]; [reflexivity|].
  now rewrite !append_cons, IH.
Qed.

End JsStringFacts.

(** ** The line diff *)

Section EditDiffFacts.

Implicit Types b a : list string.

Lemma line_at_nat b (k : nat) : line_at b (Z.of_nat k) = b !! k.
Proof.
  unfold line_at. destruct (Z.ltb_spec (Z.of_nat k) 0); [lia|].
  now rewrite Nat2Z.id.
Qed.

Lemma same_line_lookup b a (i j : nat) x y :
  b !! i = Some x -> a !! j = Some y ->
  same_line (b !! i) (a !! j) = String.eqb x y.
Proof. now intros -> ->. Qed.

Lemma commonPrefixLength_nil_r b : commonPrefixLength b [] = O.
Proof. now destruct b. Qed.

Lemma commonPrefixLength_le b a :
  (commonPrefixLength b a <= length b)%nat
  /\ (commonPrefixLength b a <= length a)%nat.
Proof.
  revert a. induction b as [|x b IH]; intros [|y a]; simpl; try lia.
  destruct (String.eqb x y); [|lia].
  destruct (IH a). lia.
Qed.

Lemma commonPrefixLength_comm b a :
  commonPrefixLength b a = commonPrefixLength a b.
Proof.
  revert a. induction b as [|x b IH]; intros [|y a]; simpl; try reflexivity.
  rewrite String.eqb_sym. destruct (String.eqb y x); [|reflexivity].
  now rewrite IH.
Qed.

Lemma commonPrefixLength_refl b : commonPrefixLength b b = length b.
Proof.
  induction b as [|x b IH]; simpl; [reflexivity|].
  now rewrite String.eqb_refl, IH.
Qed.

Lemma commonPrefixLength_take b a :
  take (commonPrefixLength b a) b = take (commonPrefixLength b a) a.
Proof.
  revert a. induction b as [|x b IH]; intros [|y a]; simpl; try reflexivity.
  destruct (String.eqb x y) eqn:E; [|reflexivity].
  apply String.eqb_eq in E. subst y. simpl. now rewrite IH.
Qed.

Lemma commonPrefixLength_full b a :
  commonPrefixLength b a = length b -> length a = length b -> b = a.
Proof.
  intros H1 H2.
  rewrite <- (firstn_all b), <- (firstn_all a), H2, <- H1.
  apply commonPrefixLength_take.
Qed.

(** The first loop computes the length of the common prefix; fuel that
    covers the lines still ahead is enough. *)
Lemma prefixLoop_spec fuel b a (k : nat) :
  (length b - k <= fuel)%nat ->
  prefixLoop fuel b a (Z.of_nat k)
  = Z.of_nat (k + commonPrefixLength (drop k b) (drop k a)).
Proof.
  revert k. induction fuel as [|fuel IH]; intros k Hf; simpl.
  - rewrite drop_ge by lia. simpl. f_equal. lia.
  - unfold len. rewrite !line_at_nat.
    destruct (Z.ltb_spec (Z.of_nat k) (Z.of_nat (length b))) as [Hb|Hb];
      simpl.
    2:{ rewrite drop_ge by lia. simpl. f_equal. lia. }
    destruct (Z.ltb_spec (Z.of_nat k) (Z.of_nat (length a))) as [Ha|Ha];
      simpl.
    2:{ rewrite (drop_ge a) by lia.
        rewrite commonPrefixLength_nil_r. f_equal. lia. }
    destruct (lookup_lt_is_Some_2 b k) as [x Hx]; [lia|].
    destruct (lookup_lt_is_Some_2 a k) as [y Hy]; [lia|].
    rewrite (same_line_lookup _ _ _ _ _ _ Hx Hy).
    rewrite (drop_S _ _ _ Hx), (drop_S _ _ _ Hy). simpl.
    destruct (String.eqb x y).
    + replace (Z.of_nat k + 1) with (Z.of_nat (S k)) by lia.
      rewrite IH by lia. f_equal. lia.
    + f_equal. lia.
Qed.

Lemma rev_drop_lookup b (p j : nat) :
  (p + j < length b)%nat ->
  drop j (reverse (drop p b)) !! O = b !! (length b - 1 - j)%nat.
Proof.
  intros H. rewrite lookup_drop, Nat.add_0_r.
  rewrite reverse_lookup by (rewrite length_drop; lia).
  rewrite lookup_drop, length_drop. f_equal. lia.
Qed.

(** The second loop computes the length of the common suffix of what
    the first loop left. *)
Lemma suffixLoop_spec fuel b a (p j : nat) :
  (p + j <= length b)%nat -> (p + j <= length a)%nat ->
  (length b - p - j <= fuel)%nat ->
  let j' := (j + commonPrefixLength (drop j (reverse (drop p b)))
                                    (drop j (reverse (drop p a))))%nat in
  suffixLoop fuel b a (Z.of_nat p)
    (len b - 1 - Z.of_nat j) (len a - 1 - Z.of_nat j)
  = (len b - 1 - Z.of_nat j', len a - 1 - Z.of_nat j').
Proof.
  revert j. induction fuel as [|fuel IH]; intros j Hb Ha Hf; simpl.
  - rewrite drop_ge by (rewrite length_reverse, length_drop; lia).
    simpl. rewrite Nat.add_0_r. reflexivity.
  - unfold len in *.
    destruct (Z.geb_spec (Z.of_nat (length b) - 1 - Z.of_nat j) (Z.of_nat p))
      as [Hb'|Hb']; simpl.
    2:{ rewrite drop_ge by (rewrite length_reverse, length_drop; lia).
        simpl. rewrite Nat.add_0_r. reflexivity. }
    destruct (Z.geb_spec (Z.of_nat (length a) - 1 - Z.of_nat j) (Z.of_nat p))
      as [Ha'|Ha']; simpl.
    2:{ rewrite (drop_ge (reverse (drop p a)))
          by (rewrite length_reverse, length_drop; lia).
        rewrite commonPrefixLength_nil_r, Nat.add_0_r. reflexivity. }
    replace (Z.of_nat (length b) - 1 - Z.of_nat j)
      with (Z.of_nat (length b - 1 - j)) by lia.
    replace (Z.of_nat (length a) - 1 - Z.of_nat j)
      with (Z.of_nat (length a - 1 - j)) by lia.
    rewrite !line_at_nat.
    destruct (lookup_lt_is_Some_2 b (length b - 1 - j)) as [x Hx]; [lia|].
    destruct (lookup_lt_is_Some_2 a (length a - 1 - j)) as [y Hy]; [lia|].
    rewrite (same_line_lookup _ _ _ _ _ _ Hx Hy).
    assert (Hdb : drop j (reverse (drop p b)) = x :: drop (S j) (reverse (drop p b))).
    { apply drop_S. rewrite <- Hx, <- (rev_drop_lookup b p j) by lia.
      now rewrite lookup_drop, Nat.add_0_r. }
    assert (Hda : drop j (reverse (drop p a)) = y :: drop (S j) (reverse (drop p a))).
    { apply drop_S. rewrite <- Hy, <- (rev_drop_lookup a p j) by lia.
      now rewrite lookup_drop, Nat.add_0_r. }
    rewrite Hdb, Hda. simpl.
    destruct (String.eqb x y).
    + replace (Z.of_nat (length b - 1 - j) - 1)
        with (Z.of_nat (length b) - 1 - Z.of_nat (S j)) by lia.
      replace (Z.of_nat (length a - 1 - j) - 1)
        with (Z.of_nat (length a) - 1 - Z.of_nat (S j)) by lia.
      rewrite IH by lia. f_equal; f_equal; lia.
    + rewrite Nat.add_0_r. f_equal; lia.
Qed.

(** The code and the worded diff agree on every pair of texts. *)
Lemma countChangedLines_magnitude before after :
  countChangedLines before after = magnitude_spec before after.
Proof.
  unfold countChangedLines, magnitude_spec.
  destruct (String.eqb before after) eqn:E.
  - apply String.eqb_eq in E. subst after.
    rewrite commonPrefixLength_refl, drop_all. reflexivity.
  - set (b := split_nl before). set (a := split_nl after).
    set (p := commonPrefixLength b a).
    assert (Hp : prefixLoop (length b) b a 0 = Z.of_nat p).
    { change 0 with (Z.of_nat 0). rewrite prefixLoop_spec by lia.
      now rewrite !drop_0, Nat.add_0_l. }
    rewrite Hp. clear Hp.
    destruct (commonPrefixLength_le b a) as [Hpb Hpa]. fold p in Hpb, Hpa.
    pose proof (suffixLoop_spec (length b) b a p 0) as Hs.
    rewrite !Nat.add_0_r, !drop_0, Nat.add_0_l in Hs.
    cbn zeta in Hs. rewrite !Z.sub_0_r in Hs.
    rewrite Hs by lia. clear Hs.
    fold (commonSuffixLength (drop p b) (drop p a)).
    set (s := commonSuffixLength (drop p b) (drop p a)).
    destruct (commonPrefixLength_le (reverse (drop p b))
                (reverse (drop p a))) as [Hsb Hsa].
    fold (commonSuffixLength (drop p b) (drop p a)) in Hsb, Hsa.
    fold s in Hsb, Hsa.
    rewrite length_reverse, length_drop in Hsb, Hsa.
    rewrite !length_take, !length_drop. unfold len. lia.
Qed.

Lemma magnitude_spec_comm before after :
  magnitude_spec before after = magnitude_spec after before.
Proof.
  unfold magnitude_spec, commonSuffixLength.
  rewrite (commonPrefixLength_comm (split_nl before) (split_nl after)).
  set (p := commonPrefixLength _ _).
  rewrite (commonPrefixLength_comm (reverse (drop p (split_nl before)))).
  now rewrite Nat.max_comm.
Qed.

Lemma magnitude_spec_zero before after :
  magnitude_spec before after = 0 -> before = after.
Proof.
  unfold magnitude_spec. intros H.
  set (b := split_nl before) in *. set (a := split_nl after) in *.
  set (p := commonPrefixLength b a) in *.
  set (s := commonSuffixLength (drop p b) (drop p a)) in *.
  destruct (commonPrefixLength_le b a) as [Hpb Hpa]. fold p in Hpb, Hpa.
  destruct (commonPrefixLength_le (reverse (drop p b))
              (reverse (drop p a))) as [Hsb Hsa].
  fold (commonSuffixLength (drop p b) (drop p a)) in Hsb, Hsa.
  fold s in Hsb, Hsa.
  rewrite length_reverse, length_drop in Hsb, Hsa.
  rewrite !length_take, !length_drop in H.
  assert (Hrev : reverse (drop p b) = reverse (drop p a)).
  { apply commonPrefixLength_full.
    - fold (commonSuffixLength (drop p b) (drop p a)). fold s.
      rewrite length_reverse, length_drop. lia.
    - rewrite !length_reverse, !length_drop. lia. }
  apply (f_equal reverse) in Hrev. rewrite !reverse_involutive in Hrev.
  apply split_nl_inj. fold b a.
  rewrite <- (take_drop p b), <- (take_drop p a), Hrev. f_equal.
  apply commonPrefixLength_take.
Qed.

(** C5: [countChangedLines] is the larger of the two line counts left
    after trimming the longest common prefix of lines and then the
    longest common suffix of the rest; a text against itself gives 0,
    and 0 is given only for two equal texts. *)
Theorem countChangedLines_trim_then_diff before after :
  countChangedLines before after = magnitude_spec before after
  /\ countChangedLines before before = 0
  /\ (countChangedLines before after = 0 -> before = after).
Proof.
  split; [apply countChangedLines_magnitude|]. split.
  - unfold countChangedLines. now rewrite String.eqb_refl.
  - rewrite countChangedLines_magnitude. apply magnitude_spec_zero.
Qed.

Lemma countChangedLines_trim_then_diff_witness :
  countChangedLines "pass" "pass" = 0 /\ "pass" = "pass".
Proof.
  split; [reflexivity|].
  apply (proj2 (proj2 (countChangedLines_trim_then_diff "pass" "pass"))).
  reflexivity.
Defined.

(** C10: the changed-line count does not depend on the order of its
    two arguments. *)
Theorem countChangedLines_symmetric (x y : string) :
  countChangedLines x y = countChangedLines y x.
Proof.
  rewrite !countChangedLines_magnitude. apply magnitude_spec_comm.
Qed.

End EditDiffFacts.

(** ** The edit trigger *)

Section EditTriggerFacts.

Lemma countChangedLines_nonneg before after :
  0 <= countChangedLines before after.
Proof. rewrite countChangedLines_magnitude. unfold magnitude_spec. lia. Qed.

(** One call of the handler, case by case. *)
Lemma handleCodeChange_step st newCode :
  let m := countChangedLines (contentOf st) newCode in
  let st' := (handleCodeChange st newCode).1 in
  let r := (handleCodeChange st newCode).2 in
  contentOf st' = newCode
  /\ currentFile st' = currentFile st
  /\ (if (m >? 0) && (pendingOf st + m >=? AI_REFRESH_LINE_THRESHOLD)
      then r = RefreshTo newCode /\ aiPanelCode st' = newCode
           /\ pendingOf st' = 0
      else r = NoRefresh /\ aiPanelCode st' = aiPanelCode st
           /\ pendingOf st' = pendingOf st + m).
Proof.
  intros m st' r. subst st' r. unfold handleCodeChange.
  fold (contentOf st). fold (pendingOf st). fold m.
  pose proof (countChangedLines_nonneg (contentOf st) newCode) as Hm.
  fold m in Hm.
  destruct (Z.gtb_spec m 0) as [Hpos|Hzero]; simpl.
  - destruct (Z.geb_spec (pendingOf st + m) AI_REFRESH_LINE_THRESHOLD);
      simpl; unfold contentOf, pendingOf; simpl;
      rewrite ?lookup_insert_eq; simpl; auto.
  - unfold contentOf, pendingOf; simpl.
    rewrite lookup_insert_eq. simpl. fold (pendingOf st).
    repeat split; auto. lia.
Qed.



End EditTriggerFacts.

(** ** The function extractor *)

Section UnitExtractorFacts.

Local Open Scope nat_scope.

Implicit Types (lines : list string) (d i k lo : nat).

Lemma eat_Some p s r : eat p s = Some r -> s = p +:+ r.
Proof.
  revert s. induction p as [|a p IH]; intros [|b s]; simpl;
    try discriminate; try (intros [= <-]; reflexivity).
  destruct (Ascii.eqb a b) eqn:E; [|discriminate].
  apply Ascii.eqb_eq in E. subst b. intros H.
  rewrite append_cons. f_equal. now apply IH.
Qed.

Lemma defMatch_trimStart l name :
  defMatch l = Some name -> exists r, trimStart l = "def" +:+ r.
Proof.
  unfold defMatch. destruct (eat "def" (trimStart l)) as [r|] eqn:E;
    [|discriminate].
  intros _. exists r. now apply eat_Some.
Qed.

(** A [def] line is not blank. *)
Lemma defMatch_not_blank l name : defMatch l = Some name -> blank l = false.
Proof.
  intros H. destruct (defMatch_trimStart _ _ H) as [r Hr].
  unfold blank, trim, truthy. rewrite Hr. reflexivity.
Qed.

(** A [def] line is not a decorator line. *)
Lemma defMatch_not_decorator l name :
  defMatch l = Some name -> decoratorMatch l = false.
Proof.
  intros H. destruct (defMatch_trimStart _ _ H) as [r Hr].
  unfold decoratorMatch. rewrite Hr. reflexivity.
Qed.

Lemma drop_line lines k :
  k < length lines -> drop k lines = line lines k :: drop (S k) lines.
Proof.
  intros H. apply drop_S. unfold line.
  destruct (lookup_lt_is_Some_2 lines k H) as [x Hx].
  rewrite Hx. f_equal. rewrite nth_lookup, Hx. reflexivity.
Qed.

Lemma extendStart_le lines d i : extendStart lines d i <= i.
Proof.
  induction i as [|p IH]; simpl; [lia|].
  destruct (blank _); [lia|].
  destruct (_ || _); lia.
Qed.

(** The line a unit starts on is not blank. *)
Lemma extendStart_not_blank lines d i :
  blank (line lines i) = false ->
  blank (line lines (extendStart lines d i)) = false.
Proof.
  induction i as [|p IH]; simpl; [auto|]. intros H.
  destruct (blank (line lines p)) eqn:B; [exact H|].
  destruct (_ || _); [exact H|]. now apply IH.
Qed.

(** The upward scan stays below a barrier. *)
Lemma extendStart_barrier lines d lo i s :
  barrier lines lo -> lo <= s -> s <= i -> i < length lines ->
  (forall k, s <= k <= i -> normalizeIndent (line lines k) = d) ->
  lo <= extendStart lines d s.
Proof.
  intros Hbar Hlo Hsi Hi. induction s as [|p IH]; intros Hd; simpl; [lia|].
  destruct (blank (line lines p)) eqn:B; [lia|].
  destruct (decoratorMatch (line lines p)) eqn:Dm; simpl; [|lia].
  destruct (Nat.eqb_spec (normalizeIndent (line lines p)) d) as [Hp|];
    simpl; [|lia].
  destruct (Nat.eq_dec lo (S p)) as [->|Hne].
  - exfalso. destruct Hbar as [|(D & Hprev & Hcur)]; [discriminate|].
    replace (S p - 1) with p in Hprev by lia.
    rewrite B, Dm, Hp in Hprev.
    specialize (Hcur ltac:(lia)). rewrite (Hd (S p)) in Hcur by lia.
    destruct Hprev as [|[|]]; try discriminate; lia.
  - apply IH; [lia|lia|].
    intros k Hk. destruct (Nat.eq_dec k p) as [->|]; [exact Hp|].
    apply Hd. lia.
Qed.

(** Where the downward scan stops, and what it steps over. *)
Lemma extendEnd_spec lines d n :
  forall e, n = length lines - e -> e <= length lines ->
  let e' := extendEnd d (drop e lines) e in
  e <= e' <= length lines
  /\ (forall k, e <= k < e' ->
      blank (line lines k) = true \/ d < normalizeIndent (line lines k))
  /\ (e' < length lines ->
      blank (line lines e') = false
      /\ normalizeIndent (line lines e') <= d).
Proof.
  induction n as [|n IH]; intros e Hn He.
  - rewrite drop_ge by lia. simpl. repeat split; lia.
  - rewrite drop_line by lia. simpl.
    destruct (blank (line lines e)) eqn:B.
    + destruct (IH (S e)) as (H1 & H2 & H3); [lia|lia|].
      split; [lia|]. split; [|exact H3].
      intros k Hk. destruct (Nat.eq_dec k e) as [->|]; [now left|].
      apply H2. lia.
    + destruct (Nat.leb_spec (normalizeIndent (line lines e)) d) as [L|L].
      * split; [lia|]. split; [intros k Hk; lia|]. intros _. now split.
      * destruct (IH (S e)) as (H1 & H2 & H3); [lia|lia|].
        split; [lia|]. split; [|exact H3].
        intros k Hk. destruct (Nat.eq_dec k e) as [->|]; [now right|].
        apply H2. lia.
Qed.

(** The end of a unit is a barrier for the units after it. *)
Lemma barrier_after_unit lines i name :
  i < length lines -> defMatch (line lines i) = Some name ->
  barrier lines
    (extendEnd (normalizeIndent (line lines i)) (drop (i + 1) lines) (i + 1)).
Proof.
  intros Hi Hdef. set (d := normalizeIndent (line lines i)).
  destruct (extendEnd_spec lines d (length lines - (i + 1)) (i + 1))
    as (H1 & H2 & H3); [lia|lia|].
  set (e := extendEnd d (drop (i + 1) lines) (i + 1)) in *.
  right. exists d. split; [|intros H; now apply H3].
  destruct (Nat.eq_dec e (i + 1)) as [->|Hne].
  - right. left. replace (i + 1 - 1) with i by lia.
    eapply defMatch_not_decorator; eauto.
  - destruct (H2 (e - 1)) as [|]; [lia|now left|now right; right].
Qed.

(** The spans the scan gives are chained, whatever the fuel. *)
Lemma scanFrom_chained fuel lines :
  forall i lo, barrier lines lo -> lo <= i ->
  chained (length lines) lo (scanFrom fuel lines i).
Proof.
  induction fuel as [|fuel IH]; intros i lo Hbar Hlo; simpl; [exact I|].
  destruct (Nat.ltb_spec i (length lines)) as [Hi|Hi]; [|exact I].
  destruct (defMatch (line lines i)) as [name|] eqn:Hdef.
  - simpl.
    destruct (extendEnd_spec lines (normalizeIndent (line lines i))
                (length lines - (i + 1)) (i + 1))
      as (H1 & _ & _); [lia|lia|].
    pose proof (extendStart_le lines (normalizeIndent (line lines i)) i).
    repeat split; try lia.
    + apply (extendStart_barrier lines _ lo i i); auto.
      intros k Hk. replace k with i by lia. reflexivity.
    + apply IH; [|lia]. eapply barrier_after_unit; eauto.
  - apply IH; [exact Hbar|lia].
Qed.

(** With fuel for the lines still ahead, every [def] line from [i] on
    falls into one of the spans. *)
Lemma scanFrom_covers fuel lines :
  forall i, length lines - i <= fuel ->
  forall k, i <= k < length lines -> is_Some (defMatch (line lines k)) ->
  exists sp, sp ∈ scanFrom fuel lines i
             /\ span_start sp <= k < span_end sp.
Proof.
  induction fuel as [|fuel IH]; intros i Hf k Hk Hdef; [lia|]. simpl.
  destruct (Nat.ltb_spec i (length lines)) as [Hi|Hi]; [|lia].
  destruct (defMatch (line lines i)) as [name|] eqn:Hi_def.
  - set (d := normalizeIndent (line lines i)).
    set (e := extendEnd d (drop (i + 1) lines) (i + 1)).
    destruct (extendEnd_spec lines d (length lines - (i + 1)) (i + 1))
      as (H1 & _ & _); [lia|lia|]. fold e in H1.
    pose proof (extendStart_le lines d i).
    destruct (Nat.lt_ge_cases k e) as [Hke|Hke].
    + eexists. split; [apply list_elem_of_here|]. simpl. lia.
    + destruct (IH e ltac:(lia) k ltac:(lia) Hdef) as (sp & Hin & Hsp).
      exists sp. split; [now apply list_elem_of_further|exact Hsp].
  - assert (k <> i).
    { intros ->. rewrite Hi_def in Hdef. now destruct Hdef. }
    destruct (IH (i + 1) ltac:(lia) k ltac:(lia) Hdef) as (sp & Hin & Hsp).
    now exists sp.
Qed.

(** Fuel beyond the lines ahead changes nothing: the scan ends by
    itself. *)
Lemma scanFrom_fuel lines :
  forall fuel1 fuel2 i,
  length lines - i <= fuel1 -> length lines - i <= fuel2 ->
  scanFrom fuel1 lines i = scanFrom fuel2 lines i.
Proof.
  induction fuel1 as [|fuel1 IH]; intros fuel2 i Hf1 Hf2.
  - destruct fuel2; [reflexivity|]. simpl.
    destruct (Nat.ltb_spec i (length lines)); [lia|reflexivity].
  - destruct fuel2 as [|fuel2]; simpl.
    + destruct (Nat.ltb_spec i (length lines)); [lia|reflexivity].
    + destruct (Nat.ltb_spec i (length lines)) as [Hi|Hi]; [|reflexivity].
      destruct (defMatch (line lines i)).
      * destruct (extendEnd_spec lines (normalizeIndent (line lines i))
                    (length lines - (i + 1)) (i + 1))
          as (H1 & _ & _); [lia|lia|].
        f_equal. apply IH; lia.
      * apply IH; lia.
Qed.

Lemma chained_elem n lo spans sp :
  chained n lo spans -> sp ∈ spans ->
  lo <= span_start sp /\ span_start sp < span_end sp <= n.
Proof.
  revert lo. induction spans as [|x rest IH]; intros lo Hc Hin.
  - now apply elem_of_nil in Hin.
  - destruct Hc as (H1 & H2 & H3 & H4).
    apply elem_of_cons in Hin as [->|Hin]; [lia|].
    destruct (IH _ H4 Hin). lia.
Qed.

Lemma chained_lookup n lo spans a b sp1 sp2 :
  chained n lo spans ->
  spans !! a = Some sp1 -> spans !! b = Some sp2 -> a < b ->
  span_end sp1 <= span_start sp2.
Proof.
  revert lo a b. induction spans as [|x rest IH]; intros lo a b Hc Ha Hb Hab.
  - discriminate.
  - destruct Hc as (H1 & H2 & H3 & H4).
    destruct b as [|b]; [lia|]. simpl in Hb.
    destruct a as [|a]; simpl in Ha.
    + injection Ha as ->.
      apply list_elem_of_lookup_2 in Hb.
      destruct (chained_elem _ _ _ _ H4 Hb). lia.
    + eapply IH; eauto. lia.
Qed.

Lemma scanFrom_start_not_blank fuel lines :
  forall i sp, sp ∈ scanFrom fuel lines i ->
  blank (line lines (span_start sp)) = false.
Proof.
  induction fuel as [|fuel IH]; intros i sp Hin; simpl in Hin.
  - now apply elem_of_nil in Hin.
  - destruct (i <? length lines); [|now apply elem_of_nil in Hin].
    destruct (defMatch (line lines i)) as [name|] eqn:Hdef; [|eauto].
    apply elem_of_cons in Hin as [->|Hin]; [|eauto]. simpl.
    apply extendStart_not_blank. eapply defMatch_not_blank; eauto.
Qed.

Lemma barrier_top lines : barrier lines 0.
Proof. now left. Qed.

Lemma extractSpans_chained codeContent :
  chained (length (split_nl codeContent)) 0 (extractSpans codeContent).
Proof.
  unfold extractSpans. apply scanFrom_chained; [apply barrier_top|lia].
Qed.

(** C2: the units [extractPythonFunctions] returns are cut from line
    spans that are non-empty, lie within the file, come in file order
    without overlapping, and together hold every line that matches the
    [def] pattern. *)
Theorem extractPythonFunctions_spans_cover codeContent :
  let lines := split_nl codeContent in
  let spans := extractSpans codeContent in
  extractPythonFunctions codeContent = blockOf lines <$> spans
  /\ (forall sp, sp ∈ spans ->
      span_start sp < span_end sp <= length lines)
  /\ (forall a b sp1 sp2,
      spans !! a = Some sp1 -> spans !! b = Some sp2 -> a < b ->
      span_end sp1 <= span_start sp2)
  /\ (forall k, k < length lines -> is_Some (defMatch (line lines k)) ->
      exists sp, sp ∈ spans /\ span_start sp <= k < span_end sp).
Proof.
  intros lines spans. split; [reflexivity|].
  pose proof (extractSpans_chained codeContent) as Hc.
  fold lines spans in Hc.
  split; [|split].
  - intros sp Hin. now destruct (chained_elem _ _ _ _ Hc Hin).
  - intros a b sp1 sp2. now apply (chained_lookup _ _ _ _ _ _ _ Hc).
  - intros k Hk Hdef. subst spans. unfold extractSpans. fold lines.
    apply scanFrom_covers; [lia|lia|exact Hdef].
Qed.

Lemma extractPythonFunctions_spans_cover_witness :
  2 < length (split_nl "import os
@cache
def f(x):
    return x

def g(y): return y")
  /\ exists sp,
       sp ∈ extractSpans "import os
@cache
def f(x):
    return x

def g(y): return y"
       /\ span_start sp <= 2 < span_end sp.
Proof.
  split; [vm_compute; lia|].
  apply (proj2 (proj2 (proj2 (extractPythonFunctions_spans_cover
           "import os
@cache
def f(x):
    return x

def g(y): return y")))).
  - vm_compute. lia.
  - vm_compute. eauto.
Defined.

Lemma slice_first lines lo hi :
  lo < hi <= length lines ->
  exists rest, slice lo hi lines = line lines lo :: rest.
Proof.
  intros H. unfold slice. rewrite drop_line by lia.
  destruct (hi - lo) as [|m] eqn:E; [lia|].
  simpl. eauto.
Qed.

(** C4 as worded fails: the unit cut from a file that ends in a line
    feed ends in a blank line. *)
Lemma unit_source_ends_blank :
  extractPythonFunctions "def f():
  pass
" = [ {| functionName := "f"; source := "def f():
  pass
" |} ]
  /\ last (split_nl "def f():
  pass
") = Some ""
  /\ blank "" = true.
Proof. vm_compute. auto. Qed.

End UnitExtractorFacts.

(** ** Batching *)

Section BatchFacts.

Local Open Scope nat_scope.

Implicit Types (units : list PythonFunctionBlock).

Lemma slice_length {A} (l : list A) lo hi :
  length (slice lo hi l) = Nat.min (hi - lo) (length l - lo).
Proof. unfold slice. now rewrite length_take, length_drop. Qed.

(** The batches from index [i] on make up the units from [i] on. *)
Lemma batchesFrom_concat fuel units :
  forall i, length units - i <= fuel ->
  concat (batchesFrom fuel units i) = drop i units.
Proof.
  induction fuel as [|fuel IH]; intros i Hf; simpl.
  - now rewrite drop_ge by lia.
  - destruct (Nat.ltb_spec i (length units)) as [Hi|Hi].
    + simpl. rewrite IH by (unfold batchSize; lia).
      unfold slice. replace (i + batchSize - i) with batchSize by lia.
      rewrite <- (drop_drop units batchSize i). apply take_drop.
    + now rewrite drop_ge by lia.
Qed.

(** Every batch holds between one and [batchSize] units, and a batch
    that is followed by another one is full. *)
Lemma batchesFrom_shape fuel units :
  forall i k b, batchesFrom fuel units i !! k = Some b ->
  1 <= length b <= batchSize
  /\ (is_Some (batchesFrom fuel units i !! S k) -> length b = batchSize).
Proof.
  induction fuel as [|fuel IH]; intros i k b Hk; simpl in *;
    [discriminate|].
  destruct (Nat.ltb_spec i (length units)) as [Hi|Hi]; [|discriminate].
  destruct k as [|k]; simpl in *.
  - injection Hk as <-. rewrite slice_length. unfold batchSize.
    split; [lia|].
    intros [b' Hb']. destruct fuel as [|fuel]; [discriminate|].
    simpl in Hb'. unfold batchSize in Hb'.
    destruct (Nat.ltb_spec (i + 5) (length units));
      [lia|discriminate].
  - eapply IH; eauto.
Qed.

Lemma batches_single units :
  1 <= length units <= batchSize -> batches units = [units].
Proof.
  intros H. unfold batches.
  destruct (length units) as [|n] eqn:E; [lia|]. simpl.
  unfold batchSize in *.
  destruct (Nat.ltb_spec 0 (length units)); [|lia].
  unfold slice. rewrite drop_0, take_ge by (simpl; lia). f_equal.
  destruct n; [reflexivity|]. simpl.
  destruct (Nat.ltb_spec 5 (length units)); [lia|reflexivity].
Qed.

(** C9: the batches of a unit list are consecutive pieces of at most
    [batchSize] units, only the last one possibly short, and put end to
    end they give the list back; the two units of a file with two
    functions make one batch. *)
Theorem batches_partition units :
  concat (batches units) = units
  /\ (forall k b, batches units !! k = Some b ->
      1 <= length b <= batchSize
      /\ (S k < length (batches units) -> length b = batchSize))
  /\ (forall codeContent,
      units = extractPythonFunctions codeContent -> length units = 2 ->
      batches units = [units]).
Proof.
  split; [|split].
  - unfold batches. rewrite batchesFrom_concat by lia. apply drop_0.
  - intros k b Hk.
    destruct (batchesFrom_shape _ _ _ _ _ Hk) as [H1 H2].
    split; [exact H1|]. intros Hlt. apply H2.
    now apply lookup_lt_is_Some_2.
  - intros codeContent _ H2. apply batches_single.
    unfold batchSize. lia.
Qed.

Lemma batches_partition_witness :
  batches (extractPythonFunctions "def f(x):
    return x

def g(y):
    return y
")
  = [extractPythonFunctions "def f(x):
    return x

def g(y):
    return y
"].
Proof.
  apply (proj2 (proj2 (batches_partition _)) "def f(x):
    return x

def g(y):
    return y
"); reflexivity.
Defined.

End BatchFacts.

(** ** The analysis run *)

Section AnalysisRunFacts.

Local Open Scope nat_scope.

Variable JSON_parse : string -> option json.

Abbreviation parseJsonFromModelText :=
  (parseJsonFromModelText JSON_parse).
Abbreviation mergeReply := (mergeReply JSON_parse).
Abbreviation resumeRun := (resumeRun JSON_parse).
Abbreviation feedReplies := (feedReplies JSON_parse).
Abbreviation entryText := (entryText JSON_parse).
Abbreviation unitLines := (unitLines JSON_parse).

Implicit Types (st : PanelState) (r : Run) (reply : Reply)
  (batch : list PythonFunctionBlock).

(** Joining the lines of a batch after a line feed puts each line
    after a line feed of its own. *)
Lemma join_nl_lines (g : PythonFunctionBlock -> string) batch :
  batch <> [] ->
  String "010" (join_nl (g <$> batch))
  = concatStrings ((fun fn => String "010" (g fn)) <$> batch).
Proof.
  induction batch as [|x [|y rest] IH]; intros Hne; [congruence| |].
  - simpl. now rewrite append_cons, append_empty_r.
  - change (join_nl (g <$> x :: y :: rest))
      with (g x +:+ String "010" (join_nl (g <$> y :: rest))).
    rewrite IH by discriminate.
    change (concatStrings ((fun fn => String "010" (g fn)) <$> x :: y :: rest))
      with (String "010" (g x)
            +:+ concatStrings ((fun fn => String "010" (g fn)) <$> y :: rest)).
    now rewrite append_cons.
Qed.

(** Merging the result of a batch appends one line per unit of the
    batch to whatever the panel shows, and leaves the run counter
    alone.  Nothing here looks at the run id. *)
Lemma mergeReply_explanation st batch reply :
  batch <> [] ->
  explanation (mergeReply st batch reply)
  = explanation st +:+ unitLines batch reply
  /\ analysisRunRef (mergeReply st batch reply) = analysisRunRef st
  /\ isAnalyzing (mergeReply st batch reply) = isAnalyzing st.
Proof.
  intros Hne. unfold mergeReply, unitLines, AnalysisRun.entryText.
  destruct reply as [|text]; simpl.
  - unfold mergeFallback. now rewrite join_nl_lines.
  - destruct (parseJsonFromModelText text) as [parsed|]; simpl.
    + unfold mergeParsed. now rewrite join_nl_lines.
    + unfold mergeFallback. now rewrite join_nl_lines.
Qed.

Lemma currentBatch_nonempty r :
  run_i r < length (extractedFunctions r) -> currentBatch r <> [].
Proof.
  intros H E. apply (f_equal length) in E.
  unfold currentBatch in E. rewrite slice_length in E.
  unfold batchSize in E. simpl in E. lia.
Qed.

(** A run that was superseded while its request was out still merges
    the result of that request; it only refrains from sending the next
    batch. *)
Lemma resumeRun_stale st r reply :
  run_i r < length (extractedFunctions r) ->
  analysisRunRef st <> runId r ->
  (resumeRun st r reply).2 = None
  /\ explanation (resumeRun st r reply).1
     = explanation st +:+ unitLines (currentBatch r) reply.
Proof.
  intros Hi Hstale. unfold resumeRun, loopHead. simpl.
  destruct (mergeReply_explanation st (currentBatch r) reply
              (currentBatch_nonempty r Hi)) as (He & Hr & _).
  rewrite Hr.
  destruct (Nat.eqb_spec (analysisRunRef st) (runId r)); [contradiction|].
  simpl. destruct (_ <? _); simpl; auto.
Qed.

(** A run that is still the latest, fed the replies to its batches one
    after the other. *)
Lemma feedReplies_current fuel :
  forall st r replies,
  length (extractedFunctions r) - run_i r <= fuel ->
  run_i r < length (extractedFunctions r) ->
  analysisRunRef st = runId r ->
  length replies
  = length (batchesFrom fuel (extractedFunctions r) (run_i r)) ->
  (feedReplies st (Some r) replies).2 = None
  /\ isAnalyzing (feedReplies st (Some r) replies).1 = false
  /\ explanation (feedReplies st (Some r) replies).1
     = explanation st
       +:+ concatStrings
             (zip_with unitLines
                (batchesFrom fuel (extractedFunctions r) (run_i r))
                replies).
Proof.
  induction fuel as [|fuel IH]; intros st r replies Hf Hi Href Hlen;
    [lia|].
  simpl in Hlen |- *.
  destruct (Nat.ltb_spec (run_i r) (length (extractedFunctions r)));
    [|lia].
  destruct replies as [|reply rest]; [discriminate|].
  simpl in Hlen. injection Hlen as Hlen.
  destruct (mergeReply_explanation st (currentBatch r) reply
              (currentBatch_nonempty r Hi)) as (He & Hr & Ha).
  simpl. unfold AnalysisRun.resumeRun, loopHead. simpl.
  rewrite Hr, Href, Nat.eqb_refl. simpl.
  fold (currentBatch r).
  destruct (Nat.ltb_spec (run_i r + batchSize)
              (length (extractedFunctions r))) as [Hmore|Hlast].
  - set (r' := {| runId := runId r; run_mode := run_mode r;
                  run_name := run_name r;
                  extractedFunctions := extractedFunctions r;
                  run_i := run_i r + batchSize |}).
    assert (Hf' : length (extractedFunctions r') - run_i r' <= fuel)
      by (simpl; unfold batchSize in *; lia).
    assert (Hi' : run_i r' < length (extractedFunctions r'))
      by (simpl; lia).
    assert (Href' : analysisRunRef (mergeReply st (currentBatch r) reply)
                    = runId r') by (simpl; congruence).
    destruct (IH _ r' rest Hf' Hi' Href' Hlen) as (H1 & H2 & H3).
    simpl in H3. rewrite H1, H2, H3, He.
    repeat split. now rewrite append_assoc.
  - assert (Hnil : batchesFrom fuel (extractedFunctions r)
                     (run_i r + batchSize) = []).
    { destruct fuel; [reflexivity|]. simpl.
      destruct (Nat.ltb_spec (run_i r + batchSize)
                  (length (extractedFunctions r))); [lia|reflexivity]. }
    rewrite Hnil in Hlen |- *. destruct rest; [|discriminate].
    simpl. rewrite He, append_empty_r. auto.
Qed.


Abbreviation step := (step JSON_parse).
Abbreviation steps := (steps JSON_parse).

(** The end of a request of a suspended run, whether the run is still
    the latest or not: its lines are appended to what the panel shows. *)
Lemma step_RequestEnds hasKey mode sys id reply r rest :
  takeRun id (suspended sys) = Some (r, rest) ->
  run_i r < length (extractedFunctions r) ->
  let sys' := step hasKey mode sys (RequestEnds id reply) in
  explanation (panel sys')
  = explanation (panel sys) +:+ unitLines (currentBatch r) reply
  /\ analysisRunRef (panel sys') = analysisRunRef (panel sys)
  /\ (length (extractedFunctions r) <= run_i r + batchSize ->
      suspended sys' = rest).
Proof.
  intros Ht Hi. simpl. rewrite Ht.
  destruct (mergeReply_explanation (panel sys) (currentBatch r) reply
              (currentBatch_nonempty r Hi)) as (He & Hr & _).
  unfold AnalysisRun.resumeRun, loopHead. simpl.
  fold (currentBatch r). rewrite Hr.
  destruct (_ <? _) eqn:Elt; destruct (_ =? _); simpl;
    repeat split; auto; intros Hlast;
    try (apply Nat.ltb_lt in Elt; lia); apply app_nil_r.
Qed.

(** C1, on the code: a first analysis of a file defining [f] is
    waiting for its response when a second analysis, of a file
    defining [g], starts; the run counter is then 3 and the first run
    has id 1.  When the response of the first run arrives its line for
    [f] is appended all the same, and it stays in the output next to
    the line of the second run. *)
Theorem superseded_run_result_is_merged reply1 reply3 :
  let sys0 := {| panel := initialPanel; suspended := [] |} in
  let sys3 := steps true teacher sys0 overlappingRuns in
  let sys5 :=
    steps true teacher sys3 [RequestEnds 1 reply1; RequestEnds 3 reply3] in
  analysisRunRef (panel sys3) = 3
  /\ runId <$> suspended sys3 = [1; 3]
  /\ explanation (panel sys3) = HEADER
  /\ suspended sys5 = []
  /\ explanation (panel sys5)
     = HEADER
       +:+ String "010" (entryLine unitF (entryText reply1 unitF))
       +:+ String "010" (entryLine unitG (entryText reply3 unitG)).
Proof.
  intros sys0 sys3 sys5.
  set (r1 := {| runId := 1; run_mode := teacher; run_name := "a.py";
                extractedFunctions := [unitF]; run_i := 0 |}).
  set (r3 := {| runId := 3; run_mode := teacher; run_name := "a.py";
                extractedFunctions := [unitG]; run_i := 0 |}).
  assert (E3 : sys3 = {| panel := {| analysisRunRef := 3;
                                     explanation := HEADER;
                                     isAnalyzing := true;
                                     lastGeminiResponse := "" |};
                         suspended := [r1; r3] |})
    by (vm_compute; reflexivity).
  split; [now rewrite E3|]. split; [now rewrite E3|].
  split; [now rewrite E3|].
  subst sys5.
  change (steps true teacher sys3 [RequestEnds 1 reply1; RequestEnds 3 reply3])
    with (step true teacher (step true teacher sys3 (RequestEnds 1 reply1))
            (RequestEnds 3 reply3)).
  destruct (step_RequestEnds true teacher sys3 1 reply1 r1 [r3])
    as (He1 & Hr1 & Hs1); [now rewrite E3|simpl; lia|].
  specialize (Hs1 ltac:(simpl; unfold batchSize; lia)).
  set (sys4 := step true teacher sys3 (RequestEnds 1 reply1)) in *.
  destruct (step_RequestEnds true teacher sys4 3 reply3 r3 [])
    as (He2 & Hr2 & Hs2); [now rewrite Hs1|simpl; lia|].
  specialize (Hs2 ltac:(simpl; unfold batchSize; lia)).
  split; [exact Hs2|].
  rewrite He2, He1, E3. simpl explanation.
  unfold AnalysisRun.unitLines, currentBatch. simpl.
  change (slice 0 batchSize [unitF]) with [unitF].
  change (slice 0 batchSize [unitG]) with [unitG].
  simpl. now rewrite !append_empty_r, append_assoc.
Qed.

End AnalysisRunFacts.


(** ** The voice session *)

Section VoiceSessionFacts.

Lemma trimStart_shape s :
  trimStart s = ""
  \/ exists c r, trimStart s = String c r /\ is_space c = false.
Proof.
  induction s as [|c s IH]; simpl; [now left|].
  destruct (is_space c) eqn:E; [exact IH|]. right. eauto.
Qed.

Lemma trimEnd_idem s : trimEnd (trimEnd s) = trimEnd s.
Proof.
  induction s as [|c s IH]; simpl; [reflexivity|].
  destruct (is_space c && String.eqb (trimEnd s) "") eqn:E;
    [reflexivity|].
  simpl. now rewrite IH, E.
Qed.

(** Trimming a trimmed text changes nothing. *)
Lemma trim_idem s : trim (trim s) = trim s.
Proof.
  unfold trim. destruct (trimStart_shape s) as [->|(c & r & -> & Hc)];
    [reflexivity|].
  simpl. rewrite Hc. simpl. rewrite Hc. simpl.
  now rewrite trimEnd_idem, Hc.
Qed.

Lemma prefix_refl s : String.prefix s s = true.
Proof.
  induction s as [|c s IH]; simpl; [reflexivity|].
  destruct (ascii_dec c c); [exact IH|congruence].
Qed.

Lemma includes_refl s : includes s s = true.
Proof.
  destruct s as [|c s]; [reflexivity|].
  change (includes (String c s) (String c s))
    with (String.prefix (String c s) (String c s)
          || includes s (String c s)).
  now rewrite prefix_refl.
Qed.

Lemma toLowerCase_empty s : toLowerCase s = "" -> s = "".
Proof. now destruct s. Qed.

Lemma exit_phrase_not_empty p :
  p ∈ RUBBER_DUCKY_EXIT_PHRASES -> p <> "".
Proof.
  unfold RUBBER_DUCKY_EXIT_PHRASES. intros H.
  repeat (apply elem_of_cons in H as [->|H]; [discriminate|]).
  now apply elem_of_nil in H.
Qed.

(** A text that reads as an exit phrase once lower-cased makes the
    exit test succeed. *)
Lemma shouldExit_phrase trimmed p :
  p ∈ RUBBER_DUCKY_EXIT_PHRASES -> toLowerCase trimmed = p ->
  shouldExit trimmed = true.
Proof.
  intros Hin Hp. unfold shouldExit. apply existsb_exists.
  exists p. split; [now apply list_elem_of_In|].
  rewrite Hp. apply includes_refl.
Qed.

Lemma truthy_false s : truthy s = false <-> s = "".
Proof.
  unfold truthy. destruct (String.eqb_spec s ""); simpl; split;
    congruence.
Qed.

Lemma truthy_true s : truthy s = true <-> s <> "".
Proof.
  unfold truthy. destruct (String.eqb_spec s ""); simpl; split;
    congruence.
Qed.

Lemma textToProcess_trimmed transcript st :
  trim (textToProcess transcript st) = textToProcess transcript st.
Proof. unfold textToProcess. destruct (truthy _); apply trim_idem. Qed.

(** C7: once capture has stopped in an active voice session, a
    finalized transcript that, lower-cased, is one of the exit phrases
    ends the session (flag cleared, history cleared, status idle) and
    no model turn is asked for; an empty finalized transcript puts the
    status to idle, asks for no model turn and leaves the history as
    it was. *)
Theorem exit_phrase_or_empty_transcript hasKey transcript st :
  pendingTranscriptProcess st = true -> sessionActive st = true ->
  let result := transcriptEffect hasKey false true transcript st in
  (forall p, p ∈ RUBBER_DUCKY_EXIT_PHRASES ->
     toLowerCase (textToProcess transcript st) = p ->
     result.2 = None
     /\ sessionActive result.1 = false
     /\ conversationHistory result.1 = []
     /\ rubberDuckyStatus result.1 = idle)
  /\ (textToProcess transcript st = "" ->
      result.2 = None
      /\ rubberDuckyStatus result.1 = idle
      /\ conversationHistory result.1 = conversationHistory st
      /\ sessionActive result.1 = true).
Proof.
  intros Hpend Hact result. subst result. unfold transcriptEffect.
  rewrite Hpend, Hact. simpl. split.
  - intros p Hin Hp.
    assert (Hne : textToProcess transcript st <> "").
    { intros E. rewrite E in Hp. simpl in Hp. subst p.
      now apply (exit_phrase_not_empty "" Hin). }
    apply truthy_true in Hne. rewrite Hne.
    unfold processRubberDuckyTranscript.
    rewrite textToProcess_trimmed, Hne. simpl.
    rewrite (shouldExit_phrase _ p Hin Hp). simpl. auto.
  - intros E. rewrite E. simpl. auto.
Qed.

Lemma exit_phrase_or_empty_transcript_witness :
  (transcriptEffect true false true "  STOP
"
     {| sessionActive := true;
        conversationHistory :=
          [ {| role := role_user; content := "why does it loop" |} ];
        rubberDuckyStatus := listening;
        voiceTranscript := "  STOP";
        rubberDuckyContext := None;
        pendingTranscriptProcess := true |}).2 = None.
Proof.
  apply (proj1 (exit_phrase_or_empty_transcript true "  STOP
"
     {| sessionActive := true;
        conversationHistory :=
          [ {| role := role_user; content := "why does it loop" |} ];
        rubberDuckyStatus := listening;
        voiceTranscript := "  STOP";
        rubberDuckyContext := None;
        pendingTranscriptProcess := true |} eq_refl eq_refl) "stop").
  - unfold RUBBER_DUCKY_EXIT_PHRASES. apply list_elem_of_here.
  - vm_compute. reflexivity.
Defined.

End VoiceSessionFacts.

(** ** The vibe-edit applier *)

Section VibeEditFacts.

Variable JSON_parse : string -> Parsed.
Variable nullReadMessage : string -> string.
Variable toDisplay : json -> string.

Abbreviation applyCompletion :=
  (applyCompletion JSON_parse nullReadMessage toDisplay).
Abbreviation tryBlock := (tryBlock JSON_parse nullReadMessage toDisplay).
Abbreviation runVibeTask :=
  (runVibeTask JSON_parse nullReadMessage toDisplay).
Abbreviation VibeFailure := (VibeFailure JSON_parse).

Lemma rawContent_null : rawContent JNull = None.
Proof. reflexivity. Qed.

Lemma applyCompletion_no_raw fileName completionJson :
  rawContent completionJson = None ->
  ends_without_edit (applyCompletion fileName completionJson).
Proof.
  intros H. left. unfold VibeEdit.applyCompletion.
  destruct completionJson; rewrite ?H; eauto.
Qed.

Lemma applyCompletion_raw fileName completionJson raw :
  rawContent completionJson = Some raw ->
  applyCompletion fileName completionJson
  = if negb (truthy (trim raw)) then
      ([], Throw "OpenAI returned an empty response.")
    else
      match JSON_parse (cleanVibeText raw) with
      | ParseThrows message => ([], Throw message)
      | ParseOk JNull => ([], Throw (nullReadMessage "updatedContent"))
      | ParseOk parsed =>
          match prop parsed "updatedContent" with
          | Some (JStr updatedContent) =>
              if truthy updatedContent then
                ([ApplyActiveFileChange updatedContent;
                  SetStatusMessage
                    match prop parsed "summary" with
                    | Some summary =>
                        if falsy summary
                        then "Applied update to " +:+ fileName +:+ "."
                        else toDisplay summary +:+ " (updated "
                             +:+ fileName +:+ ")"
                    | None => "Applied update to " +:+ fileName +:+ "."
                    end],
                 Normal)
              else ([SetStatusMessage NO_EDIT_STATUS], Return)
          | _ => ([SetStatusMessage NO_EDIT_STATUS], Return)
          end
      end.
Proof.
  intros H. unfold VibeEdit.applyCompletion.
  destruct completionJson; rewrite ?H; try reflexivity.
  rewrite rawContent_null in H. discriminate.
Qed.

(** With the credential set, every failure ends the [try] block by a
    throw or by the early return after the no-edit status. *)
Lemma tryBlock_failure apiKey fileName net :
  truthy (default "" apiKey) = true ->
  VibeFailure apiKey net ->
  ends_without_edit (tryBlock apiKey fileName net).
Proof.
  intros Hkey Hfail. unfold VibeEdit.tryBlock. rewrite Hkey. simpl.
  destruct Hfail as [net Hno|message|status body|status message
                    |status cj Hraw|status cj raw message Hraw Hparse
                    |status cj raw parsed Hraw Hparse Hfield];
    cbn [negb].
  - congruence.
  - left. eauto.
  - left. eauto.
  - left. eauto.
  - destruct Hraw as [Hraw|(raw & Hraw & Hblank)].
    + now apply applyCompletion_no_raw.
    + rewrite (applyCompletion_raw _ _ _ Hraw), Hblank. left. eauto.
  - rewrite (applyCompletion_raw _ _ _ Hraw).
    destruct (negb _); [left; eauto|]. rewrite Hparse. left. eauto.
  - rewrite (applyCompletion_raw _ _ _ Hraw).
    destruct (negb _); [left; eauto|]. rewrite Hparse.
    destruct parsed as [| | | |items|fields]; try (left; eauto; fail);
      try (right; reflexivity).
    destruct (prop (JObj fields) "updatedContent") as [[| | |c| |]|] eqn:Ep;
      try (right; reflexivity).
    rewrite (Hfield c eq_refl). right. reflexivity.
Qed.

Lemma catchBlock_one_status message :
  exists m, catchBlock message = [SetStatusMessage m]
            /\ (m = MISSING_KEY_STATUS \/ m = GENERIC_FAILURE_STATUS).
Proof.
  unfold catchBlock. destruct (includes _ _); eauto.
Qed.


End VibeEditFacts.


(** ** What the line diff counts *)

Section LineEditFacts.

Local Open Scope nat_scope.

Implicit Types (b a pre suf : list string).

Lemma split_nl_append s t :
  split_nl (s +:+ String "010" t) = split_nl s ++ split_nl t.
Proof.
  induction s as [|c s IH]; [reflexivity|].
  rewrite append_cons. simpl. rewrite IH.
  destruct (Ascii.eqb c "010"); [reflexivity|].
  destruct (split_nl s) as [|l ls] eqn:E; [|reflexivity].
  exfalso. exact (split_nl_nonempty s E).
Qed.

Lemma split_nl_lf_free s : lf_free s = true -> split_nl s = [s].
Proof.
  induction s as [|c s IH]; simpl; [reflexivity|].
  destruct (Ascii.eqb c "010"); simpl; [discriminate|].
  intros H. now rewrite (IH H).
Qed.

(** Joining lines that hold no line feed and splitting again gives the
    lines back. *)
Lemma split_join_nl ls :
  ls <> [] -> Forall (fun l => lf_free l = true) ls ->
  split_nl (join_nl ls) = ls.
Proof.
  induction ls as [|l [|l2 ls] IH]; intros Hne Hall; [congruence| |].
  - simpl. apply split_nl_lf_free. now inversion Hall.
  - change (join_nl (l :: l2 :: ls))
      with (l +:+ String "010" (join_nl (l2 :: ls))).
    rewrite split_nl_append, IH; [|discriminate|now inversion Hall].
    rewrite split_nl_lf_free; [reflexivity|now inversion Hall].
Qed.

Lemma magnitude_spec_lines before after :
  magnitude_spec before after
  = Z.of_nat (magnitude_lines (split_nl before) (split_nl after)).
Proof. reflexivity. Qed.

Lemma commonPrefixLength_app pre b a :
  commonPrefixLength (pre ++ b) (pre ++ a)
  = length pre + commonPrefixLength b a.
Proof.
  induction pre as [|x pre IH]; simpl; [reflexivity|].
  now rewrite String.eqb_refl, IH.
Qed.

Lemma commonPrefixLength_self_app b z :
  commonPrefixLength b (b ++ z) = length b.
Proof.
  rewrite <- (app_nil_r b) at 1. rewrite commonPrefixLength_app.
  simpl. lia.
Qed.

(** The diff of a list against the list with a block inserted. *)
Lemma magnitude_lines_insert pre ins suf :
  magnitude_lines (pre ++ suf) (pre ++ ins ++ suf) = length ins.
Proof.
  unfold magnitude_lines, commonSuffixLength.
  rewrite commonPrefixLength_app.
  set (q := commonPrefixLength suf (ins ++ suf)).
  assert (Hq : q <= length suf) by apply commonPrefixLength_le.
  rewrite !drop_app_add.
  assert (Ha : drop q (ins ++ suf)
               = take (length ins) (drop q (ins ++ suf)) ++ drop q suf).
  { rewrite <- (take_drop (length ins) (drop q (ins ++ suf))) at 1.
    f_equal. rewrite drop_drop.
    replace (q + length ins) with (length ins + q) by lia.
    apply drop_app_add. }
  rewrite Ha, reverse_app, commonPrefixLength_self_app.
  rewrite length_reverse, !length_take, !length_app, !length_take,
    !length_drop, !length_app.
  lia.
Qed.

Lemma commonPrefixLength_app_zero b a z :
  b <> [] -> a <> [] -> commonPrefixLength b a = 0 ->
  commonPrefixLength (b ++ z) (a ++ z) = 0.
Proof.
  destruct b as [|x b], a as [|y a]; try congruence. simpl.
  destruct (String.eqb x y); [discriminate|reflexivity].
Qed.

(** The diff of two lists that differ in one block, when the two
    versions of the block share no first line and no last line. *)
Lemma magnitude_lines_replace pre suf mb ma :
  mb <> [] -> ma <> [] ->
  commonPrefixLength mb ma = 0 ->
  commonPrefixLength (reverse mb) (reverse ma) = 0 ->
  magnitude_lines (pre ++ mb ++ suf) (pre ++ ma ++ suf)
  = Nat.max (length mb) (length ma).
Proof.
  intros Hb Ha Hp Hs. unfold magnitude_lines, commonSuffixLength.
  rewrite commonPrefixLength_app.
  rewrite (commonPrefixLength_app_zero mb ma suf Hb Ha Hp), Nat.add_0_r.
  rewrite !drop_app_length, !reverse_app, commonPrefixLength_app, Hs.
  rewrite length_reverse, !length_take, !length_app. lia.
Qed.

(** The diff of a list against the list with one line changed. *)
Lemma magnitude_lines_one pre suf x y :
  x <> y -> magnitude_lines (pre ++ x :: suf) (pre ++ y :: suf) = 1.
Proof.
  intros Hxy. unfold magnitude_lines, commonSuffixLength.
  rewrite commonPrefixLength_app. simpl commonPrefixLength.
  apply String.eqb_neq in Hxy. rewrite Hxy, Nat.add_0_r.
  rewrite !drop_app_length, !reverse_cons, commonPrefixLength_app.
  simpl. rewrite Hxy, Nat.add_0_r.
  rewrite length_reverse, !length_take. simpl. lia.
Qed.

(** X1: the changed-line count is never negative and never more than
    the number of lines of the longer text. *)
Theorem countChangedLines_bounded before after :
  (0 <= countChangedLines before after
        <= Z.of_nat (Nat.max (length (split_nl before))
                             (length (split_nl after))))%Z.
Proof.
  rewrite countChangedLines_magnitude. unfold magnitude_spec.
  rewrite !length_take, !length_drop. lia.
Qed.

(** X2: inserting a block of lines anywhere in a text (between two
    lines, before the first or after the last) counts as many changed
    lines as the block has, and so does removing it. *)
Theorem countChangedLines_insert_block pre ins suf :
  pre ++ suf <> [] ->
  Forall (fun l => lf_free l = true) (pre ++ ins ++ suf) ->
  countChangedLines (join_nl (pre ++ suf)) (join_nl (pre ++ ins ++ suf))
  = Z.of_nat (length ins)
  /\ countChangedLines (join_nl (pre ++ ins ++ suf)) (join_nl (pre ++ suf))
     = Z.of_nat (length ins).
Proof.
  intros Hne Hall.
  assert (Hall' : Forall (fun l => lf_free l = true) (pre ++ suf)).
  { apply Forall_app in Hall as [H1 H2]. apply Forall_app in H2 as [_ H2].
    apply Forall_app. now split. }
  assert (Hne' : pre ++ ins ++ suf <> []).
  { intros E. apply Hne. apply app_eq_nil in E as [-> E].
    apply app_eq_nil in E as [_ ->]. reflexivity. }
  assert (H : magnitude_spec (join_nl (pre ++ suf))
                (join_nl (pre ++ ins ++ suf)) = Z.of_nat (length ins)).
  { rewrite magnitude_spec_lines, !split_join_nl by assumption.
    now rewrite magnitude_lines_insert. }
  split.
  - now rewrite countChangedLines_magnitude.
  - now rewrite countChangedLines_magnitude, magnitude_spec_comm.
Qed.

Lemma countChangedLines_insert_block_witness :
  countChangedLines "import os
print(1)" "import os
import sys
import re
print(1)" = 2%Z.
Proof.
  apply (proj1 (countChangedLines_insert_block
                  ["import os"] ["import sys"; "import re"] ["print(1)"]
                  ltac:(discriminate)
                  ltac:(repeat constructor))).
Defined.

Lemma reverse_snoc_cons (x : string) m xb :
  reverse (x :: m ++ [xb]) = xb :: reverse (x :: m).
Proof.
  change (x :: m ++ [xb]) with ((x :: m) ++ [xb]).
  now rewrite reverse_app.
Qed.

Lemma commonPrefixLength_heads (mb ma : list string) :
  head mb <> head ma -> commonPrefixLength mb ma = 0.
Proof.
  destruct mb as [|x mb], ma as [|y ma]; simpl; try reflexivity.
  intros H. destruct (String.eqb_spec x y) as [->|]; [congruence|reflexivity].
Qed.

(** X3: replacing a block of lines of a text by another block, where
    both blocks are non-empty, their first lines differ and their last
    lines differ, counts the length of the longer block, whatever the
    lengths of the two blocks are; so changing one line into a different
    line counts one changed line. *)
Theorem countChangedLines_replace_block pre suf mb ma :
  mb <> [] -> ma <> [] ->
  head mb <> head ma -> last mb <> last ma ->
  Forall (fun l => lf_free l = true) (pre ++ mb ++ ma ++ suf) ->
  countChangedLines (join_nl (pre ++ mb ++ suf)) (join_nl (pre ++ ma ++ suf))
  = Z.of_nat (Nat.max (length mb) (length ma))
  /\ (forall x y, mb = [x] -> ma = [y] ->
      countChangedLines (join_nl (pre ++ x :: suf))
                        (join_nl (pre ++ y :: suf)) = 1%Z).
Proof.
  intros Hb Ha Hh Hl Hall.
  rewrite !Forall_app in Hall.
  destruct Hall as (Hpre & Hmb & Hma & Hsuf).
  assert (H : countChangedLines (join_nl (pre ++ mb ++ suf))
                                (join_nl (pre ++ ma ++ suf))
              = Z.of_nat (Nat.max (length mb) (length ma))).
  { rewrite countChangedLines_magnitude, magnitude_spec_lines.
    rewrite !split_join_nl.
    - f_equal. apply magnitude_lines_replace; auto.
      + now apply commonPrefixLength_heads.
      + apply commonPrefixLength_heads. now rewrite !head_reverse.
    - destruct pre; [|discriminate]. now destruct ma.
    - rewrite !Forall_app. tauto.
    - destruct pre; [|discriminate]. now destruct mb.
    - rewrite !Forall_app. tauto. }
  split; [exact H|]. intros x y -> ->. exact H.
Qed.

Lemma countChangedLines_replace_block_witness :
  countChangedLines "def f():
  return 1
f()" "def f():
  x = 2
  return x
f()" = 2%Z.
Proof.
  apply (proj1 (countChangedLines_replace_block
                  ["def f():"] ["f()"] ["  return 1"]
                  ["  x = 2"; "  return x"]
                  ltac:(discriminate) ltac:(discriminate)
                  ltac:(discriminate) ltac:(discriminate)
                  ltac:(repeat constructor))).
Defined.

End LineEditFacts.

(** ** File switches and applied edits *)

Section WorkspaceFacts.

Lemma handleCodeChange_frame st newCode f :
  f <> currentFile st ->
  filesContent (handleCodeChange st newCode).1 !! f = filesContent st !! f
  /\ pendingAiLineChanges (handleCodeChange st newCode).1 !! f
     = pendingAiLineChanges st !! f.
Proof.
  intros Hf. unfold handleCodeChange.
  destruct (_ >? 0); [destruct (_ >=? _)|]; simpl;
    rewrite ?lookup_insert_ne by congruence; auto.
Qed.

Lemma handleCodeChange_bounded st newCode :
  pendingBounded st -> pendingBounded (handleCodeChange st newCode).1.
Proof.
  intros Hb f n.
  destruct (decide (f = currentFile st)) as [->|Hne].
  - pose proof (handleCodeChange_step st newCode) as (_ & Hcur & H).
    pose proof (countChangedLines_nonneg (contentOf st) newCode) as Hm.
    intros Hn.
    assert (Hp : 0 <= pendingOf st < AI_REFRESH_LINE_THRESHOLD).
    { unfold pendingOf, AI_REFRESH_LINE_THRESHOLD.
      destruct (pendingAiLineChanges st !! currentFile st) as [k|] eqn:E;
        simpl; [apply (Hb _ _ E)|lia]. }
    assert (Hpo : pendingOf (handleCodeChange st newCode).1 = n
                  \/ pendingAiLineChanges (handleCodeChange st newCode).1
                       !! currentFile st = None).
    { left. unfold pendingOf. now rewrite Hcur, Hn. }
    destruct Hpo as [Hpo|Hpo]; [|congruence].
    unfold AI_REFRESH_LINE_THRESHOLD in *.
    destruct (Z.gtb_spec (countChangedLines (contentOf st) newCode) 0);
      destruct (Z.geb_spec
                  (pendingOf st + countChangedLines (contentOf st) newCode) 5);
      simpl in H; destruct H as (_ & _ & H); lia.
  - destruct (handleCodeChange_frame st newCode f Hne) as [_ ->].
    apply Hb.
Qed.

(** X4: whatever is typed into the active file, the other files keep
    their content and their pending counts, the active file stays the
    same and holds the last text typed, and every pending count stays at
    least 0 and below the refresh threshold. *)
Theorem editSequence_frame st edits :
  pendingBounded st ->
  let st' := (editSequence st edits).1 in
  currentFile st' = currentFile st
  /\ (forall f, f <> currentFile st ->
      filesContent st' !! f = filesContent st !! f
      /\ pendingAiLineChanges st' !! f = pendingAiLineChanges st !! f)
  /\ contentOf st' = default (contentOf st) (last edits)
  /\ pendingBounded st'.
Proof.
  revert st. induction edits as [|c edits IH]; intros st Hb; simpl.
  - split; [reflexivity|]. split; [auto|]. split; [reflexivity|exact Hb].
  - pose proof (handleCodeChange_step st c) as (Hc & Hf & _).
    pose proof (handleCodeChange_bounded st c Hb) as Hb1.
    destruct (handleCodeChange st c) as [st1 r1] eqn:E1. simpl in *.
    specialize (IH st1 Hb1).
    destruct (editSequence st1 edits) as [st2 rs] eqn:E2. simpl in *.
    destruct IH as (I1 & I2 & I3 & I4).
    split; [congruence|]. split; [|split; [|exact I4]].
    + intros f Hne. rewrite Hf in I2.
      destruct (I2 f Hne) as [-> ->].
      pose proof (handleCodeChange_frame st c f Hne) as Hfr.
      now rewrite E1 in Hfr.
    + rewrite I3, Hc, last_cons. now destruct (last edits).
Qed.

Lemma editSequence_frame_witness :
  contentOf
    (editSequence
       {| filesContent := {["main.py" := "a"; "utils.py" := "b"]};
          currentFile := "main.py"; aiPanelCode := "a";
          pendingAiLineChanges := ∅ |} ["x"; "y"]).1
  = "y".
Proof.
  refine (proj1 (proj2 (proj2 (editSequence_frame
           {| filesContent := {["main.py" := "a"; "utils.py" := "b"]};
              currentFile := "main.py"; aiPanelCode := "a";
              pendingAiLineChanges := ∅ |} ["x"; "y"] _)))).
  intros f n H. simpl in H. rewrite lookup_empty in H. discriminate.
Defined.

Lemma inherited_proto : inherited "__proto__" = true.
Proof. reflexivity. Qed.

Lemma contentOrEmpty_plain (fc : gmap string string) k :
  inherited k = false -> contentOrEmpty fc k = Some (default "" (fc !! k)).
Proof.
  intros H. unfold contentOrEmpty. rewrite H. now destruct (fc !! k).
Qed.

Lemma refWrite_plain (ref : gmap string Z) k v :
  k <> "__proto__" -> refWrite ref k v = <[k := v]> ref.
Proof.
  intros H. unfold refWrite. now rewrite (proj2 (String.eqb_neq _ _) H).
Qed.

Lemma not_inherited_not_proto k : inherited k = false -> k <> "__proto__".
Proof. intros H ->. now rewrite inherited_proto in H. Qed.

(** X5: selecting a file other than the one the panel was seeded from,
    whose name is not a member name of [Object.prototype], seeds the
    panel with that file's content (the empty text if it has none),
    clears the selection and sets that file's pending count to 0, so
    that the first edit afterwards refreshes the preview exactly when it
    changes at least [AI_REFRESH_LINE_THRESHOLD] lines; selecting the
    file the panel was seeded from changes nothing, and running the
    effect again changes nothing. *)
Theorem selectFile_seeds_panel w name :
  currentFile (app w) = previousAiFile w ->
  (name <> previousAiFile w -> inherited name = false ->
   exists w',
     selectFile w name = Some w'
     /\ currentFile (app w') = name
     /\ previousAiFile w' = name
     /\ aiPanelCode (app w') = default "" (filesContent (app w) !! name)
     /\ selectedCode w' = ""
     /\ pendingOf (app w') = 0
     /\ filesContent (app w') = filesContent (app w)
     /\ (forall newCode,
         is_refresh (handleCodeChange (app w') newCode).2 = true
         <-> AI_REFRESH_LINE_THRESHOLD
             <= countChangedLines (contentOf (app w')) newCode))
  /\ (name = previousAiFile w -> selectFile w name = Some w)
  /\ (forall w', selectFile w name = Some w' -> fileSwitchEffect w' = Some w').
Proof.
  intros Hcur. split; [|split].
  - intros Hne Hplain. unfold selectFile, fileSwitchEffect. simpl.
    destruct (String.eqb_spec (previousAiFile w) name) as [E|_];
      [congruence|]. simpl.
    rewrite (contentOrEmpty_plain _ _ Hplain),
      (refWrite_plain _ _ _ (not_inherited_not_proto _ Hplain)).
    eexists. split; [reflexivity|]. simpl.
    set (st' := {| filesContent := filesContent (app w);
                   currentFile := name;
                   aiPanelCode := default "" (filesContent (app w) !! name);
                   pendingAiLineChanges :=
                     <[name:=0]> (pendingAiLineChanges (app w)) |}).
    assert (Hp : pendingOf st' = 0)
      by (unfold pendingOf; simpl; now rewrite lookup_insert_eq).
    split; [reflexivity|]. split; [reflexivity|]. split; [reflexivity|].
    split; [reflexivity|]. split; [exact Hp|]. split; [reflexivity|].
    intros newCode.
    pose proof (handleCodeChange_step st' newCode) as (_ & _ & Hs).
    rewrite Hp in Hs. unfold AI_REFRESH_LINE_THRESHOLD in *.
    destruct (Z.gtb_spec (countChangedLines (contentOf st') newCode) 0);
      destruct (Z.geb_spec
                  (0 + countChangedLines (contentOf st') newCode) 5);
      simpl in Hs; destruct Hs as (Hr & _); rewrite Hr; simpl;
      split; intros Hq; try reflexivity; try discriminate; lia.
  - intros ->. unfold selectFile, fileSwitchEffect. simpl.
    rewrite String.eqb_refl. simpl. destruct w as [[fc cf ap pe] pf sc].
    simpl in *. now subst cf.
  - intros w'. unfold selectFile, fileSwitchEffect. simpl.
    destruct (String.eqb_spec (previousAiFile w) name) as [E|E]; simpl.
    + intros [= <-]. simpl. rewrite E, String.eqb_refl. reflexivity.
    + destruct (contentOrEmpty _ _); [|discriminate].
      intros [= <-]. simpl. now rewrite String.eqb_refl.
Qed.

Lemma selectFile_seeds_panel_witness :
  exists w',
    selectFile
      {| app := {| filesContent := {["main.py" := "a"; "utils.py" := "b"]};
                   currentFile := "main.py"; aiPanelCode := "a";
                   pendingAiLineChanges := {["utils.py" := 4]} |};
         previousAiFile := "main.py"; selectedCode := "a" |}
      "utils.py" = Some w'
    /\ aiPanelCode (app w') = "b".
Proof.
  destruct (proj1 (selectFile_seeds_panel
           {| app := {| filesContent := {["main.py" := "a"; "utils.py" := "b"]};
                        currentFile := "main.py"; aiPanelCode := "a";
                        pendingAiLineChanges := {["utils.py" := 4]} |};
              previousAiFile := "main.py"; selectedCode := "a" |}
           "utils.py" eq_refl) ltac:(discriminate) eq_refl)
    as (w' & H1 & _ & _ & H2 & _).
  exists w'. split; [exact H1|exact H2].
Defined.

(** X6: applying an AI edit never adds or removes a file: the active
    file gets the new content when it has an entry in [filesContent],
    and nothing is stored when there is no active file or it has no
    entry.  The later version of the handler sets the panel snapshot to
    the new content even when nothing is stored, and clears the pending
    count of the active file unless that file is named [__proto__], for
    which the write is ignored and the counts stay as they are. *)
Theorem applyAIChange_keeps_files st newCode :
  let st1 := handleApplyAIChangeToActiveFile st newCode in
  let st2 := handleApplyAIChangeToActiveFile_synced st newCode in
  dom (filesContent st1) = dom (filesContent st)
  /\ filesContent st2 = filesContent st1
  /\ (currentFile st <> "" -> is_Some (filesContent st !! currentFile st) ->
      filesContent st1 = <[currentFile st := newCode]> (filesContent st))
  /\ (currentFile st = "" \/ filesContent st !! currentFile st = None ->
      st1 = st)
  /\ aiPanelCode st2 = newCode
  /\ (currentFile st <> "__proto__" ->
      pendingAiLineChanges st2
      = <[currentFile st := 0]> (pendingAiLineChanges st)
      /\ pendingOf st2 = 0)
  /\ (currentFile st = "__proto__" ->
      pendingAiLineChanges st2 = pendingAiLineChanges st).
Proof.
  intros st1 st2. subst st1 st2.
  assert (Hw : (currentFile st <> "__proto__" ->
                refWrite (pendingAiLineChanges st) (currentFile st) 0
                = <[currentFile st := 0]> (pendingAiLineChanges st)
                /\ default 0 (refWrite (pendingAiLineChanges st)
                                (currentFile st) 0 !! currentFile st) = 0)
               /\ (currentFile st = "__proto__" ->
                   refWrite (pendingAiLineChanges st) (currentFile st) 0
                   = pendingAiLineChanges st)).
  { split.
    - intros Hne. rewrite (refWrite_plain _ _ _ Hne).
      split; [reflexivity|]. now rewrite lookup_insert_eq.
    - intros ->. reflexivity. }
  destruct Hw as [Hw1 Hw2].
  unfold handleApplyAIChangeToActiveFile,
    handleApplyAIChangeToActiveFile_synced, pendingOf. simpl.
  destruct (truthy (currentFile st)) eqn:Ht; simpl.
  - destruct (bool_decide_reflect
                (is_Some (filesContent st !! currentFile st))) as [Hs|Hn];
      simpl.
    + split.
      { apply set_eq. intros f. rewrite dom_insert_L.
        rewrite elem_of_union, elem_of_singleton.
        split; [intros [->|H]; [now apply elem_of_dom|exact H]|tauto]. }
      split; [reflexivity|]. split; [reflexivity|]. split.
      { intros [E|E]; [apply truthy_true in Ht; congruence|].
        rewrite E in Hs. now destruct Hs. }
      split; [reflexivity|]. split; [exact Hw1|exact Hw2].
    + split; [reflexivity|]. split; [reflexivity|]. split.
      { intros _ Hs. contradiction. }
      split; [reflexivity|]. split; [reflexivity|].
      split; [exact Hw1|exact Hw2].
  - apply truthy_false in Ht.
    split; [reflexivity|]. split; [reflexivity|]. split.
    { intros Hne. congruence. }
    split; [reflexivity|]. split; [reflexivity|].
    split; [exact Hw1|exact Hw2].
Qed.

Lemma applyAIChange_keeps_files_witness :
  filesContent
    (handleApplyAIChangeToActiveFile
       {| filesContent := {["main.py" := "a"]}; currentFile := "main.py";
          aiPanelCode := "a"; pendingAiLineChanges := ∅ |} "x = 1")
  = <["main.py" := "x = 1"]> {["main.py" := "a"]}.
Proof.
  exact (proj1 (proj2 (proj2 (applyAIChange_keeps_files
           {| filesContent := {["main.py" := "a"]}; currentFile := "main.py";
              aiPanelCode := "a"; pendingAiLineChanges := ∅ |} "x = 1")))
           ltac:(discriminate) ltac:(vm_compute; eauto)).
Defined.

End WorkspaceFacts.

(** ** More on the function extractor *)

Section UnitStructureFacts.

Local Open Scope nat_scope.

Implicit Types (lines : list string) (d i k : nat).

Lemma span_while_all p s : all_chars p (span_while p s).1 = true.
Proof.
  induction s as [|c s IH]; simpl; [reflexivity|].
  destruct (p c) eqn:E; [|reflexivity].
  destruct (span_while p s) as [w r]. simpl in *. now rewrite E, IH.
Qed.

(** The name the [def] pattern captures is an identifier. *)
Lemma defMatch_identifier l name :
  defMatch l = Some name -> is_identifier name = true.
Proof.
  unfold defMatch. destruct (eat "def" (trimStart l)) as [s2|]; [|discriminate].
  destruct (span_while is_space s2) as [[|w0 ws] [|c s3]]; try discriminate.
  destruct (is_ident_start c) eqn:Ec; [|discriminate].
  pose proof (span_while_all is_word s3) as Hw.
  destruct (span_while is_word s3) as [w s4]. simpl in Hw.
  destruct (trimStart s4) as [|c' r]; [discriminate|].
  destruct (Ascii.ascii_dec c' "(") as [->|Hne]; [|].
  - intros [= <-]. simpl. now rewrite Ec, Hw.
  - destruct c' as [[] [] [] [] [] [] [] []]; try discriminate;
      congruence.
Qed.

(** What the upward scan steps over, and where it stops. *)
Lemma extendStart_spec lines d s :
  let s' := extendStart lines d s in
  s' <= s
  /\ (forall k, s' <= k < s ->
      blank (line lines k) = false
      /\ decoratorMatch (line lines k) = true
      /\ normalizeIndent (line lines k) = d)
  /\ (0 < s' ->
      blank (line lines (s' - 1)) = true
      \/ decoratorMatch (line lines (s' - 1)) = false
      \/ normalizeIndent (line lines (s' - 1)) <> d).
Proof.
  induction s as [|p IH]; simpl.
  - split; [lia|]. split; [intros k Hk; lia|intros H; lia].
  - destruct (blank (line lines p)) eqn:B.
    { split; [lia|]. split; [intros k Hk; lia|].
      intros _. cbn [Nat.sub]. rewrite Nat.sub_0_r. now left. }
    destruct (decoratorMatch (line lines p)) eqn:Dm; simpl.
    2:{ split; [lia|]. split; [intros k Hk; lia|].
        intros _. cbn [Nat.sub]. rewrite Nat.sub_0_r. right. now left. }
    destruct (Nat.eqb_spec (normalizeIndent (line lines p)) d) as [E|E];
      simpl.
    2:{ split; [lia|]. split; [intros k Hk; lia|].
        intros _. cbn [Nat.sub]. rewrite Nat.sub_0_r. right. now right. }
    destruct IH as (I1 & I2 & I3).
    split; [lia|]. split; [|exact I3].
    intros k Hk. destruct (Nat.eq_dec k p) as [->|Hne]; [auto|].
    apply I2. lia.
Qed.

(** Every span the scan gives was opened by a [def] line. *)
Lemma scanFrom_opener fuel lines :
  forall i sp, sp ∈ scanFrom fuel lines i ->
  exists o, i <= o < length lines
    /\ defMatch (line lines o) = Some (span_name sp)
    /\ span_start sp
       = extendStart lines (normalizeIndent (line lines o)) o
    /\ span_end sp
       = extendEnd (normalizeIndent (line lines o))
           (drop (o + 1) lines) (o + 1).
Proof.
  induction fuel as [|fuel IH]; intros i sp Hin; simpl in Hin.
  - now apply elem_of_nil in Hin.
  - destruct (Nat.ltb_spec i (length lines)) as [Hi|Hi];
      [|now apply elem_of_nil in Hin].
    destruct (defMatch (line lines i)) as [name|] eqn:Hdef.
    + apply elem_of_cons in Hin as [->|Hin].
      * exists i. simpl. repeat split; auto; lia.
      * destruct (extendEnd_spec lines (normalizeIndent (line lines i))
                    (length lines - (i + 1)) (i + 1))
          as (H1 & _ & _); [lia|lia|].
        destruct (IH _ _ Hin) as (o & Ho & H). exists o.
        split; [lia|exact H].
    + destruct (IH _ _ Hin) as (o & Ho & H). exists o.
      split; [lia|exact H].
Qed.

Lemma scanFrom_no_def fuel lines :
  forall i, (forall k, i <= k < length lines ->
             defMatch (line lines k) = None) ->
  scanFrom fuel lines i = [].
Proof.
  induction fuel as [|fuel IH]; intros i Hno; simpl; [reflexivity|].
  destruct (Nat.ltb_spec i (length lines)) as [Hi|Hi]; [|reflexivity].
  rewrite (Hno i) by lia. apply IH. intros k Hk. apply Hno. lia.
Qed.

(** X7: [extractPythonFunctions] returns no unit exactly when no line of
    the text matches the [def] pattern; [analyzeCode] then ends at once
    with the notice that no functions were found and the busy flag off,
    sending nothing, and otherwise (with the key set) it starts a run
    over the extracted units with the busy flag on. *)
Theorem no_units_iff_no_def_line codeContent :
  let lines := split_nl codeContent in
  (extractPythonFunctions codeContent = []
   <-> forall k, k < length lines -> defMatch (line lines k) = None)
  /\ (forall hasKey mode st name,
      extractPythonFunctions codeContent = [] ->
      analyzeCode hasKey mode st codeContent name
      = ({| analysisRunRef := analysisRunRef st + 1;
            explanation := "No Python functions found for analysis.";
            isAnalyzing := false;
            lastGeminiResponse := "" |}, None))
  /\ (forall mode st name,
      extractPythonFunctions codeContent <> [] ->
      (analyzeCode true mode st codeContent name).2
      = Some {| runId := analysisRunRef st + 1; run_mode := mode;
                run_name := name;
                extractedFunctions := extractPythonFunctions codeContent;
                run_i := 0 |}
      /\ isAnalyzing (analyzeCode true mode st codeContent name).1 = true).
Proof.
  intros lines. split; [|split].
  - unfold extractPythonFunctions, extractSpans. fold lines. split.
    + intros Hnil k Hk.
      destruct (defMatch (line lines k)) as [name|] eqn:Hdef; [|reflexivity].
      destruct (scanFrom_covers (length lines) lines 0 ltac:(lia) k
                  ltac:(lia) ltac:(rewrite Hdef; eauto)) as (sp & Hin & _).
      apply fmap_nil_inv in Hnil. rewrite Hnil in Hin.
      now apply elem_of_nil in Hin.
    + intros Hno. rewrite scanFrom_no_def; [reflexivity|].
      intros k Hk. apply Hno. lia.
  - intros hasKey mode st name Hnil. unfold analyzeCode.
    now rewrite Hnil.
  - intros mode st name Hne. unfold analyzeCode.
    destruct (extractPythonFunctions codeContent) as [|u us] eqn:E;
      [congruence|].
    simpl. unfold loopHead. simpl. rewrite Nat.eqb_refl. simpl. auto.
Qed.

Lemma no_units_iff_no_def_line_witness :
  extractPythonFunctions "import os
print(os.name)" = [].
Proof.
  apply (proj1 (no_units_iff_no_def_line "import os
print(os.name)")).
  intros k Hk.
  destruct k as [|[|k]]; [reflexivity|reflexivity|].
  vm_compute in Hk. lia.
Defined.

(** X8: the name of every extracted unit is an identifier: it starts
    with a letter or an underscore and holds only letters, digits and
    underscores. *)
Theorem unit_name_is_identifier codeContent u :
  u ∈ extractPythonFunctions codeContent ->
  is_identifier (functionName u) = true.
Proof.
  unfold extractPythonFunctions. intros Hin.
  apply list_elem_of_fmap in Hin as (sp & -> & Hsp). simpl.
  destruct (scanFrom_opener _ _ _ _ Hsp) as (o & _ & Hdef & _).
  eapply defMatch_identifier; eauto.
Qed.

Lemma unit_name_is_identifier_witness :
  is_identifier "load_2" = true.
Proof.
  apply (unit_name_is_identifier "def load_2 (path):
    return open(path)" {| functionName := "load_2"; source := "def load_2 (path):
    return open(path)" |}).
  vm_compute. apply list_elem_of_here.
Defined.

(** X9: every unit is built around one [def] line: the lines of the unit
    above it are non-blank decorator lines at the indentation of the
    [def], the line right above the unit (if any) is not such a line,
    every line of the unit below the [def] is blank or indented deeper
    than the [def], and the line right after the unit (if any) is a
    non-blank line indented no deeper than the [def]. *)
Theorem unit_span_structure codeContent sp :
  let lines := split_nl codeContent in
  sp ∈ extractSpans codeContent ->
  exists o,
    span_start sp <= o < span_end sp /\ span_end sp <= length lines
    /\ defMatch (line lines o) = Some (span_name sp)
    /\ (forall k, span_start sp <= k < o ->
        blank (line lines k) = false
        /\ decoratorMatch (line lines k) = true
        /\ normalizeIndent (line lines k) = normalizeIndent (line lines o))
    /\ (0 < span_start sp ->
        blank (line lines (span_start sp - 1)) = true
        \/ decoratorMatch (line lines (span_start sp - 1)) = false
        \/ normalizeIndent (line lines (span_start sp - 1))
           <> normalizeIndent (line lines o))
    /\ (forall k, o < k < span_end sp ->
        blank (line lines k) = true
        \/ normalizeIndent (line lines o) < normalizeIndent (line lines k))
    /\ (span_end sp < length lines ->
        blank (line lines (span_end sp)) = false
        /\ normalizeIndent (line lines (span_end sp))
           <= normalizeIndent (line lines o)).
Proof.
  intros lines Hin. unfold extractSpans in Hin. fold lines in Hin.
  destruct (scanFrom_opener _ _ _ _ Hin) as (o & Ho & Hdef & Hs & He).
  set (d := normalizeIndent (line lines o)) in *.
  destruct (extendStart_spec lines d o) as (S1 & S2 & S3).
  destruct (extendEnd_spec lines d (length lines - (o + 1)) (o + 1))
    as (E1 & E2 & E3); [lia|lia|].
  rewrite <- Hs in S1, S2, S3. rewrite <- He in E1, E2, E3.
  exists o. split; [lia|]. split; [lia|]. split; [exact Hdef|].
  split; [intros k Hk; apply S2; lia|]. split; [exact S3|].
  split; [intros k Hk; apply E2; lia|exact E3].
Qed.

Lemma unit_span_structure_witness :
  exists o,
    1 <= o < 4
    /\ defMatch (line (split_nl "x = 1
@cache
def f(a):
    return a
y = 2") o) = Some "f".
Proof.
  destruct (unit_span_structure "x = 1
@cache
def f(a):
    return a
y = 2" {| span_start := 1; span_end := 4; span_name := "f" |})
    as (o & Ho & _ & Hdef & _).
  - vm_compute. apply list_elem_of_here.
  - exists o. split; [exact Ho|exact Hdef].
Defined.

(** X10: a [def] line that is not indented always opens a unit of its
    own: it is never taken into the unit of a function above it. *)
Theorem top_level_def_opens_unit codeContent k name :
  let lines := split_nl codeContent in
  k < length lines ->
  defMatch (line lines k) = Some name ->
  normalizeIndent (line lines k) = 0 ->
  exists sp,
    sp ∈ extractSpans codeContent
    /\ span_name sp = name
    /\ span_start sp = extendStart lines 0 k
    /\ span_end sp = extendEnd 0 (drop (k + 1) lines) (k + 1)
    /\ span_start sp <= k < span_end sp.
Proof.
  intros lines Hk Hdef Hind. unfold extractSpans. fold lines.
  assert (Hgen : forall fuel i, length lines - i <= fuel -> i <= k ->
            exists sp, sp ∈ scanFrom fuel lines i
              /\ span_name sp = name
              /\ span_start sp = extendStart lines 0 k
              /\ span_end sp = extendEnd 0 (drop (k + 1) lines) (k + 1)).
  { induction fuel as [|fuel IH]; intros i Hf Hi; [lia|]. simpl.
    destruct (Nat.ltb_spec i (length lines)) as [Hil|Hil]; [|lia].
    destruct (Nat.eq_dec i k) as [->|Hne].
    - rewrite Hdef, Hind. eexists. split; [apply list_elem_of_here|].
      simpl. auto.
    - destruct (defMatch (line lines i)) as [n'|] eqn:Hd.
      + set (d := normalizeIndent (line lines i)).
        destruct (extendEnd_spec lines d (length lines - (i + 1)) (i + 1))
          as (E1 & E2 & _); [lia|lia|].
        set (e := extendEnd d (drop (i + 1) lines) (i + 1)) in *.
        assert (He : e <= k).
        { destruct (Nat.le_gt_cases e k) as [|Hgt]; [assumption|].
          destruct (E2 k ltac:(lia)) as [B|B].
          - rewrite (defMatch_not_blank _ _ Hdef) in B. discriminate.
          - rewrite Hind in B. lia. }
        destruct (IH e ltac:(lia) He) as (sp & Hin & H).
        exists sp. split; [now apply list_elem_of_further|exact H].
      + destruct (IH (i + 1) ltac:(lia) ltac:(lia)) as (sp & Hin & H).
        now exists sp. }
  destruct (Hgen (length lines) 0 ltac:(lia) ltac:(lia))
    as (sp & Hin & Hn & Hs & He).
  exists sp. repeat split; auto.
  - rewrite Hs. apply extendStart_le.
  - rewrite He.
    destruct (extendEnd_spec lines 0 (length lines - (k + 1)) (k + 1))
      as (E1 & _ & _); [lia|lia|]. lia.
Qed.

Lemma top_level_def_opens_unit_witness :
  exists sp,
    sp ∈ extractSpans "def f():
    pass
def g():
    pass"
    /\ span_name sp = "g".
Proof.
  destruct (top_level_def_opens_unit "def f():
    pass
def g():
    pass" 2 "g") as (sp & Hin & Hn & _).
  - vm_compute. lia.
  - reflexivity.
  - reflexivity.
  - exists sp. split; [exact Hin|exact Hn].
Defined.

End UnitStructureFacts.

(** ** Invariants of the analysis runs *)

Section RunInvariantFacts.

Local Open Scope nat_scope.

Variable JSON_parse : string -> option json.

Abbreviation mergeReply' := (mergeReply JSON_parse).
Abbreviation resumeRun' := (resumeRun JSON_parse).
Abbreviation step' := (step JSON_parse).
Abbreviation steps' := (steps JSON_parse).

Lemma takeRun_spec id rs r rest :
  takeRun id rs = Some (r, rest) ->
  runId r = id
  /\ exists l1 l2, rs = l1 ++ r :: l2 /\ rest = l1 ++ l2.
Proof.
  revert r rest. induction rs as [|x rs IH]; intros r rest; simpl;
    [discriminate|].
  destruct (Nat.eqb_spec (runId x) id) as [E|E].
  - intros [= <- <-]. split; [exact E|]. now exists [], rs.
  - destruct (takeRun id rs) as [[r' rest']|]; [|discriminate].
    intros [= <- <-]. destruct (IH r' rest' eq_refl) as (H1 & l1 & l2 & -> & ->).
    split; [exact H1|]. now exists (x :: l1), l2.
Qed.

Lemma mergeReply_ref st batch reply :
  analysisRunRef (mergeReply' st batch reply) = analysisRunRef st
  /\ isAnalyzing (mergeReply' st batch reply) = isAnalyzing st.
Proof.
  unfold mergeReply. destruct reply as [|text]; simpl; [auto|].
  destruct (parseJsonFromModelText JSON_parse text); simpl; auto.
Qed.

Lemma loopHead_spec st r :
  analysisRunRef (loopHead st r).1 = analysisRunRef st
  /\ ((loopHead st r).2 = None
      \/ (loopHead st r).2 = Some r
         /\ run_i r < length (extractedFunctions r)
         /\ runId r = analysisRunRef st
         /\ (loopHead st r).1 = st).
Proof.
  unfold loopHead.
  destruct (Nat.ltb_spec (run_i r) (length (extractedFunctions r)));
    destruct (Nat.eqb_spec (analysisRunRef st) (runId r)); simpl; auto.
  split; [reflexivity|]. right. auto.
Qed.

Lemma resumeRun_spec st r reply :
  analysisRunRef (resumeRun' st r reply).1 = analysisRunRef st
  /\ forall r', (resumeRun' st r reply).2 = Some r' ->
       runId r' = runId r
       /\ extractedFunctions r' = extractedFunctions r
       /\ run_i r' = run_i r + batchSize
       /\ run_i r' < length (extractedFunctions r')
       /\ runId r = analysisRunRef st.
Proof.
  unfold resumeRun.
  set (st1 := mergeReply' st (currentBatch r) reply).
  set (r1 := {| runId := runId r; run_mode := run_mode r;
                run_name := run_name r;
                extractedFunctions := extractedFunctions r;
                run_i := run_i r + batchSize |}).
  destruct (mergeReply_ref st (currentBatch r) reply) as [Hr _].
  fold st1 in Hr.
  destruct (loopHead_spec st1 r1) as [H1 H2]. split; [congruence|].
  intros r' Hr'. destruct H2 as [H2|(H2 & H3 & H4 & _)]; [congruence|].
  rewrite H2 in Hr'. injection Hr' as <-. simpl in *.
  repeat split; auto. congruence.
Qed.

Lemma analyzeCode_spec hasKey mode st codeContent name :
  analysisRunRef (analyzeCode hasKey mode st codeContent name).1
  = analysisRunRef st + 1
  /\ forall r, (analyzeCode hasKey mode st codeContent name).2 = Some r ->
       runId r = analysisRunRef st + 1
       /\ run_i r < length (extractedFunctions r).
Proof.
  unfold analyzeCode.
  destruct (length (extractPythonFunctions codeContent) =? 0);
    simpl; [split; [reflexivity|discriminate]|].
  destruct hasKey; simpl; [|split; [reflexivity|discriminate]].
  set (st2 := setExplanation _ _). set (r0 := Build_Run _ _ _ _ _).
  destruct (loopHead_spec st2 r0) as [H1 H2].
  split; [exact H1|]. intros r Hr.
  destruct H2 as [H2|(H2 & H3 & H4 & _)]; [congruence|].
  rewrite H2 in Hr. injection Hr as <-. now split.
Qed.

Lemma wellFormed_step hasKey mode sys ev :
  wellFormed sys ->
  wellFormed (step' hasKey mode sys ev)
  /\ analysisRunRef (panel sys)
     <= analysisRunRef (panel (step' hasKey mode sys ev)).
Proof.
  intros [Hnd Hall]. destruct ev as [codeContent name| |id reply]; simpl.
  - destruct (analyzeCode_spec hasKey mode (panel sys) codeContent name)
      as [Hr Hrun].
    destruct (analyzeCode hasKey mode (panel sys) codeContent name)
      as [st r] eqn:E. simpl in *. split; [|lia].
    split; simpl.
    + rewrite fmap_app. apply NoDup_app. split; [exact Hnd|].
      split.
      * intros x Hx Hx'. destruct r as [r|]; simpl in Hx';
          [|now apply elem_of_nil in Hx'].
        apply list_elem_of_singleton in Hx'. subst x.
        apply list_elem_of_fmap in Hx as (r0 & Hid & Hin).
        rewrite Forall_forall in Hall.
        destruct (Hall r0 Hin) as [Hle _].
        destruct (Hrun r eq_refl) as [Hid' _]. lia.
      * destruct r; simpl; [apply NoDup_singleton|apply NoDup_nil_2].
    + apply Forall_app. split.
      * eapply Forall_impl; [exact Hall|]. simpl. intros r0 [H1 H2].
        split; [lia|exact H2].
      * destruct r as [r|]; simpl; [|constructor].
        destruct (Hrun r eq_refl) as [Hid Hi].
        constructor; [|constructor]. split; [lia|exact Hi].
  - split; [|lia]. split; simpl; [exact Hnd|].
    eapply Forall_impl; [exact Hall|]. simpl. intros r0 [H1 H2].
    split; [lia|exact H2].
  - destruct (takeRun id (suspended sys)) as [[r rest]|] eqn:Et;
      [|split; [now split|lia]].
    destruct (takeRun_spec _ _ _ _ Et) as (Hid & l1 & l2 & Hs & ->).
    destruct (resumeRun_spec (panel sys) r reply) as [Hr Hrun].
    destruct (resumeRun' (panel sys) r reply) as [st r'] eqn:E.
    simpl in *. split; [|lia].
    rewrite Hs in Hnd, Hall.
    rewrite fmap_app, fmap_cons in Hnd.
    apply NoDup_app in Hnd as (N1 & N2 & N3).
    apply NoDup_cons in N3 as [N3 N4].
    apply Forall_app in Hall as [A1 A2].
    apply Forall_cons in A2 as [A2 A3].
    split; simpl.
    + rewrite !fmap_app. rewrite <- app_assoc.
      apply NoDup_app. split; [exact N1|]. split.
      * intros x Hx Hx'. apply elem_of_app in Hx' as [Hx'|Hx'].
        -- apply (N2 x Hx). now apply list_elem_of_further.
        -- destruct r' as [r'|]; simpl in Hx';
             [|now apply elem_of_nil in Hx'].
           apply list_elem_of_singleton in Hx'. subst x.
           destruct (Hrun r' eq_refl) as (Hid' & _).
           apply (N2 (runId r') Hx). rewrite Hid'.
           apply list_elem_of_here.
      * apply NoDup_app. split; [exact N4|]. split.
        -- intros x Hx Hx'. destruct r' as [r'|]; simpl in Hx';
             [|now apply elem_of_nil in Hx'].
           apply list_elem_of_singleton in Hx'. subst x.
           destruct (Hrun r' eq_refl) as (Hid' & _).
           apply N3. now rewrite <- Hid'.
        -- destruct r'; simpl; [apply NoDup_singleton|apply NoDup_nil_2].
    + rewrite Hr. rewrite <- app_assoc. apply Forall_app. split; [exact A1|].
      apply Forall_app. split; [exact A3|].
      destruct r' as [r'|]; simpl; [|constructor].
      destruct (Hrun r' eq_refl) as (Hid' & _ & _ & Hi' & _).
      constructor; [|constructor]. split; [|exact Hi'].
      rewrite Hid'. apply A2.
Qed.

Lemma NoDup_fmap_same {A B} (f : A -> B) (l : list A) x y :
  NoDup (f <$> l) -> x ∈ l -> y ∈ l -> f x = f y -> x = y.
Proof.
  induction l as [|a l IH]; intros Hnd Hx Hy Hf.
  - now apply elem_of_nil in Hx.
  - rewrite fmap_cons in Hnd. apply NoDup_cons in Hnd as [Hn Hnd].
    apply elem_of_cons in Hx as [->|Hx];
      apply elem_of_cons in Hy as [->|Hy]; auto.
    + exfalso. apply Hn. rewrite Hf. now apply list_elem_of_fmap_2.
    + exfalso. apply Hn. rewrite <- Hf. now apply list_elem_of_fmap_2.
Qed.

(** X11: whatever happens to the panel (timers firing, effect cleanups,
    requests ending, in any order), the run counter never goes down, the
    suspended runs keep pairwise different ids that are at most the
    counter, each waits for a batch that exists, and at most one of them
    is the latest run. *)
Theorem run_ids_stay_distinct hasKey mode sys evs :
  wellFormed sys ->
  let sys' := steps' hasKey mode sys evs in
  wellFormed sys'
  /\ analysisRunRef (panel sys) <= analysisRunRef (panel sys')
  /\ (forall r1 r2, r1 ∈ suspended sys' -> r2 ∈ suspended sys' ->
      runId r1 = analysisRunRef (panel sys') ->
      runId r2 = analysisRunRef (panel sys') -> r1 = r2).
Proof.
  intros Hwf.
  assert (H : wellFormed (steps' hasKey mode sys evs)
              /\ analysisRunRef (panel sys)
                 <= analysisRunRef (panel (steps' hasKey mode sys evs))).
  { revert sys Hwf. unfold steps.
    induction evs as [|ev evs IH]; intros sys Hwf; simpl; [auto|].
    destruct (wellFormed_step hasKey mode sys ev Hwf) as [H1 H2].
    destruct (IH _ H1) as [H3 H4]. split; [exact H3|lia]. }
  destruct H as [H1 H2]. split; [exact H1|]. split; [exact H2|].
  intros r1 r2 Hr1 Hr2 E1 E2. destruct H1 as [Hnd _].
  eapply NoDup_fmap_same; eauto. congruence.
Qed.

(** X12: when the request of a superseded run ends, the run sends no
    further batch and leaves the run counter and the busy flag as they
    are. *)
Theorem stale_run_stops st r reply :
  analysisRunRef st <> runId r ->
  (resumeRun JSON_parse st r reply).2 = None
  /\ analysisRunRef (resumeRun JSON_parse st r reply).1 = analysisRunRef st
  /\ isAnalyzing (resumeRun JSON_parse st r reply).1 = isAnalyzing st.
Proof.
  intros Hstale. unfold resumeRun, loopHead. simpl.
  destruct (mergeReply_ref st (currentBatch r) reply) as [Hr Ha].
  rewrite Hr.
  destruct (Nat.eqb_spec (analysisRunRef st) (runId r)); [contradiction|].
  simpl. destruct (_ <? _); simpl; auto.
Qed.

Lemma resumeRun_current st r reply :
  analysisRunRef st = runId r ->
  resumeRun' st r reply
  = if run_i r + batchSize <? length (extractedFunctions r) then
      (mergeReply' st (currentBatch r) reply,
       Some {| runId := runId r; run_mode := run_mode r;
               run_name := run_name r;
               extractedFunctions := extractedFunctions r;
               run_i := run_i r + batchSize |})
    else (setIsAnalyzing (mergeReply' st (currentBatch r) reply) false, None).
Proof.
  intros Href. unfold resumeRun, loopHead.
  cbn [runId run_i extractedFunctions].
  rewrite (proj1 (mergeReply_ref st (currentBatch r) reply)), Href,
    Nat.eqb_refl.
  cbn [negb]. now destruct (_ <? _).
Qed.

(** X13: a run that stays the latest sends its batches one at a time,
    the next one only after the reply to the previous one, and the
    batches it sends are exactly the batches of its unit list, in
    order. *)
Theorem current_run_sends_batches_in_order st r replies :
  run_i r = 0 -> extractedFunctions r <> [] ->
  analysisRunRef st = runId r ->
  length replies = length (batches (extractedFunctions r)) ->
  sentBatches JSON_parse st (Some r) replies
  = batches (extractedFunctions r).
Proof.
  intros Hi Hne Href Hlen. unfold batches in *. rewrite <- Hi in *.
  assert (Hgen : forall fuel st r replies,
            length (extractedFunctions r) - run_i r <= fuel ->
            run_i r < length (extractedFunctions r) ->
            analysisRunRef st = runId r ->
            length replies
            = length (batchesFrom fuel (extractedFunctions r) (run_i r)) ->
            sentBatches JSON_parse st (Some r) replies
            = batchesFrom fuel (extractedFunctions r) (run_i r)).
  { clear. induction fuel as [|fuel IH]; intros st r replies Hf Hi Href Hlen;
      [lia|].
    simpl in Hlen |- *.
    destruct (Nat.ltb_spec (run_i r) (length (extractedFunctions r)));
      [|lia].
    destruct replies as [|reply rest]; [discriminate|].
    simpl in Hlen. injection Hlen as Hlen.
    cbn [sentBatches]. fold (currentBatch r).
    rewrite (resumeRun_current st r reply Href).
    destruct (Nat.ltb_spec (run_i r + batchSize)
                (length (extractedFunctions r))) as [Hmore|Hlast].
    - f_equal. apply IH; simpl; auto; try (unfold batchSize in *; lia).
      rewrite (proj1 (mergeReply_ref st (currentBatch r) reply)).
      exact Href.
    - assert (Hnil : batchesFrom fuel (extractedFunctions r)
                       (run_i r + batchSize) = []).
      { destruct fuel; [reflexivity|]. simpl.
        destruct (Nat.ltb_spec (run_i r + batchSize)
                    (length (extractedFunctions r))); [lia|reflexivity]. }
      rewrite Hnil in Hlen |- *. now destruct rest. }
  apply Hgen; auto; try lia.
  rewrite Hi. destruct (extractedFunctions r); [congruence|simpl; lia].
Qed.


End RunInvariantFacts.

Lemma run_ids_stay_distinct_witness :
  (analysisRunRef initialPanel
   <= analysisRunRef
        (panel (steps parseEmptyExplanation true teacher
                  {| panel := initialPanel; suspended := [] |}
                  overlappingRuns)))%nat.
Proof.
  refine (proj1 (proj2 (run_ids_stay_distinct parseEmptyExplanation
            true teacher {| panel := initialPanel; suspended := [] |}
            overlappingRuns _))).
  split; simpl; [apply NoDup_nil_2|constructor].
Defined.

Lemma stale_run_stops_witness :
  (resumeRun parseEmptyExplanation
     {| analysisRunRef := 3; explanation := HEADER; isAnalyzing := true;
        lastGeminiResponse := "" |}
     {| runId := 1; run_mode := teacher; run_name := "a.py";
        extractedFunctions := [unitF; unitG]; run_i := 0 |}
     CallFails).2 = None.
Proof.
  apply (stale_run_stops parseEmptyExplanation
           {| analysisRunRef := 3; explanation := HEADER; isAnalyzing := true;
              lastGeminiResponse := "" |}
           {| runId := 1; run_mode := teacher; run_name := "a.py";
              extractedFunctions := [unitF; unitG]; run_i := 0 |}
           CallFails).
  discriminate.
Defined.

Lemma current_run_sends_batches_in_order_witness :
  sentBatches parseEmptyExplanation
    {| analysisRunRef := 1; explanation := HEADER; isAnalyzing := true;
       lastGeminiResponse := "" |}
    (Some {| runId := 1; run_mode := teacher; run_name := "a.py";
             extractedFunctions := [unitF; unitG]; run_i := 0 |})
    [CallFails]
  = batches [unitF; unitG].
Proof.
  apply (current_run_sends_batches_in_order parseEmptyExplanation
           {| analysisRunRef := 1; explanation := HEADER; isAnalyzing := true;
              lastGeminiResponse := "" |}
           {| runId := 1; run_mode := teacher; run_name := "a.py";
              extractedFunctions := [unitF; unitG]; run_i := 0 |}
           [CallFails] eq_refl ltac:(discriminate) eq_refl eq_refl).
Defined.


(** ** Cleaning and checking the model's response *)

Section ResponseFacts.

Local Open Scope nat_scope.

Lemma eat_ci_fence fence rest :
  toLowerCase fence = "```json" ->
  eat_ci "```json" (fence +:+ rest) = Some rest.
Proof.
  generalize "```json". intros p. revert fence.
  induction p as [|a p IH]; intros [|b fence]; simpl; try discriminate.
  - reflexivity.
  - intros [= Hb Hf]. rewrite Hb, Ascii.eqb_refl.
    now apply IH.
Qed.

Lemma dropFirstJsonFence_fence fence rest :
  toLowerCase fence = "```json" ->
  dropFirstJsonFence (fence +:+ rest) = trimStart rest.
Proof.
  intros Hf. destruct fence as [|c fence]; [discriminate|].
  rewrite append_cons.
  change (dropFirstJsonFence (String c (fence +:+ rest)))
    with (match eat_ci "```json" (String c (fence +:+ rest)) with
          | Some r => trimStart r
          | None => String c (dropFirstJsonFence (fence +:+ rest))
          end).
  rewrite <- append_cons. now rewrite (eat_ci_fence _ _ Hf).
Qed.

Lemma trimStart_spaces ws s :
  all_chars is_space ws = true -> trimStart (ws +:+ s) = trimStart s.
Proof.
  induction ws as [|c ws IH]; simpl; [reflexivity|].
  intros H. apply andb_true_iff in H as [Hc Hw].
  rewrite ?append_cons. simpl. rewrite Hc. now apply IH.
Qed.

Lemma trimStart_app x c y :
  is_space c = false ->
  trimStart (x +:+ String c y) = trimStart x +:+ String c y.
Proof.
  intros Hc. induction x as [|a x IH]; simpl.
  - rewrite ?append_empty_l. simpl. now rewrite Hc.
  - rewrite ?append_cons. simpl. destruct (is_space a); [exact IH|].
    now rewrite ?append_cons.
Qed.

Lemma trimStart_idem s : trimStart (trimStart s) = trimStart s.
Proof.
  destruct (trimStart_shape s) as [->|(c & r & -> & Hc)]; [reflexivity|].
  simpl. now rewrite Hc.
Qed.

Lemma append_length s t :
  String.length (s +:+ t) = String.length s + String.length t.
Proof.
  induction s as [|c s IH]; [reflexivity|].
  rewrite ?append_cons. simpl. now rewrite IH.
Qed.

Lemma dropFinalFence_fence z : dropFinalFence (z +:+ "```") = z.
Proof.
  induction z as [|c z IH]; [reflexivity|].
  rewrite ?append_cons.
  change (dropFinalFence (String c (z +:+ "```")))
    with (if String.eqb (String c (z +:+ "```")) "```" then ""
          else String c (dropFinalFence (z +:+ "```"))).
  destruct (String.eqb_spec (String c (z +:+ "```")) "```") as [E|_].
  - apply (f_equal String.length) in E. simpl in E.
    rewrite append_length in E. simpl in E. lia.
  - now rewrite IH.
Qed.

Lemma all_chars_no_prefix p s :
  all_chars (fun c => negb (Ascii.eqb c "`")) s = true ->
  eat_ci (String "`" p) s = None.
Proof.
  destruct s as [|c s]; [reflexivity|]. cbn [all_chars eat_ci].
  intros H. apply andb_true_iff in H as [Hc _].
  destruct c as [[] [] [] [] [] [] [] []]; try reflexivity;
    vm_compute in Hc; discriminate.
Qed.

Lemma dropFirstJsonFence_no_backquote s :
  all_chars (fun c => negb (Ascii.eqb c "`")) s = true ->
  dropFirstJsonFence s = s.
Proof.
  induction s as [|c s IH]; [reflexivity|]. intros H.
  change (dropFirstJsonFence (String c s))
    with (match eat_ci "```json" (String c s) with
          | Some rest => trimStart rest
          | None => String c (dropFirstJsonFence s)
          end).
  rewrite (all_chars_no_prefix _ _ H).
  simpl in H. apply andb_true_iff in H as [_ H]. now rewrite IH.
Qed.

Lemma dropFinalFence_no_backquote s :
  all_chars (fun c => negb (Ascii.eqb c "`")) s = true ->
  dropFinalFence s = s.
Proof.
  induction s as [|c s IH]; [reflexivity|]. intros H.
  change (dropFinalFence (String c s))
    with (if String.eqb (String c s) "```" then ""
          else String c (dropFinalFence s)).
  destruct (String.eqb_spec (String c s) "```") as [E|_].
  - rewrite E in H. discriminate.
  - simpl in H. apply andb_true_iff in H as [_ H]. now rewrite IH.
Qed.

Lemma trimEnd_spaces x ws :
  all_chars is_space ws = true -> trimEnd (x +:+ ws) = trimEnd x.
Proof.
  intros Hw. induction x as [|c x IH].
  - rewrite ?append_empty_l. induction ws as [|a ws IHw]; [reflexivity|].
    simpl in Hw |- *. apply andb_true_iff in Hw as [Ha Hw].
    now rewrite (IHw Hw), Ha.
  - rewrite ?append_cons. simpl. now rewrite IH.
Qed.

Lemma trimEnd_keeps x c :
  is_space c = false -> trimEnd (x +:+ String c "") = x +:+ String c "".
Proof.
  intros Hc. induction x as [|a x IH].
  - rewrite ?append_empty_l. simpl. now rewrite Hc.
  - rewrite ?append_cons. simpl. rewrite IH.
    destruct (x +:+ String c "") eqn:E.
    + destruct x; discriminate.
    + now rewrite andb_false_r.
Qed.

(** X15: a response wrapped in a code fence is unwrapped: for an
    opening fence of three backquotes and [json] in any letter case,
    followed by any white space, and a closing fence that ends the text,
    the cleaned text is the trimmed body, whatever the body is; a text
    without any backquote is only trimmed.  So a fenced body without
    backquotes is parsed exactly like the bare body. *)
Theorem cleanModelText_unwraps_fence fence ws body :
  toLowerCase fence = "```json" ->
  all_chars is_space ws = true ->
  cleanModelText (fence +:+ ws +:+ body +:+ "```") = trim body
  /\ (all_chars (fun c => negb (Ascii.eqb c "`")) body = true ->
      cleanModelText body = trim body
      /\ forall JSON_parse,
         parseJsonFromModelText JSON_parse
           (fence +:+ ws +:+ body +:+ "```")
         = parseJsonFromModelText JSON_parse body).
Proof.
  intros Hf Hws.
  assert (H1 : cleanModelText (fence +:+ ws +:+ body +:+ "```")
               = trim body).
  { unfold cleanModelText.
    assert (Hd : dropFirstJsonFence (fence +:+ ws +:+ body +:+ "```")
                 = trimStart body +:+ "```").
    { destruct fence as [|c fence]; [discriminate|].
      rewrite ?append_cons.
      change (dropFirstJsonFence (String c (fence +:+ ws +:+ body +:+ "```")))
        with (match eat_ci "```json"
                      (String c (fence +:+ ws +:+ body +:+ "```")) with
              | Some rest => trimStart rest
              | None => String c (dropFirstJsonFence
                                    (fence +:+ ws +:+ body +:+ "```"))
              end).
      rewrite <- append_cons, (eat_ci_fence _ _ Hf).
      rewrite (trimStart_spaces _ _ Hws).
      now apply trimStart_app. }
    rewrite Hd, dropFinalFence_fence. unfold trim.
    now rewrite trimStart_idem. }
  split; [exact H1|]. intros Hb.
  assert (H2 : cleanModelText body = trim body).
  { unfold cleanModelText.
    now rewrite (dropFirstJsonFence_no_backquote _ Hb),
      (dropFinalFence_no_backquote _ Hb). }
  split; [exact H2|]. intros JSON_parse.
  unfold parseJsonFromModelText. now rewrite H1, H2.
Qed.

Lemma cleanModelText_unwraps_fence_witness :
  cleanModelText "```JSON
[1, 2]
```" = "[1, 2]".
Proof.
  apply (proj1 (cleanModelText_unwraps_fence "```JSON" "
" "[1, 2]
" eq_refl eq_refl)).
Defined.

Lemma all_chars_append p x w :
  all_chars p (x +:+ w) = all_chars p x && all_chars p w.
Proof.
  induction x as [|c x IH]; [reflexivity|].
  rewrite ?append_cons. simpl. now rewrite IH, andb_assoc.
Qed.

Lemma all_chars_impl (p q : ascii -> bool) s :
  (forall c, p c = true -> q c = true) ->
  all_chars p s = true -> all_chars q s = true.
Proof.
  intros Hpq. induction s as [|c s IH]; simpl; [reflexivity|].
  intros H. apply andb_true_iff in H as [Hc Hs].
  now rewrite (Hpq c Hc), (IH Hs).
Qed.

Lemma space_not_backquote c :
  is_space c = true -> negb (Ascii.eqb c "`") = true.
Proof.
  intros H. destruct (Ascii.eqb_spec c "`") as [->|]; [discriminate|].
  reflexivity.
Qed.

(** Three backquotes are removed only where they end the text. *)
Lemma dropFinalFence_before_space x c tail :
  all_chars is_space (String c tail) = true ->
  dropFinalFence (x +:+ String c tail) = x +:+ String c tail.
Proof.
  intros Hw. induction x as [|a x IH].
  - rewrite ?append_empty_l. apply dropFinalFence_no_backquote.
    eapply all_chars_impl; [apply space_not_backquote|exact Hw].
  - rewrite ?append_cons.
    change (dropFinalFence (String a (x +:+ String c tail)))
      with (if String.eqb (String a (x +:+ String c tail)) "```" then ""
            else String a (dropFinalFence (x +:+ String c tail))).
    destruct (String.eqb_spec (String a (x +:+ String c tail)) "```")
      as [E|_]; [|now rewrite IH].
    exfalso.
    assert (Hq : all_chars (fun c => negb (is_space c))
                   (String a x +:+ String c tail) = true)
      by (rewrite append_cons, E; reflexivity).
    rewrite all_chars_append in Hq. apply andb_true_iff in Hq as [_ Hq].
    simpl in Hq, Hw.
    apply andb_true_iff in Hq as [Hq _]. apply andb_true_iff in Hw as [Hw _].
    rewrite Hw in Hq. discriminate.
Qed.

(** X16: when white space follows the closing fence, the closing fence
    is not removed: the fence pattern is tried against the end of the
    untrimmed text, and the text is trimmed only afterwards. *)
Theorem cleanModelText_keeps_fence_before_space fence ws body c tail :
  toLowerCase fence = "```json" ->
  all_chars is_space ws = true ->
  all_chars is_space (String c tail) = true ->
  cleanModelText (fence +:+ ws +:+ body +:+ "```" +:+ String c tail)
  = trimStart body +:+ "```".
Proof.
  intros Hf Hws Htail. unfold cleanModelText.
  assert (Hd : dropFirstJsonFence
                 (fence +:+ ws +:+ body +:+ "```" +:+ String c tail)
               = trimStart body +:+ "```" +:+ String c tail).
  { rewrite (dropFirstJsonFence_fence _ _ Hf), (trimStart_spaces _ _ Hws).
    now apply (trimStart_app body "`" ("``" +:+ String c tail)). }
  rewrite Hd.
  rewrite <- (append_assoc (trimStart body) "```" (String c tail)).
  rewrite (dropFinalFence_before_space _ _ _ Htail).
  unfold trim.
  assert (Hts : trimStart ((trimStart body +:+ "```") +:+ String c tail)
                = (trimStart body +:+ "```") +:+ String c tail).
  { rewrite (append_assoc (trimStart body) "```" (String c tail)).
    transitivity (trimStart (trimStart body) +:+ "```" +:+ String c tail);
      [|now rewrite trimStart_idem].
    now apply (trimStart_app (trimStart body) "`"
                 ("``" +:+ String c tail)). }
  rewrite Hts, (trimEnd_spaces _ _ Htail).
  change (trimStart body +:+ "```")
    with (trimStart body +:+ ("``" +:+ String "`" "")).
  rewrite <- append_assoc.
  apply trimEnd_keeps. reflexivity.
Qed.

Lemma cleanModelText_keeps_fence_before_space_witness :
  cleanModelText "```json
[1, 2]
```
" = "[1, 2]
```".
Proof.
  apply (cleanModelText_keeps_fence_before_space "```json" "
" "[1, 2]
" "010" "" eq_refl eq_refl eq_refl).
Defined.

End ResponseFacts.

(** ** The shape check of the response *)

Section ResponseShapeFacts.

Local Open Scope nat_scope.

Variable JSON_parse : string -> option json.

(** An item passes the check exactly when it is an object whose
    [functionName] and [explanation] are strings. *)
Lemma validItem_spec item f e :
  validItem item = Some (f, e)
  <-> exists fields,
        item = JObj fields
        /\ assoc "functionName" fields = Some (JStr f)
        /\ assoc "explanation" fields = Some (JStr e).
Proof.
  unfold validItem. split.
  - destruct item as [|b|n|s|items|fields]; simpl.
    + discriminate.
    + now destruct b.
    + now destruct n.
    + now destruct s.
    + discriminate.
    + destruct (assoc "functionName" fields) as [[| | |f'| |]|] eqn:Ef;
        simpl; try discriminate.
      destruct (assoc "explanation" fields) as [[| | |e'| |]|] eqn:Ee;
        simpl; try discriminate.
      intros [= <- <-]. now exists fields.
  - intros (fields & -> & Hf & He). simpl. now rewrite Hf, He.
Qed.

Lemma validItems_bad items bad :
  bad ∈ items -> validItem bad = None -> validItems items = None.
Proof.
  intros Hin Hbad. induction items as [|x items IH].
  - now apply elem_of_nil in Hin.
  - apply elem_of_cons in Hin as [<-|Hin]; simpl.
    + now rewrite Hbad.
    + rewrite (IH Hin). now destruct (validItem x).
Qed.

Lemma validItems_all items entries :
  validItems items = Some entries ->
  length entries = length items
  /\ forall k fe, entries !! k = Some fe ->
       exists item, items !! k = Some item /\ validItem item = Some fe.
Proof.
  revert entries. induction items as [|x items IH]; intros entries; simpl.
  - intros [= <-]. split; [reflexivity|]. intros k fe H.
    now rewrite lookup_nil in H.
  - destruct (validItem x) as [fe0|] eqn:Ex; [|discriminate].
    destruct (validItems items) as [fes|]; [|discriminate].
    intros [= <-]. destruct (IH fes eq_refl) as [Hl Hk].
    split; [simpl; now rewrite Hl|].
    intros [|k] fe H; simpl in H.
    + injection H as <-. now exists x.
    + now apply Hk.
Qed.

(** X17: the shape check is all or nothing.  When one item of the
    response array is not an object whose [functionName] and
    [explanation] are strings, the whole response is rejected: every
    unit of the batch gets the fallback line, also the units the other
    items explain.  A response that passes has one entry per item, in
    order. *)
Theorem malformed_item_rejects_response text items bad st batch :
  JSON_parse (cleanModelText text) = Some (JArr items) ->
  bad ∈ items ->
  ~ (exists fields f e,
       bad = JObj fields
       /\ assoc "functionName" fields = Some (JStr f)
       /\ assoc "explanation" fields = Some (JStr e)) ->
  parseJsonFromModelText JSON_parse text = None
  /\ explanation (mergeReply JSON_parse st batch (ReplyText text))
     = mergeFallback batch (explanation st)
  /\ forall fn, entryText JSON_parse (ReplyText text) fn = FALLBACK.
Proof.
  intros Hp Hin Hshape.
  assert (Hbad : validItem bad = None).
  { destruct (validItem bad) as [[f e]|] eqn:E; [|reflexivity].
    exfalso. apply Hshape. apply validItem_spec in E as (fields & H).
    now exists fields, f, e. }
  assert (Hnone : parseJsonFromModelText JSON_parse text = None).
  { unfold parseJsonFromModelText. rewrite Hp.
    now apply (validItems_bad items bad). }
  split; [exact Hnone|]. split.
  - unfold mergeReply. now rewrite Hnone.
  - intros fn. unfold entryText. now rewrite Hnone.
Qed.

Lemma foldl_insert_other (entries : list (string * string)) k
    (m : gmap string string) :
  k ∉ entries.*1 ->
  foldl (fun m fe => <[fe.1 := fe.2]> m) m entries !! k = m !! k.
Proof.
  revert m. induction entries as [|[k' e'] entries IH]; intros m Hn;
    [reflexivity|].
  simpl in *. apply not_elem_of_cons in Hn as [Hk Hn].
  rewrite (IH _ Hn). now apply lookup_insert_ne.
Qed.

Lemma mapOfEntries_last l1 l2 k e :
  k ∉ l2.*1 -> mapOfEntries (l1 ++ (k, e) :: l2) !! k = Some e.
Proof.
  intros Hn. unfold mapOfEntries. rewrite foldl_app. simpl.
  rewrite (foldl_insert_other l2 k _ Hn). apply lookup_insert_eq.
Qed.

(** X18: the text of a unit depends only on its name, and of several
    entries of the response with that name the last one counts: the
    unit shows its explanation, or the fallback when that explanation is
    empty, whatever the earlier entries say.  So two units of a batch
    with the same name show the same text. *)
Theorem last_entry_for_name_wins text l1 l2 name e fn :
  parseJsonFromModelText JSON_parse text = Some (l1 ++ (name, e) :: l2) ->
  name ∉ l2.*1 ->
  functionName fn = name ->
  entryText JSON_parse (ReplyText text) fn
  = (if truthy e then e else FALLBACK)
  /\ forall fn', functionName fn' = name ->
       entryText JSON_parse (ReplyText text) fn'
       = entryText JSON_parse (ReplyText text) fn.
Proof.
  intros Hp Hn Hfn.
  assert (H : forall g, functionName g = name ->
            entryText JSON_parse (ReplyText text) g
            = if truthy e then e else FALLBACK).
  { intros g Hg. unfold entryText, explanationText.
    now rewrite Hp, Hg, (mapOfEntries_last l1 l2 name e Hn). }
  split; [now apply H|]. intros fn' Hfn'. now rewrite !H.
Qed.

End ResponseShapeFacts.

Lemma malformed_item_rejects_response_witness :
  parseJsonFromModelText (answering itemWithoutExplanation) "[]" = None.
Proof.
  refine (proj1 (malformed_item_rejects_response
            (answering itemWithoutExplanation) "[]" _
            (JObj [("functionName", JStr "g")]) initialPanel [unitF; unitG]
            eq_refl _ _)).
  - apply list_elem_of_further, list_elem_of_here.
  - intros (fields & f & e & [= <-] & _ & He). discriminate.
Defined.

Lemma last_entry_for_name_wins_witness :
  entryText (answering twoEntriesForF) (ReplyText "[]") unitF = "second".
Proof.
  refine (proj1 (last_entry_for_name_wins (answering twoEntriesForF)
            "[]" [("f", "first")] [] "f" "second" unitF eq_refl _ eq_refl)).
  apply not_elem_of_nil.
Defined.

(** ** Reach of the exit phrases, and the pending flag *)

Section VoiceTurnFacts.

Lemma includes_unfold s p :
  includes s p
  = String.prefix p s
    || match s with
       | EmptyString => false
       | String _ s' => includes s' p
       end.
Proof. now destruct s. Qed.

Lemma prefix_append p b : String.prefix p (p +:+ b) = true.
Proof.
  induction p as [|c p IH]; [now destruct b|].
  rewrite append_cons. simpl.
  destruct (ascii_dec c c); [exact IH|congruence].
Qed.

Lemma includes_inside a p b : includes (a +:+ p +:+ b) p = true.
Proof.
  induction a as [|c a IH].
  - rewrite append_empty_l, includes_unfold. now rewrite prefix_append.
  - rewrite append_cons, includes_unfold, IH. apply orb_true_r.
Qed.

Lemma toLowerCase_append a b :
  toLowerCase (a +:+ b) = toLowerCase a +:+ toLowerCase b.
Proof.
  induction a as [|c a IH]; [reflexivity|].
  rewrite append_cons. cbn [toLowerCase]. rewrite IH.
  now rewrite append_cons.
Qed.

(** X19: an exit phrase ends the session wherever it occurs in what
    was said, in any letter case and also inside a longer word or
    sentence: the history is cleared, the session is closed and no
    model turn is asked for. *)
Theorem exit_phrase_anywhere_ends_session hasKey st userText pre q post p :
  trim userText = pre +:+ q +:+ post ->
  p ∈ RUBBER_DUCKY_EXIT_PHRASES ->
  toLowerCase q = p ->
  processRubberDuckyTranscript hasKey st userText
  = (endRubberDuckySession st, None).
Proof.
  intros Ht Hin Hq. unfold processRubberDuckyTranscript.
  assert (Hne : trim userText <> "").
  { rewrite Ht. intros E.
    assert (Hq0 : q = "").
    { destruct pre; [|discriminate]. rewrite append_empty_l in E.
      destruct q; [reflexivity|discriminate]. }
    apply (exit_phrase_not_empty p Hin). now rewrite <- Hq, Hq0. }
  apply truthy_true in Hne. rewrite Hne. cbn [negb].
  assert (Hx : shouldExit (trim userText) = true).
  { unfold shouldExit. apply existsb_exists. exists p.
    split; [now apply list_elem_of_In|].
    rewrite Ht, !toLowerCase_append, Hq. apply includes_inside. }
  now rewrite Hx.
Qed.

Lemma exit_phrase_anywhere_ends_session_witness :
  processRubberDuckyTranscript true
    {| sessionActive := true;
       conversationHistory :=
         [ {| role := role_user; content := "why does it loop" |} ];
       rubberDuckyStatus := listening;
       voiceTranscript := "";
       rubberDuckyContext := None;
       pendingTranscriptProcess := false |}
    "I am not Done yet"
  = ({| sessionActive := false;
        conversationHistory := [];
        rubberDuckyStatus := idle;
        voiceTranscript := "";
        rubberDuckyContext := None;
        pendingTranscriptProcess := false |}, None).
Proof.
  apply (exit_phrase_anywhere_ends_session true _ "I am not Done yet"
           "I am not " "Done" " yet" "done" eq_refl).
  - unfold RUBBER_DUCKY_EXIT_PHRASES.
    apply list_elem_of_further, list_elem_of_here.
  - reflexivity.
Defined.

Lemma processRubberDuckyTranscript_pending hasKey st userText :
  pendingTranscriptProcess st = false ->
  pendingTranscriptProcess
    (processRubberDuckyTranscript hasKey st userText).1 = false.
Proof.
  intros Hp. unfold processRubberDuckyTranscript.
  destruct (truthy (trim userText)); simpl; [|exact Hp].
  destruct (shouldExit (trim userText)); simpl; [reflexivity|].
  destruct hasKey; simpl; exact Hp.
Qed.

(** X20: a finalized transcript is handled at most once.  When the
    effect fires (capture stopped, flag set, session active, voice
    mode), it leaves the pending flag cleared whichever way the
    transcript is handled, so running the effect again, with any
    transcript, does nothing; and it never does anything while the flag
    is clear. *)
Theorem transcript_processed_once hasKey voiceMode isListening transcript st :
  (pendingTranscriptProcess st = false ->
   transcriptEffect hasKey isListening voiceMode transcript st = (st, None))
  /\ (isListening = false -> voiceMode = true ->
      sessionActive st = true ->
      let st' := (transcriptEffect hasKey false true transcript st).1 in
      pendingTranscriptProcess st' = false
      /\ forall hasKey' isListening' voiceMode' transcript',
           transcriptEffect hasKey' isListening' voiceMode' transcript' st'
           = (st', None)).
Proof.
  assert (Hidle : forall k l v t s,
            pendingTranscriptProcess s = false ->
            transcriptEffect k l v t s = (s, None)).
  { intros k l v t s Hp. unfold transcriptEffect. rewrite Hp.
    now rewrite andb_false_r. }
  split; [apply Hidle|].
  intros -> -> Hact st'.
  assert (Hp : pendingTranscriptProcess st' = false).
  { subst st'. unfold transcriptEffect. rewrite Hact. cbn [negb andb].
    destruct (pendingTranscriptProcess st) eqn:Hpend; [|exact Hpend].
    cbn [andb].
    destruct (truthy (textToProcess transcript st)); [|reflexivity].
    now apply processRubberDuckyTranscript_pending. }
  split; [exact Hp|]. intros k l v t. now apply Hidle.
Qed.

Lemma transcript_processed_once_witness :
  pendingTranscriptProcess
    (transcriptEffect false false true "what is a loop"
       {| sessionActive := true;
          conversationHistory := [];
          rubberDuckyStatus := listening;
          voiceTranscript := "what is";
          rubberDuckyContext := None;
          pendingTranscriptProcess := true |}).1
  = false.
Proof.
  apply (proj2 (transcript_processed_once false true false "what is a loop"
           {| sessionActive := true;
              conversationHistory := [];
              rubberDuckyStatus := listening;
              voiceTranscript := "what is";
              rubberDuckyContext := None;
              pendingTranscriptProcess := true |}) eq_refl eq_refl eq_refl).
Defined.

End VoiceTurnFacts.

(** ** The calls of the vibe task, on every path *)

Section VibeDisciplineFacts.

Variable JSON_parse : string -> Parsed.
Variable nullReadMessage : string -> string.
Variable toDisplay : json -> string.

(** The conditions under which the [try] block reaches the apply
    callback. *)
Lemma vibe_failure_or_success apiKey net :
  VibeFailure JSON_parse apiKey net
  \/ exists status cj raw parsed c,
       truthy (default "" apiKey) = true
       /\ net = FetchResolves true status (ParseOk cj)
       /\ rawContent cj = Some raw
       /\ truthy (trim raw) = true
       /\ JSON_parse (cleanVibeText raw) = ParseOk parsed
       /\ prop parsed "updatedContent" = Some (JStr c)
       /\ c <> "".
Proof.
  destruct (truthy (default "" apiKey)) eqn:Hkey;
    [|left; now apply MissingCredential].
  destruct net as [message|ok status body];
    [left; apply TransportError|].
  destruct ok; [|left; apply HttpNotOk].
  destruct body as [cj|message]; [|left; apply BodyNotJson].
  destruct (rawContent cj) as [raw|] eqn:Hraw;
    [|left; apply EmptyResponse; now left].
  destruct (truthy (trim raw)) eqn:Hblank;
    [|left; apply EmptyResponse; right; now exists raw].
  destruct (JSON_parse (cleanVibeText raw)) as [parsed|message] eqn:Hparse;
    [|left; now apply (MalformedJson _ _ status cj raw message)].
  destruct (prop parsed "updatedContent") as [v|] eqn:Hprop.
  - destruct v as [| | |c| |];
      try (left; apply (MissingField _ _ status cj raw parsed Hraw Hparse);
           intros c' Hc'; rewrite Hprop in Hc'; discriminate).
    destruct (String.eqb_spec c "") as [->|Hne].
    + left. apply (MissingField _ _ status cj raw parsed Hraw Hparse).
      intros c' Hc'. rewrite Hprop in Hc'. now injection Hc' as <-.
    + right. exists status, cj, raw, parsed, c. auto 10.
  - left. apply (MissingField _ _ status cj raw parsed Hraw Hparse).
    intros c' Hc'. rewrite Hprop in Hc'. discriminate.
Qed.

Lemma tryBlock_success apiKey fileName status cj raw parsed c :
  truthy (default "" apiKey) = true ->
  rawContent cj = Some raw ->
  truthy (trim raw) = true ->
  JSON_parse (cleanVibeText raw) = ParseOk parsed ->
  prop parsed "updatedContent" = Some (JStr c) ->
  c <> "" ->
  exists m,
    tryBlock JSON_parse nullReadMessage toDisplay apiKey fileName
      (FetchResolves true status (ParseOk cj))
    = ([ApplyActiveFileChange c; SetStatusMessage m], Normal).
Proof.
  intros Hkey Hraw Hblank Hparse Hprop Hne. unfold tryBlock.
  rewrite Hkey. cbn [negb].
  rewrite (applyCompletion_raw JSON_parse nullReadMessage toDisplay
             fileName cj raw Hraw), Hblank.
  cbn [negb]. rewrite Hparse.
  destruct parsed; try discriminate; rewrite Hprop;
    rewrite (proj2 (truthy_true c) Hne); eauto.
Qed.

Lemma tryBlock_failure_any apiKey fileName net :
  VibeFailure JSON_parse apiKey net ->
  ends_without_edit
    (tryBlock JSON_parse nullReadMessage toDisplay apiKey fileName net).
Proof.
  intros Hfail. destruct (truthy (default "" apiKey)) eqn:Hkey.
  - now apply tryBlock_failure.
  - unfold tryBlock. rewrite Hkey. left. eauto.
Qed.

(** The three ways the [try] block ends. *)
Lemma tryBlock_outcomes apiKey fileName net :
  (VibeFailure JSON_parse apiKey net
   /\ ends_without_edit
        (tryBlock JSON_parse nullReadMessage toDisplay apiKey fileName net))
  \/ (~ VibeFailure JSON_parse apiKey net
      /\ exists c m,
           c <> ""
           /\ tryBlock JSON_parse nullReadMessage toDisplay
                apiKey fileName net
              = ([ApplyActiveFileChange c; SetStatusMessage m], Normal)).
Proof.
  destruct (vibe_failure_or_success apiKey net)
    as [Hfail|(status & cj & raw & parsed & c & Hkey & -> & Hraw & Hblank
               & Hparse & Hprop & Hne)].
  - left. split; [exact Hfail|now apply tryBlock_failure_any].
  - right.
    destruct (tryBlock_success apiKey fileName status cj raw parsed c
                Hkey Hraw Hblank Hparse Hprop Hne) as (m & Hm).
    split; [|now exists c, m].
    intros Hfail. apply (tryBlock_failure_any _ fileName) in Hfail.
    rewrite Hm in Hfail. destruct Hfail as [(message & E)|E]; discriminate.
Qed.

(** X21: whatever the inputs, the vibe task either sets one status
    message and touches nothing else, or it brackets its work between
    setting and clearing the busy flag, and in between, after the
    progress notice, it either sets one failure status or calls the
    apply callback once, with a non-empty text, and then sets one
    status.  So the busy flag is always released, and an edit is applied
    at most once and never with empty content. *)
Theorem vibe_task_call_discipline
    apiKey fileName code vibePrompt promptOverride net :
  let calls :=
    runVibeTask JSON_parse nullReadMessage toDisplay
      apiKey fileName code vibePrompt promptOverride net in
  (exists m, calls = [SetStatusMessage m])
  \/ (exists m,
        calls = [SetIsAnalyzing true; SetStatusMessage "Generating edits...";
                 SetStatusMessage m; SetIsAnalyzing false]
        /\ (m = MISSING_KEY_STATUS \/ m = GENERIC_FAILURE_STATUS
            \/ m = NO_EDIT_STATUS))
  \/ (exists c m,
        c <> ""
        /\ calls = [SetIsAnalyzing true;
                    SetStatusMessage "Generating edits...";
                    ApplyActiveFileChange c; SetStatusMessage m;
                    SetIsAnalyzing false]).
Proof.
  unfold runVibeTask.
  destruct (negb (truthy fileName) || negb (truthy code)); [eauto|].
  destruct (negb (truthy (trim (default vibePrompt promptOverride))));
    [eauto|].
  destruct (tryBlock_outcomes apiKey fileName net)
    as [[_ [(message & ->)| ->]]|[_ (c & m & Hc & ->)]].
  - right. left.
    destruct (catchBlock_one_status message) as (m & -> & Hm).
    exists m. split; [reflexivity|tauto].
  - right. left. exists NO_EDIT_STATUS. split; [reflexivity|tauto].
  - right. right. now exists c, m.
Qed.

(** X22: with a file, a snapshot and a prompt, the edit is applied
    exactly when none of the failures holds: the list of failures is
    complete. *)
Theorem vibe_edit_applied_iff_no_failure
    apiKey fileName code vibePrompt promptOverride net :
  truthy fileName = true -> truthy code = true ->
  truthy (trim (default vibePrompt promptOverride)) = true ->
  (~ VibeFailure JSON_parse apiKey net)
  <-> exists c m,
        c <> ""
        /\ runVibeTask JSON_parse nullReadMessage toDisplay
             apiKey fileName code vibePrompt promptOverride net
           = [SetIsAnalyzing true; SetStatusMessage "Generating edits...";
              ApplyActiveFileChange c; SetStatusMessage m;
              SetIsAnalyzing false].
Proof.
  intros Hfile Hcode Hprompt. unfold runVibeTask.
  rewrite Hfile, Hcode, Hprompt. cbn [negb orb].
  destruct (tryBlock_outcomes apiKey fileName net)
    as [[Hfail [(message & ->)| ->]]|[Hok (c & m & Hc & ->)]].
  - split; [intros Hno; contradiction|].
    intros (c & m & _ & E).
    destruct (catchBlock_one_status message) as (m' & Hm & _).
    rewrite Hm in E. discriminate.
  - split; [intros Hno; contradiction|].
    intros (c & m & _ & E). discriminate.
  - split; [|intros _; exact Hok]. intros _. now exists c, m.
Qed.

End VibeDisciplineFacts.

Lemma vibe_edit_applied_iff_no_failure_witness :
  ~ VibeFailure (parsesToUpdate "x = 1") (Some "sk-test")
      (FetchResolves true 200 (ParseOk (completionWith "{}"))).
Proof.
  apply (proj2 (vibe_edit_applied_iff_no_failure
                  (parsesToUpdate "x = 1") (fun _ => "null") (fun _ => "")
                  (Some "sk-test") "main.py" "x = 0" "set x to 1" None
                  (FetchResolves true 200 (ParseOk (completionWith "{}")))
                  eq_refl eq_refl eq_refl)).
  exists "x = 1", "Applied update to main.py.".
  split; [discriminate|reflexivity].
Defined.

(** ** The reviewer's response as a vibe prompt *)

Section ReviewerVibeFacts.

Variable JSON_parse : string -> Parsed.
Variable nullReadMessage : string -> string.
Variable toDisplay : json -> string.

Lemma promptFromReviewer_trimmed lastGeminiResponse explanation :
  trim (promptFromReviewer lastGeminiResponse explanation)
  = promptFromReviewer lastGeminiResponse explanation.
Proof.
  unfold promptFromReviewer, cleanVibeText.
  destruct (truthy _); apply trim_idem.
Qed.

(** X23: the prompt the reviewer button hands to the vibe task is
    already trimmed.  When it is empty the button only sets a status;
    otherwise the task never stops at the empty-prompt check, and it
    makes the same calls as a task run with that text typed as the
    prompt, whatever the prompt box held. *)
Theorem reviewer_vibe_runs_reviewer_text
    apiKey fileName code vibePrompt lastGeminiResponse explanation net :
  let p := promptFromReviewer lastGeminiResponse explanation in
  let calls :=
    handleReviewerVibe JSON_parse nullReadMessage toDisplay apiKey
      fileName code vibePrompt lastGeminiResponse explanation net in
  let task :=
    runVibeTask JSON_parse nullReadMessage toDisplay apiKey
      fileName code p None net in
  trim p = p
  /\ (p = "" -> calls = [TaskCall (SetStatusMessage NO_REVIEW_STATUS)])
  /\ (p <> "" ->
      calls = SetVibePrompt p :: SetMode vibe :: (TaskCall <$> task)
      /\ task <> [SetStatusMessage "Enter a task prompt first."]).
Proof.
  intros p calls task. subst calls task.
  pose proof (promptFromReviewer_trimmed lastGeminiResponse explanation)
    as Ht. fold p in Ht.
  split; [exact Ht|]. unfold handleReviewerVibe. fold p. split.
  - intros E. now rewrite (proj2 (truthy_false p) E).
  - intros Hne. rewrite (proj2 (truthy_true p) Hne). cbn [negb].
    split; [reflexivity|].
    unfold runVibeTask. cbn [default]. rewrite Ht.
    rewrite (proj2 (truthy_true p) Hne). cbn [negb].
    destruct (negb (truthy fileName) || negb (truthy code));
      [discriminate|].
    destruct (tryBlock _ _ _ _ _ _). discriminate.
Qed.

End ReviewerVibeFacts.

(** ** Markup removal on the panel's lines *)

Section StripTagsFacts.

Lemma stripTags_unfold c s' :
  stripTags (String c s')
  = if Ascii.eqb c "<" then
      match afterClose s' with
      | Some r => stripTags r
      | None => String c (stripTags s')
      end
    else String c (stripTags s').
Proof.
  cbn [stripTags]. destruct (Ascii.eqb c "<"); [|reflexivity].
  assert (H : forall t,
    (fix closeTag (t : string) : option string :=
       match t with
       | String c t' =>
           if Ascii.eqb c ">" then Some (stripTags t') else closeTag t'
       | EmptyString => None
       end) t
    = stripTags <$> afterClose t).
  { induction t as [|a t IH]; [reflexivity|]. cbn [afterClose].
    destruct (Ascii.eqb a ">"); [reflexivity|exact IH]. }
  rewrite H. now destruct (afterClose s').
Qed.

Lemma stripTags_plain a b :
  all_chars (fun c => negb (Ascii.eqb c "<")) a = true ->
  stripTags (a +:+ b) = a +:+ stripTags b.
Proof.
  induction a as [|c a IH]; intros H; [reflexivity|].
  cbn [all_chars] in H. apply andb_true_iff in H as [Hc Ha].
  rewrite !append_cons, stripTags_unfold.
  apply negb_true_iff in Hc. rewrite Hc. now rewrite IH.
Qed.

Lemma word_not_open c : is_word c = true -> negb (Ascii.eqb c "<") = true.
Proof.
  intros H. destruct (Ascii.eqb_spec c "<") as [->|]; [discriminate|].
  reflexivity.
Qed.

Lemma identifier_plain name :
  is_identifier name = true ->
  all_chars (fun c => negb (Ascii.eqb c "<")) name = true.
Proof.
  destruct name as [|c w]; [discriminate|]. unfold is_identifier.
  intros H. apply andb_true_iff in H as [Hc Hw]. cbn [all_chars].
  apply andb_true_iff. split.
  - destruct (Ascii.eqb_spec c "<") as [->|]; [discriminate|reflexivity].
  - eapply all_chars_impl; [apply word_not_open|exact Hw].
Qed.

(** X24: for every unit the extractor yields, removing the markup from
    its panel line leaves the name, a colon, a space and the text
    without its own markup; a text without [<], such as the fallback
    text, comes out as it is. *)
Theorem stripTags_entryLine codeContent fn text :
  fn ∈ extractPythonFunctions codeContent ->
  stripTags (entryLine fn text)
  = functionName fn +:+ ": " +:+ stripTags text
  /\ (all_chars (fun c => negb (Ascii.eqb c "<")) text = true ->
      stripTags (entryLine fn text) = functionName fn +:+ ": " +:+ text).
Proof.
  intros Hin.
  assert (Hid : is_identifier (functionName fn) = true).
  { unfold extractPythonFunctions in Hin.
    apply list_elem_of_fmap in Hin as (sp & -> & Hsp). simpl.
    destruct (scanFrom_opener _ _ _ _ Hsp) as (o & _ & Hdef & _).
    eapply defMatch_identifier; eauto. }
  apply identifier_plain in Hid.
  assert (H : stripTags (entryLine fn text)
              = functionName fn +:+ ": " +:+ stripTags text).
  { unfold entryLine.
    change ("<b>" +:+ functionName fn +:+ ":</b> " +:+ text)
      with (String "<" (String "b" (String ">"
              (functionName fn +:+ ":</b> " +:+ text)))).
    rewrite stripTags_unfold. cbn [Ascii.eqb Bool.eqb afterClose].
    rewrite (stripTags_plain _ _ Hid).
    change (":</b> " +:+ text)
      with (String ":" (String "<" (String "/" (String "b" (String ">"
              (String " " text)))))).
    rewrite stripTags_unfold. cbn [Ascii.eqb Bool.eqb].
    rewrite stripTags_unfold. cbn [Ascii.eqb Bool.eqb afterClose].
    rewrite stripTags_unfold. cbn [Ascii.eqb Bool.eqb].
    reflexivity. }
  split; [exact H|]. intros Ht. rewrite H.
  pose proof (stripTags_plain text "" Ht) as Hp.
  rewrite append_empty_r in Hp. cbn [stripTags] in Hp. rewrite Hp.
  now rewrite append_empty_r.
Qed.

Lemma stripTags_entryLine_witness :
  stripTags (entryLine unitF FALLBACK)
  = "f: Unable to analyze this function.".
Proof.
  apply (proj2 (stripTags_entryLine codeF unitF FALLBACK
                  ltac:(vm_compute; apply list_elem_of_here)) eq_refl).
Defined.

End StripTagsFacts.

(** ** The file tree *)

Section FileTreeFacts.

Local Open Scope nat_scope.

(** Induction on a node with the property known for its children. *)
Lemma FileNode_nested_ind (P : FileNode -> Prop) :
  (forall i m t cs o,
     match cs with Some l => Forall P l | None => True end ->
     P (Node i m t cs o)) ->
  forall n, P n.
Proof.
  intros H. fix IH 1. intros [i m t cs o]. apply H.
  destruct cs as [l|]; [|exact I].
  induction l as [|x l IHl]; constructor; [apply IH|exact IHl].
Qed.




End FileTreeFacts.

(** ** Opening and closing folders *)

Section FileTreeToggleFacts.

Local Open Scope nat_scope.

Lemma flat_map_ext_Forall {A B} (f g : A -> list B) l :
  Forall (fun x => f x = g x) l -> flat_map f l = flat_map g l.
Proof.
  induction 1 as [|x l Hx Hl IH]; [reflexivity|].
  cbn [flat_map]. now rewrite Hx, IH.
Qed.

Lemma flat_map_map {A B C} (f : B -> list C) (g : A -> B) l :
  flat_map f (map g l) = flat_map (fun x => f (g x)) l.
Proof.
  induction l as [|x l IH]; [reflexivity|].
  cbn [map flat_map]. now rewrite IH.
Qed.

Lemma fmap_flat_map {A B C} (f : B -> C) (g : A -> list B) l :
  f <$> flat_map g l = flat_map (fun x => f <$> g x) l.
Proof.
  induction l as [|x l IH]; [reflexivity|].
  cbn [flat_map]. now rewrite fmap_app, IH.
Qed.

Lemma map_id_Forall {A} (f : A -> A) l :
  Forall (fun x => f x = x) l -> map f l = l.
Proof.
  induction 1 as [|x l Hx Hl IH]; [reflexivity|].
  cbn [map]. now rewrite Hx, IH.
Qed.

Lemma NoDup_flat_map_elem {A B} (f : A -> list B) l x :
  NoDup (flat_map f l) -> x ∈ l -> NoDup (f x).
Proof.
  induction l as [|y l IH]; intros Hnd Hx; [now apply elem_of_nil in Hx|].
  cbn [flat_map] in Hnd. apply NoDup_app in Hnd as (H1 & _ & H2).
  apply elem_of_cons in Hx as [->|Hx]; [exact H1|now apply IH].
Qed.

Lemma not_elem_of_flat_map {A B} (f : A -> list B) l x (b : B) :
  b ∉ flat_map f l -> x ∈ l -> b ∉ f x.
Proof.
  intros Hn Hx Hb. apply Hn. apply list_elem_of_In, in_flat_map.
  exists x. split; now apply list_elem_of_In.
Qed.

Lemma nodeOpen_ids n : (nodeOpen n).*1 = nodeIds n.
Proof.
  induction n as [i m t cs o IH] using FileNode_nested_ind.
  cbn [nodeOpen nodeIds]. rewrite fmap_cons. cbn [fst]. f_equal.
  destruct cs as [l|]; [|reflexivity].
  rewrite fmap_flat_map. now apply flat_map_ext_Forall.
Qed.

Lemma flipOpen_other id (l : list (string * bool)) :
  id ∉ l.*1 -> flipOpen id <$> l = l.
Proof.
  induction l as [|[i b] l IH]; intros Hn; [reflexivity|].
  rewrite fmap_cons in Hn. apply not_elem_of_cons in Hn as [Hi Hn].
  rewrite fmap_cons, (IH Hn). unfold flipOpen. cbn [fst snd] in *.
  destruct (String.eqb_spec i id); [congruence|reflexivity].
Qed.

Lemma toggleNode_spec id n :
  nodeIds (toggleNode id n) = nodeIds n
  /\ (id ∉ nodeIds n -> toggleNode id n = n)
  /\ (NoDup (nodeIds n) ->
      nodeOpen (toggleNode id n) = flipOpen id <$> nodeOpen n)
  /\ nodeOpen (toggleNode id (toggleNode id n)) = nodeOpen n.
Proof.
  induction n as [i m t cs o IH] using FileNode_nested_ind.
  cbn [toggleNode]. destruct (String.eqb_spec i id) as [E|E].
  - split; [reflexivity|]. split.
    { intros Hn. exfalso. apply Hn. cbn [nodeIds]. rewrite E.
      apply list_elem_of_here. }
    split.
    + intros Hnd. cbn [nodeOpen nodeIds] in *. rewrite fmap_cons.
      unfold flipOpen at 1. cbn [fst snd].
      rewrite (proj2 (String.eqb_eq i id) E). f_equal.
      apply NoDup_cons in Hnd as [Hi _]. symmetry.
      apply flipOpen_other. rewrite <- E.
      destruct cs as [l|]; [|apply not_elem_of_nil].
      rewrite fmap_flat_map.
      rewrite (flat_map_ext_Forall _ nodeIds); [exact Hi|].
      apply Forall_forall. intros x _. apply nodeOpen_ids.
    + cbn [toggleNode]. rewrite (proj2 (String.eqb_eq i id) E).
      cbn [nodeOpen]. simpl default. now rewrite negb_involutive.
  - destruct cs as [l|].
    + cbn [toggleNode nodeIds nodeOpen].
      rewrite (proj2 (String.eqb_neq i id) E).
      rewrite !flat_map_map. split; [|split; [|split]].
      * f_equal. apply flat_map_ext_Forall.
        eapply Forall_impl; [exact IH|]. cbn. tauto.
      * intros Hn. apply not_elem_of_cons in Hn as [_ Hn]. do 2 f_equal.
        apply map_id_Forall. apply Forall_forall. intros x Hx.
        rewrite Forall_forall in IH. apply (IH x Hx).
        now apply (not_elem_of_flat_map nodeIds l x id Hn).
      * intros Hnd. apply NoDup_cons in Hnd as [_ Hnd].
        rewrite fmap_cons. unfold flipOpen at 1. cbn [fst snd].
        rewrite (proj2 (String.eqb_neq i id) E). f_equal.
        rewrite fmap_flat_map. apply flat_map_ext_Forall.
        apply Forall_forall. intros x Hx.
        rewrite Forall_forall in IH. apply (IH x Hx).
        now apply (NoDup_flat_map_elem nodeIds l x Hnd).
      * cbn [nodeOpen]. rewrite List.map_map, flat_map_map. f_equal.
        apply flat_map_ext_Forall.
        eapply Forall_impl; [exact IH|]. cbn. tauto.
    + cbn [toggleNode nodeIds nodeOpen].
      rewrite (proj2 (String.eqb_neq i id) E).
      split; [reflexivity|]. split; [reflexivity|].
      split; [|reflexivity].
      intros _. cbn [nodeOpen]. rewrite fmap_cons. unfold flipOpen.
      cbn [fst snd]. now rewrite (proj2 (String.eqb_neq i id) E).
Qed.

(** X26: toggling by id never changes which nodes the tree has or
    their order; in a tree whose ids are pairwise different it flips
    the open flag of the node with the id and of no other node, a
    missing flag counting as closed.  A tree without the id is left as
    it is, and toggling twice shows every node open or closed as
    before. *)
Theorem toggle_flips_one_flag id filesTree :
  NoDup (treeIds filesTree) ->
  treeOpen (handleToggleFolder id filesTree)
  = flipOpen id <$> treeOpen filesTree
  /\ treeIds (handleToggleFolder id filesTree) = treeIds filesTree
  /\ (id ∉ treeIds filesTree -> handleToggleFolder id filesTree = filesTree)
  /\ treeOpen (handleToggleFolder id (handleToggleFolder id filesTree))
     = treeOpen filesTree.
Proof.
  intros Hnd. unfold handleToggleFolder, treeOpen, treeIds in *.
  rewrite List.map_map, !flat_map_map. split; [|split; [|split]].
  - rewrite fmap_flat_map. apply flat_map_ext_Forall.
    apply Forall_forall. intros x Hx.
    apply (toggleNode_spec id x).
    now apply (NoDup_flat_map_elem nodeIds filesTree x Hnd).
  - apply flat_map_ext_Forall, Forall_forall. intros x _.
    apply (toggleNode_spec id x).
  - intros Hn. apply map_id_Forall, Forall_forall. intros x Hx.
    apply (toggleNode_spec id x).
    now apply (not_elem_of_flat_map nodeIds filesTree x id Hn).
  - apply flat_map_ext_Forall, Forall_forall. intros x _.
    apply (toggleNode_spec id x).
Qed.

End FileTreeToggleFacts.

Lemma toggle_flips_one_flag_witness :
  treeOpen (handleToggleFolder "tests" initialFilesTree)
  = flipOpen "tests" <$> treeOpen initialFilesTree.
Proof.
  refine (proj1 (toggle_flips_one_flag "tests" initialFilesTree _)).
  apply (bool_decide_unpack _). vm_compute. exact I.
Defined.

(** ** Creating and opening files *)

Section FileTreeCreateFacts.

Local Open Scope nat_scope.

Lemma insertInto_spec parentId newNode n :
  sublist (nodeIds n) (nodeIds (insertInto parentId newNode n))
  /\ (forall i, i ∈ nodeIds (insertInto parentId newNode n) ->
        i ∈ nodeIds n \/ i ∈ nodeIds newNode)
  /\ (parentId ∉ nodeIds n -> insertInto parentId newNode n = n)
  /\ (parentId ∈ nodeIds n ->
      node_id newNode ∈ nodeIds (insertInto parentId newNode n)).
Proof.
  induction n as [i m t cs o IH] using FileNode_nested_ind.
  cbn [insertInto]. destruct (String.eqb_spec i parentId) as [E|E].
  - cbn [nodeIds]. rewrite flat_map_app. cbn [flat_map].
    rewrite app_nil_r.
    assert (Hcs : match cs with
                  | Some l => flat_map nodeIds l
                  | None => []
                  end = flat_map nodeIds (default [] cs))
      by now destruct cs.
    rewrite Hcs. split; [|split; [|split]].
    + apply sublist_skip. now apply sublist_inserts_r.
    + intros j Hj. rewrite elem_of_cons, elem_of_app in Hj.
      rewrite elem_of_cons. tauto.
    + intros Hn. exfalso. apply Hn. rewrite E. apply list_elem_of_here.
    + intros _. rewrite elem_of_cons, elem_of_app. right. right.
      destruct newNode. cbn [node_id nodeIds]. apply list_elem_of_here.
  - destruct cs as [l|].
    + cbn [nodeIds]. rewrite flat_map_map.
      assert (Hl :
        sublist (flat_map nodeIds l)
          (flat_map (fun x => nodeIds (insertInto parentId newNode x)) l)
        /\ (forall j,
              j ∈ flat_map (fun x => nodeIds (insertInto parentId newNode x)) l
              -> j ∈ flat_map nodeIds l \/ j ∈ nodeIds newNode)
        /\ (parentId ∉ flat_map nodeIds l ->
            map (insertInto parentId newNode) l = l)
        /\ (parentId ∈ flat_map nodeIds l ->
            node_id newNode
            ∈ flat_map (fun x => nodeIds (insertInto parentId newNode x)) l)).
      { induction IH as [|x l Hx Hl IHl]; cbn [flat_map map].
        - split; [constructor|]. split; [intros j Hj; now left|].
          split; [reflexivity|]. intros Hj. now apply elem_of_nil in Hj.
        - destruct Hx as (X1 & X2 & X3 & X4).
          destruct IHl as (I1 & I2 & I3 & I4).
          split; [now apply sublist_app|]. split; [|split].
          + intros j Hj. rewrite elem_of_app in Hj |- *.
            destruct Hj as [Hj|Hj]; [apply X2 in Hj|apply I2 in Hj]; tauto.
          + intros Hn. rewrite elem_of_app in Hn.
            rewrite X3, I3 by tauto. reflexivity.
          + intros Hp. rewrite elem_of_app in Hp |- *.
            destruct Hp as [Hp|Hp]; [left; now apply X4|right; now apply I4]. }
      destruct Hl as (L1 & L2 & L3 & L4). split; [|split; [|split]].
      * now apply sublist_skip.
      * intros j Hj. rewrite elem_of_cons in Hj |- *.
        destruct Hj as [Hj|Hj]; [tauto|]. apply L2 in Hj. tauto.
      * intros Hn. rewrite elem_of_cons in Hn. rewrite L3 by tauto.
        reflexivity.
      * intros Hp. rewrite elem_of_cons in Hp |- *.
        destruct Hp as [Hp|Hp]; [congruence|]. right. now apply L4.
    + cbn [nodeIds]. split; [reflexivity|]. split; [tauto|].
      split; [reflexivity|]. intros Hp.
      apply list_elem_of_singleton in Hp. congruence.
Qed.

Lemma insertInto_tree parentId newNode filesTree :
  sublist (treeIds filesTree)
    (treeIds (map (insertInto parentId newNode) filesTree))
  /\ (forall i, i ∈ treeIds (map (insertInto parentId newNode) filesTree) ->
        i ∈ treeIds filesTree \/ i ∈ nodeIds newNode)
  /\ (parentId ∉ treeIds filesTree ->
      map (insertInto parentId newNode) filesTree = filesTree)
  /\ (parentId ∈ treeIds filesTree ->
      node_id newNode
      ∈ treeIds (map (insertInto parentId newNode) filesTree)).
Proof.
  unfold treeIds. induction filesTree as [|x l IHl]; cbn [flat_map map].
  - split; [constructor|]. split; [intros j Hj; now left|].
    split; [reflexivity|]. intros Hj. now apply elem_of_nil in Hj.
  - destruct (insertInto_spec parentId newNode x) as (X1 & X2 & X3 & X4).
    destruct IHl as (I1 & I2 & I3 & I4).
    split; [now apply sublist_app|]. split; [|split].
    + intros j Hj. rewrite elem_of_app in Hj |- *.
      destruct Hj as [Hj|Hj]; [apply X2 in Hj|apply I2 in Hj]; tauto.
    + intros Hn. rewrite elem_of_app in Hn.
      rewrite X3, I3 by tauto. reflexivity.
    + intros Hp. rewrite elem_of_app in Hp |- *.
      destruct Hp as [Hp|Hp]; [left; now apply X4|right; now apply I4].
Qed.

(** X27: creating a node.  An empty name does nothing.  Otherwise a
    new file gets the placeholder content under its name, replacing
    what a file of that name held, and becomes the active file, also
    when no node is added; a new folder leaves contents and active file
    alone.  The tree keeps all its nodes in order and gains at most
    nodes with the new id.  With a parent id that is not the root's and
    is not in the tree, the tree stays as it is; with one that is in
    the tree, the new id is in the tree afterwards. *)
Theorem create_node_effects newId type parentId name e :
  let e' := handleCreateNode newId type parentId name e in
  (name = "" -> e' = e)
  /\ (name <> "" ->
      (type = file ->
       contents e' = <[name := NEW_FILE_CONTENT]> (contents e)
       /\ activeFile e' = name)
      /\ (type = folder ->
          contents e' = contents e /\ activeFile e' = activeFile e)
      /\ sublist (treeIds (filesTree e)) (treeIds (filesTree e'))
      /\ (forall i, i ∈ treeIds (filesTree e') ->
            i ∈ treeIds (filesTree e) \/ i = newId)
      /\ (forall p, parentId = Some p -> p <> "root-folder" -> p <> "" ->
            (p ∉ treeIds (filesTree e) -> filesTree e' = filesTree e)
            /\ (p ∈ treeIds (filesTree e) ->
                newId ∈ treeIds (filesTree e')))).
Proof.
  intros e'. subst e'. unfold handleCreateNode. split.
  - intros ->. reflexivity.
  - intros Hname. rewrite (proj2 (truthy_true name) Hname). cbn [negb].
    cbn [contents activeFile filesTree].
    split; [now intros ->|]. split; [now intros ->|].
    set (newNode := Node newId name type _ (Some true)).
    assert (Hnew : nodeIds newNode = [newId])
      by (subst newNode; now destruct type).
    destruct (match parentId with
              | Some p => String.eqb p "root-folder" || negb (truthy p)
              | None => true
              end) eqn:Hroot.
    + assert (Htree :
        sublist (treeIds (filesTree e))
          (treeIds match filesTree e with
                   | Node i m t (Some l) o :: rest =>
                       Node i m t (Some (l ++ [newNode])) o :: rest
                   | tree => tree
                   end)
        /\ forall j,
             j ∈ treeIds match filesTree e with
                         | Node i m t (Some l) o :: rest =>
                             Node i m t (Some (l ++ [newNode])) o :: rest
                         | tree => tree
                         end ->
             j ∈ treeIds (filesTree e) \/ j = newId).
      { destruct (filesTree e) as [|[i m t [l|] o] rest];
          try (split; [reflexivity|tauto]).
        unfold treeIds. cbn [flat_map nodeIds].
        rewrite flat_map_app. cbn [flat_map]. rewrite Hnew, app_nil_r.
        split.
        - apply sublist_app; [|reflexivity].
          apply sublist_skip. now apply sublist_inserts_r.
        - intros j Hj.
          rewrite elem_of_app, elem_of_cons, elem_of_app,
            list_elem_of_singleton in Hj.
          rewrite elem_of_app, elem_of_cons. tauto. }
      destruct Htree as [T1 T2]. split; [exact T1|]. split; [exact T2|].
      intros p -> Hp1 Hp2. exfalso.
      apply orb_true_iff in Hroot as [Hr|Hr].
      * now apply String.eqb_eq in Hr.
      * apply negb_true_iff, truthy_false in Hr. contradiction.
    + destruct parentId as [p|]; [|discriminate]. cbn [default].
      destruct (insertInto_tree p newNode (filesTree e))
        as (I1 & I2 & I3 & I4).
      split; [exact I1|]. split.
      * intros j Hj. apply I2 in Hj. rewrite Hnew in Hj.
        rewrite list_elem_of_singleton in Hj. exact Hj.
      * intros p' [= <-] _ _. split; [exact I3|].
        intros Hp. apply I4 in Hp. subst newNode. exact Hp.
Qed.

Lemma existsb_filter {A} (f : A -> bool) l :
  (existsb f l = false -> List.filter f l = [])
  /\ (existsb f l = true -> 1 <= length (List.filter f l)).
Proof.
  induction l as [|x l [IH1 IH2]]; cbn [existsb List.filter].
  - split; [reflexivity|discriminate].
  - destruct (f x); cbn [orb length]; [|tauto].
    split; [discriminate|lia].
Qed.

(** X28: opening a file by name stores its content, makes it the
    active file, and leaves exactly one file node of that name right
    below the root when there was none, the nodes there untouched when
    there was one: opening the same name again, with any content, never
    changes the tree. *)
Theorem open_file_no_duplicate newId fileName content e :
  fileName <> "" -> filesTree e <> [] ->
  let e1 := openFile newId fileName content e in
  contents e1 !! fileName = Some content
  /\ activeFile e1 = fileName
  /\ length (rootFilesNamed fileName (filesTree e1))
     = Nat.max 1 (length (rootFilesNamed fileName (filesTree e)))
  /\ forall newId' content',
       filesTree (openFile newId' fileName content' e1) = filesTree e1.
Proof.
  intros Hname Htree e1. subst e1. unfold openFile.
  rewrite (proj2 (truthy_true fileName) Hname). cbn [negb].
  cbn [contents activeFile filesTree].
  split; [apply lookup_insert_eq|]. split; [reflexivity|].
  destruct (filesTree e) as [|[i m t cs o] rest] eqn:Et; [congruence|].
  set (f := fun node : FileNode =>
              NodeType_eqb (node_type node) file
              && String.eqb (node_name node) fileName).
  destruct (existsb_filter f (default [] cs)) as [F0 F1].
  destruct (existsb f (default [] cs)) eqn:Ex.
  - split.
    + unfold rootFilesNamed. cbn [children]. fold f.
      specialize (F1 eq_refl). lia.
    + intros newId' content'. now rewrite Ex.
  - assert (Hnew : f (Node newId fileName file None None) = true).
    { unfold f. cbn [node_type node_name NodeType_eqb andb].
      apply String.eqb_refl. }
    split.
    + unfold rootFilesNamed. cbn [children]. fold f.
      change (default [] (Some (default [] cs
                ++ [Node newId fileName file None None])))
        with (default [] cs ++ [Node newId fileName file None None]).
      rewrite List.filter_app, (F0 eq_refl). cbn [List.filter].
      rewrite Hnew. reflexivity.
    + intros newId' content'.
      change (default [] (Some (default [] cs
                ++ [Node newId fileName file None None])))
        with (default [] cs ++ [Node newId fileName file None None]).
      assert (Hex : existsb f
                      (default [] cs ++ [Node newId fileName file None None])
                    = true).
      { rewrite existsb_app. cbn [existsb]. rewrite Hnew.
        now rewrite orb_true_r. }
      now rewrite Hex.
Qed.

Lemma firstFileIn_spec n :
  Forall (fun x => node_name x <> "") (fileNodes [n]) ->
  firstFileIn n = node_name <$> head (fileNodes [n]).
Proof.
  unfold fileNodes, treeNodes. cbn [flat_map]. rewrite app_nil_r.
  induction n as [i m t cs o IH] using FileNode_nested_ind.
  cbn [firstFileIn nodesOf List.filter node_type].
  destruct t; cbn [NodeType_eqb]; [reflexivity|].
  intros Hnames. destruct cs as [l|]; [|reflexivity].
  assert (Hl : firstSome firstFileIn l
               = node_name <$> head
                   (List.filter
                      (fun n => NodeType_eqb (node_type n) file)
                      (flat_map nodesOf l))).
  { clear -IH Hnames.
    induction IH as [|x l Hx Hl IHl]; [reflexivity|].
    cbn [flat_map firstSome] in *. rewrite List.filter_app in Hnames |- *.
    apply Forall_app in Hnames as [N1 N2].
    rewrite (Hx N1), (IHl N2).
    now destruct (List.filter _ (nodesOf x)). }
  rewrite Hl.
  destruct (Nat.ltb_spec 0 (length l)) as [Hlen|Hlen].
  - destruct (List.filter _ (flat_map nodesOf l)) as [|y ys] eqn:Ef;
      [reflexivity|].
    cbn [head fmap option_fmap option_map].
    apply Forall_cons in Hnames as [Hy _].
    now rewrite (proj2 (truthy_true (node_name y)) Hy).
  - destruct l; [reflexivity|simpl in Hlen; lia].
Qed.

(** X29: after opening a folder whose files all have a name, the
    active file is the first file of the folder in tree order, at any
    depth, and the empty name when the folder holds no file. *)
Theorem open_folder_selects_first_file
    folderName payloadChildren fileContents :
  filesNamed payloadChildren ->
  activeFile (openFolder folderName payloadChildren fileContents)
  = default "" (node_name <$> head (fileNodes payloadChildren)).
Proof.
  unfold openFolder, filesNamed. cbn [activeFile]. intros Hnames.
  f_equal. unfold findFirstFileName.
  induction payloadChildren as [|x l IH]; [reflexivity|].
  unfold fileNodes, treeNodes in *. cbn [flat_map firstSome] in *.
  rewrite List.filter_app in Hnames |- *.
  apply Forall_app in Hnames as [N1 N2].
  pose proof (firstFileIn_spec x) as Hx.
  unfold fileNodes, treeNodes in Hx. cbn [flat_map] in Hx.
  rewrite app_nil_r in Hx. rewrite (Hx N1), (IH N2).
  now destruct (List.filter _ (nodesOf x)).
Qed.

End FileTreeCreateFacts.

Lemma open_file_no_duplicate_witness :
  length (rootFilesNamed "notes.py"
            (filesTree (openFile "n1" "notes.py" "x = 1" initialExplorer)))
  = 1%nat.
Proof.
  refine (proj1 (proj2 (proj2 (open_file_no_duplicate "n1" "notes.py"
            "x = 1" initialExplorer _ _)))); discriminate.
Defined.

Lemma open_folder_selects_first_file_witness :
  activeFile (openFolder "python-project" initialChildren None)
  = "__init__.py".
Proof.
  refine (open_folder_selects_first_file "python-project" initialChildren
            None _).
  unfold filesNamed. vm_compute. repeat constructor; discriminate.
Defined.

(** ** Selected-code analysis and the run counter *)

Section SnippetAnalysisFacts.

Local Open Scope nat_scope.

Variable JSON_parse : string -> option json.

(** X30: analysing the selection shares the run counter with the
    analysis of the file.  With a blank selection only the hint is
    shown: counter and busy flag stay, so an analysis in flight goes
    on.  With any other selection the counter goes up by one, the busy
    flag is set and a request goes out; every run started before is
    superseded and sends nothing more when its request ends, and the
    reply to a snippet without functions clears the busy flag only if
    no later run has started. *)
Theorem selected_snippet_supersedes_analysis st snippet name :
  let result := analyzeSelectedSnippet st snippet name in
  (trim snippet = "" ->
   result = (setExplanation st (fun _ => SELECT_HINT), None))
  /\ (trim snippet <> "" ->
      analysisRunRef result.1 = analysisRunRef st + 1
      /\ isAnalyzing result.1 = true
      /\ (exists run, result.2 = Some run
            /\ match run with
               | UnitRun r =>
                   runId r = analysisRunRef st + 1
                   /\ extractedFunctions r = extractPythonFunctions snippet
                   /\ extractedFunctions r <> []
               | PlainRun id =>
                   id = analysisRunRef st + 1
                   /\ extractPythonFunctions snippet = []
               end)
      /\ (forall r reply,
            runId r <= analysisRunRef st ->
            (resumeRun JSON_parse result.1 r reply).2 = None)
      /\ (forall later reply,
            analysisRunRef later <> analysisRunRef st + 1 ->
            isAnalyzing
              (resumePlain later (analysisRunRef st + 1) reply)
            = isAnalyzing later)).
Proof.
  intros result. subst result. unfold analyzeSelectedSnippet. split.
  - intros E. now rewrite (proj2 (truthy_false _) E).
  - intros Hne. rewrite (proj2 (truthy_true _) Hne). cbn [negb].
    assert (Hstate :
      forall res : PanelState * option SnippetRun,
        res = (if 0 <? length (extractPythonFunctions snippet)
               then
                 let '(st2, r) :=
                   loopHead
                     {| analysisRunRef := analysisRunRef st + 1;
                        explanation := SNIPPET_HEADER;
                        isAnalyzing := true; lastGeminiResponse := "" |}
                     {| runId := analysisRunRef st + 1; run_mode := teacher;
                        run_name := name +:+ " (selected)";
                        extractedFunctions := extractPythonFunctions snippet;
                        run_i := 0 |} in
                 (st2, UnitRun <$> r)
               else
                 ({| analysisRunRef := analysisRunRef st + 1;
                     explanation := SNIPPET_HEADER;
                     isAnalyzing := true; lastGeminiResponse := "" |},
                  Some (PlainRun (analysisRunRef st + 1)))) ->
        res.1 = {| analysisRunRef := analysisRunRef st + 1;
                   explanation := SNIPPET_HEADER;
                   isAnalyzing := true; lastGeminiResponse := "" |}
        /\ exists run, res.2 = Some run
             /\ match run with
                | UnitRun r =>
                    runId r = analysisRunRef st + 1
                    /\ extractedFunctions r = extractPythonFunctions snippet
                    /\ extractedFunctions r <> []
                | PlainRun id =>
                    id = analysisRunRef st + 1
                    /\ extractPythonFunctions snippet = []
                end).
    { intros res ->.
      destruct (Nat.ltb_spec 0 (length (extractPythonFunctions snippet)))
        as [Hlen|Hlen].
      - unfold loopHead. cbn [run_i extractedFunctions runId analysisRunRef].
        rewrite (proj2 (Nat.ltb_lt _ _) Hlen), Nat.eqb_refl. cbn [negb].
        split; [reflexivity|]. eexists. split; [reflexivity|].
        cbn [runId extractedFunctions]. split; [reflexivity|].
        split; [reflexivity|]. intros E. rewrite E in Hlen. simpl in Hlen. lia.
      - split; [reflexivity|]. eexists. split; [reflexivity|].
        split; [reflexivity|].
        destruct (extractPythonFunctions snippet); [reflexivity|].
        simpl in Hlen. lia. }
    destruct (Hstate _ eq_refl) as [Hst Hrun]. rewrite Hst.
    cbn [analysisRunRef isAnalyzing].
    split; [reflexivity|]. split; [reflexivity|]. split; [exact Hrun|].
    split.
    + intros r reply Hle.
      pose proof (resumeRun_spec JSON_parse
                    {| analysisRunRef := analysisRunRef st + 1;
                       explanation := SNIPPET_HEADER;
                       isAnalyzing := true; lastGeminiResponse := "" |}
                    r reply) as [_ Hr].
      destruct (resumeRun _ _ _ _).2 as [r'|]; [|reflexivity].
      destruct (Hr r' eq_refl) as (_ & _ & _ & _ & Hid).
      cbn [analysisRunRef] in Hid. lia.
    + intros later reply Hlater. unfold resumePlain.
      destruct reply as [|text]; cbn [analysisRunRef setExplanation
        setLastGeminiResponse];
        destruct (Nat.eqb_spec (analysisRunRef later)
                    (analysisRunRef st + 1)); try contradiction;
        reflexivity.
Qed.

End SnippetAnalysisFacts.

(** ** Where the source of a unit starts and ends *)

Section UnitSourceFacts.

Local Open Scope nat_scope.

(** C4, as the code has it: the source of every unit is a non-empty run
    of consecutive lines of the file, joined by line feeds, that starts
    on a line that is not blank and holds the [def] line of the unit.
    Nothing is trimmed at its end: it runs over every line after the
    [def] that is blank or indented deeper than the [def], and stops
    only before the first non-blank line indented no deeper, or at the
    end of the file. *)
Theorem unit_source_is_slice codeContent :
  let lines := split_nl codeContent in
  forall u, u ∈ extractPythonFunctions codeContent ->
  exists sp first rest o,
    sp ∈ extractSpans codeContent
    /\ functionName u = span_name sp
    /\ span_start sp <= o < span_end sp
    /\ span_end sp <= length lines
    /\ defMatch (line lines o) = Some (span_name sp)
    /\ slice (span_start sp) (span_end sp) lines = first :: rest
    /\ source u = join_nl (first :: rest)
    /\ blank first = false
    /\ (forall k, o < k < span_end sp ->
        blank (line lines k) = true
        \/ normalizeIndent (line lines o) < normalizeIndent (line lines k))
    /\ (span_end sp < length lines ->
        blank (line lines (span_end sp)) = false
        /\ normalizeIndent (line lines (span_end sp))
           <= normalizeIndent (line lines o)).
Proof.
  intros lines u Hin. unfold extractPythonFunctions in Hin.
  apply list_elem_of_fmap in Hin as (sp & -> & Hsp). fold lines.
  pose proof (extractSpans_chained codeContent) as Hc. fold lines in Hc.
  destruct (chained_elem _ _ _ _ Hc Hsp) as [_ Hb].
  destruct (slice_first lines _ _ Hb) as [rest Hs].
  pose proof Hsp as Hsp'. unfold extractSpans in Hsp'. fold lines in Hsp'.
  destruct (scanFrom_opener _ _ _ _ Hsp') as (o & Ho & Hdef & Hst & He).
  set (d := normalizeIndent (line lines o)) in *.
  destruct (extendStart_spec lines d o) as (S1 & _ & _).
  destruct (extendEnd_spec lines d (length lines - (o + 1)) (o + 1))
    as (E1 & E2 & E3); [lia|lia|].
  rewrite <- Hst in S1. rewrite <- He in E1, E2, E3.
  exists sp, (line lines (span_start sp)), rest, o.
  split; [exact Hsp|]. split; [reflexivity|]. split; [lia|].
  split; [lia|]. split; [exact Hdef|]. split; [exact Hs|].
  split; [simpl; now rewrite Hs|].
  split; [eapply scanFrom_start_not_blank; exact Hsp|].
  split; [intros k Hk; apply E2; lia|exact E3].
Qed.

Lemma unit_source_is_slice_witness :
  exists sp o,
    sp ∈ extractSpans "@cache
def f(x):
    return x

y = 1"
    /\ "f" = span_name sp
    /\ span_start sp <= o < span_end sp
    /\ span_end sp <= 5.
Proof.
  pose proof (unit_source_is_slice "@cache
def f(x):
    return x

y = 1") as H. cbv zeta in H.
  destruct (H {| functionName := "f"; source := "@cache
def f(x):
    return x
" |}) as (sp & first & rest & o & H1 & H2 & H3 & H4 & _).
  - vm_compute. apply list_elem_of_here.
  - exists sp, o. auto.
Defined.

End UnitSourceFacts.

(** ** The lines a run leaves on the panel *)

Section RunOutputFacts.

Local Open Scope nat_scope.

Variable JSON_parse : string -> option json.
Variable hasKey : bool.
Variable mode : AIPanelMode.











End RunOutputFacts.

Section AnalysisOutputFacts.

Local Open Scope nat_scope.

Variable JSON_parse : string -> option json.
Variable mode : AIPanelMode.



End AnalysisOutputFacts.

